(** * ChatRoom: the per-room session coordinator of workerchat-with-e2ee

    A shallow embedding of [ChatRoom.ts] (the second part of
    [src/src/models.ts]) and the properties of its specification.

    Conventions of the embedding.
    - A JavaScript string is the sequence of its code units; the embedding
      keeps the code units below 256, so a string is a [string] of Rocq.
    - Every method of the class is a computation in the monad [M]: it reads
      and writes the [World] (the two containers of the room and the
      environment the room lives in) and either returns or throws.  A throw
      keeps the writes made before it, as in JavaScript.
    - [handleRegister] is an [async] method.  It suspends only while it
      awaits [extractUserProfile], before its first read or write of the
      room; what follows runs without interruption.  It is embedded as one
      atomic transition, taken when the extraction is done. *)

From Stdlib Require Import List String Ascii ZArith NArith Bool Arith Lia.
From Stdlib Require HexadecimalString HexadecimalFacts HexadecimalPos HexadecimalN.
Import ListNotations.
Open Scope string_scope.
Set Warnings "-register-all".

(* ================================================================== *)
(** ** JavaScript strings *)
(* ================================================================== *)

Module JS.

Definition charCode (c : ascii) : Z := Z.of_N (N_of_ascii c).

(** The code units of a string, [s.charCodeAt(0)], [s.charCodeAt(1)], ... *)
Definition charCodes (s : string) : list Z :=
  List.map charCode (list_ascii_of_string s).

Definition code_in (lo hi : Z) (c : ascii) : bool :=
  (lo <=? charCode c)%Z && (charCode c <=? hi)%Z.

(** [\s] of a regular expression, also what [trim] strips: TAB, LF, VT,
    FF, CR, SPACE and NBSP are the white space below 256. *)
Definition isSpace (c : ascii) : bool :=
  code_in 9 13 c || (charCode c =? 32)%Z || (charCode c =? 160)%Z.

(** [\w] is [[A-Za-z0-9_]]. *)
Definition isWord (c : ascii) : bool :=
  code_in 65 90 c || code_in 97 122 c || code_in 48 57 c || (charCode c =? 95)%Z.

(** [.] without the [s] flag: anything but a line terminator. *)
Definition isDot (c : ascii) : bool :=
  negb ((charCode c =? 10)%Z || (charCode c =? 13)%Z).

(** [String.prototype.includes]. *)
Fixpoint includes (s sub : string) : bool :=
  String.prefix sub s ||
  match s with
  | EmptyString => false
  | String _ s' => includes s' sub
  end.

Fixpoint trimStart (s : string) : string :=
  match s with
  | EmptyString => EmptyString
  | String c s' => if isSpace c then trimStart s' else s
  end.

Fixpoint trimEnd (s : string) : string :=
  match s with
  | EmptyString => EmptyString
  | String c s' =>
      let t := trimEnd s' in
      if isSpace c && (t =? "") then EmptyString else String c t
  end.

(** [String.prototype.trim]. *)
Definition trim (s : string) : string := trimEnd (trimStart s).

(** [s.split(sep)] for a one-character separator. *)
Fixpoint split (sep : ascii) (s : string) : list string :=
  match s with
  | EmptyString => [EmptyString]
  | String c s' =>
      if Ascii.eqb c sep then EmptyString :: split sep s'
      else match split sep s' with
           | [] => [String c EmptyString]
           | piece :: rest => String c piece :: rest
           end
  end.

Definition mapChars (f : ascii -> ascii) (s : string) : string :=
  string_of_list_ascii (List.map f (list_ascii_of_string s)).

Definition shiftCode (d : Z) (c : ascii) : ascii :=
  ascii_of_N (Z.to_N (charCode c + d)).

(** [toLowerCase] on code units below 256: A-Z, and the Latin-1 capitals
    U+00C0..U+00DE except the multiplication sign U+00D7. *)
Definition lowerChar (c : ascii) : ascii :=
  if code_in 65 90 c || (code_in 192 222 c && negb (charCode c =? 215)%Z)
  then shiftCode 32 c else c.

Definition toLowerCase : string -> string := mapChars lowerChar.

(** [toUpperCase] is applied to key fingerprints only, which are
    hexadecimal: on them it is the ASCII mapping a-z to A-Z. *)
Definition upperChar (c : ascii) : ascii :=
  if code_in 97 122 c then shiftCode (-32) c else c.

Definition toUpperCase : string -> string := mapChars upperChar.

(** [s.replace(/\s+/g, '')]. *)
Definition removeSpaces (s : string) : string :=
  string_of_list_ascii (List.filter (fun c => negb (isSpace c)) (list_ascii_of_string s)).

(** [!s] for a string [s]. *)
Definition falsy (s : string) : bool := (s =? "").

End JS.

(* ================================================================== *)
(** ** The fragment of regular expressions the room uses *)
(* ================================================================== *)

(** Both patterns of [ChatRoom.ts] are sequences of literal characters and
    of quantified character classes, some of them captured, with an
    optional [$].  [match_here] is the backtracking matcher of ECMAScript on
    that fragment: a greedy quantifier tries the longest repetition first, a
    lazy one the shortest. *)
Module Regex.

Inductive quant := Greedy | Lazy.

Inductive atom :=
| Lit (c : ascii)
| Rep (q : quant) (min : nat) (cls : ascii -> bool) (capture : bool)
| Eol.

Definition regex := list atom.

Fixpoint match_here (r : regex) : string -> list string -> option (list string) :=
  match r with
  | [] => fun _ caps => Some caps
  | Lit c :: r' => fun s caps =>
      match s with
      | String d s' => if Ascii.eqb c d then match_here r' s' caps else None
      | EmptyString => None
      end
  | Eol :: r' => fun s caps =>
      match s with
      | EmptyString => match_here r' s caps
      | String _ _ => None
      end
  | Rep q min cls capture :: r' =>
      let k := match_here r' in
      fun s caps =>
      (fix rep (s : string) (taken : string) {struct s} : option (list string) :=
         let stop (_ : unit) :=
           if Nat.leb min (String.length taken)
           then k s (if capture then (caps ++ [taken])%list else caps)
           else None in
         let more (_ : unit) :=
           match s with
           | String c s' =>
               if cls c then rep s' (taken ++ String c EmptyString) else None
           | EmptyString => None
           end in
         match q with
         | Greedy => match more tt with Some res => Some res | None => stop tt end
         | Lazy => match stop tt with Some res => Some res | None => more tt end
         end) s EmptyString
  end.

(** An unanchored pattern is tried at every start position, leftmost
    first. *)
Fixpoint search (r : regex) (s : string) : option (list string) :=
  match match_here r s [] with
  | Some caps => Some caps
  | None =>
      match s with
      | EmptyString => None
      | String _ s' => search r s'
      end
  end.

Definition groups2 (res : option (list string)) : option (string * string) :=
  match res with
  | Some [g1; g2] => Some (g1, g2)
  | _ => None
  end.

Definition notGt (c : ascii) : bool := negb (Ascii.eqb c ">").

(** [/^(.+?)\s*<([^>]+)>$/], line 355. *)
Definition nameEmailAnchored : regex :=
  [Rep Lazy 1 JS.isDot true; Rep Greedy 0 JS.isSpace false; Lit "<";
   Rep Greedy 1 notGt true; Lit ">"; Eol].

(** [/([\w\s]+)\s*<([^>]+)>/], line 405. *)
Definition nameEmailInLine : regex :=
  [Rep Greedy 1 (fun c => JS.isWord c || JS.isSpace c) true;
   Rep Greedy 0 JS.isSpace false; Lit "<";
   Rep Greedy 1 notGt true; Lit ">"].

(** [userIdString.match(/^(.+?)\s*<([^>]+)>$/)]: the two groups. *)
Definition matchUserId (s : string) : option (string * string) :=
  groups2 (match_here nameEmailAnchored s []).

(** [line.match(/([\w\s]+)\s*<([^>]+)>/)]: the two groups. *)
Definition matchLine (s : string) : option (string * string) :=
  groups2 (search nameEmailInLine s).

End Regex.

(* ================================================================== *)
(** ** Values decoded from inbound frames *)
(* ================================================================== *)

(** What [JSON.parse] returns, and [undefined] for an absent property.  A
    number is kept as the text [String(n)] gives for it; an object is the
    list of its own properties, each key once. *)
Inductive Value :=
| VUndefined
| VNull
| VBool (b : bool)
| VNum (text : string)
| VStr (s : string)
| VArr (items : list Value)
| VObj (props : list (string * Value)).

Fixpoint lookup (key : string) (props : list (string * Value)) : Value :=
  match props with
  | [] => VUndefined
  | (k, v) :: rest => if k =? key then v else lookup key rest
  end.

Definition hasOwn (key : string) (props : list (string * Value)) : bool :=
  existsb (fun kv => fst kv =? key) props.

(** [v.key] for the three keys the room reads ([type], [publicKey],
    [encryptedData]): a [TypeError] ([None]) on [null] and [undefined], the
    own property of an object, [undefined] on any other value. *)
Definition getProp (v : Value) (key : string) : option Value :=
  match v with
  | VUndefined | VNull => None
  | VObj props => Some (lookup key props)
  | _ => Some VUndefined
  end.

(** [!v] is [negb (truthy v)]. *)
Definition truthy (v : Value) : bool :=
  match v with
  | VUndefined | VNull => false
  | VBool b => b
  | VNum text => negb (text =? "0")
  | VStr s => negb (s =? "")
  | VArr _ | VObj _ => true
  end.

(** [typeof v === 'string']. *)
Definition isString (v : Value) : bool :=
  match v with VStr _ => true | _ => false end.

(** [`${v}`]: [None] is the [TypeError] of an object that carries an own,
    hence not callable, [toString]; an array is joined with commas, its
    [null] and [undefined] items empty. *)
Fixpoint toStringJS (v : Value) : option string :=
  match v with
  | VUndefined => Some "undefined"
  | VNull => Some "null"
  | VBool true => Some "true"
  | VBool false => Some "false"
  | VNum text => Some text
  | VStr s => Some s
  | VArr items =>
      (fix join (l : list Value) : option string :=
         let item (x : Value) :=
           match x with
           | VUndefined | VNull => Some ""
           | _ => toStringJS x
           end in
         match l with
         | [] => Some ""
         | [x] => item x
         | x :: rest =>
             match item x, join rest with
             | Some a, Some b => Some (a ++ "," ++ b)
             | _, _ => None
             end
         end) items
  | VObj props => if hasOwn "toString" props then None else Some "[object Object]"
  end.

(* ================================================================== *)
(** ** The data model of [models.ts] *)
(* ================================================================== *)

Definition WebSocket := nat.

Inductive UserRole := GUEST | USER | ADMIN.

Module UserInfo.
Record t := make {
  id : string;
  name : string;
  email : string;
  publicKey : string;
  webSocket : WebSocket;
  role : UserRole
}.
End UserInfo.

Module UserProfile.
Record t := make {
  id : string;
  name : string;
  email : string
}.
End UserProfile.

(** An entry of [UserListMessage.users]. *)
Module RosterEntry.
Record t := make {
  id : string;
  name : string;
  email : string;
  publicKey : string
}.
End RosterEntry.

(** The outbound frames: [RegisteredMessage], [UserListMessage],
    [EncryptedMessage] and [ErrorMessage]. *)
Inductive Frame :=
| registered (profile : UserProfile.t)
| userList (users : list RosterEntry.t)
| encryptedMessage (senderId encryptedData : string) (timestamp : Z)
| error (message : string).

(** What the key-parsing collaborator ([readKey] of openpgp) gives for a
    key it accepts.  [getPrimaryUser] is [None] when the call throws,
    [Some None] when the primary user has no [userID], [Some (Some s)] when
    [userID.userID] is [s]. *)
Module Key.
Record t := make {
  getPrimaryUser : option (option string);
  getFingerprint : string
}.
End Key.

(* ================================================================== *)
(** ** The world of a room, and the monad of its methods *)
(* ================================================================== *)

(** A call the room made on a socket, with its outcome.  The text sent is
    [JSON.stringify] of a frame and is kept as that frame. *)
Inductive Call :=
| Sent (ws : WebSocket) (text : Frame)
| SendThrew (ws : WebSocket) (text : Frame)
| Closed (ws : WebSocket).

(** [users] is the [Map<WebSocket, UserInfo>] in insertion order, each key
    once.  [sessions] is the [Set<WebSocket>] as ECMAScript keeps it: the
    list of its entries in insertion order, a deleted entry left in place as
    [None], so that a running iterator is an index into the list.  The other
    fields are the environment: the sockets whose [send] throws, whether
    [close] makes later sends throw, the clock of [Date.now], the results of
    [Math.random().toString(36).substr(2, 8)] and how many were drawn, and
    how often [JSON.stringify] ran. *)
Record World := mkWorld {
  users : list (WebSocket * UserInfo.t);
  sessions : list (option WebSocket);
  calls : list Call;
  dead : list WebSocket;
  closeKills : bool;
  clock : Z;
  random : nat -> string;
  draws : nat;
  stringified : nat
}.

Definition with_users (u : list (WebSocket * UserInfo.t)) (w : World) : World :=
  mkWorld u (sessions w) (calls w) (dead w) (closeKills w) (clock w)
          (random w) (draws w) (stringified w).

Definition with_sessions (s : list (option WebSocket)) (w : World) : World :=
  mkWorld (users w) s (calls w) (dead w) (closeKills w) (clock w)
          (random w) (draws w) (stringified w).

Definition with_calls (c : list Call) (w : World) : World :=
  mkWorld (users w) (sessions w) c (dead w) (closeKills w) (clock w)
          (random w) (draws w) (stringified w).

Definition with_dead (d : list WebSocket) (w : World) : World :=
  mkWorld (users w) (sessions w) (calls w) d (closeKills w) (clock w)
          (random w) (draws w) (stringified w).

Definition with_clock (t : Z) (w : World) : World :=
  mkWorld (users w) (sessions w) (calls w) (dead w) (closeKills w) t
          (random w) (draws w) (stringified w).

Definition with_draws (n : nat) (w : World) : World :=
  mkWorld (users w) (sessions w) (calls w) (dead w) (closeKills w) (clock w)
          (random w) n (stringified w).

Definition with_stringified (n : nat) (w : World) : World :=
  mkWorld (users w) (sessions w) (calls w) (dead w) (closeKills w) (clock w)
          (random w) (draws w) n.

Inductive Completion (A : Type) :=
| Normal (a : A)
| Throw.
Arguments Normal {A} a.
Arguments Throw {A}.

Definition M (A : Type) : Type := World -> Completion A * World.

Definition ret {A} (a : A) : M A := fun w => (Normal a, w).

Definition throw {A} : M A := fun w => (Throw, w).

Definition bind {A B} (m : M A) (k : A -> M B) : M B :=
  fun w =>
    match m w with
    | (Normal a, w') => k a w'
    | (Throw, w') => (Throw, w')
    end.

(** [try { body } catch (error) { handler }]. *)
Definition try_catch {A} (body handler : M A) : M A :=
  fun w =>
    match body w with
    | (Normal a, w') => (Normal a, w')
    | (Throw, w') => handler w'
    end.

(** A call of an [async] method that is not awaited: a rejection of its
    promise does not reach the caller. *)
Definition detached (m : M unit) : M unit := try_catch m (ret tt).

Definition orThrow {A} (o : option A) : M A :=
  match o with
  | Some a => ret a
  | None => throw
  end.

Notation "x <- m ;; k" := (bind m (fun x => k))
  (at level 61, m at next level, right associativity).
Notation "m ;; k" := (bind m (fun _ => k))
  (at level 61, right associativity).

Definition mem (ws : WebSocket) (l : list WebSocket) : bool :=
  existsb (Nat.eqb ws) l.

(** The call [send] makes at [ws] in world [w]. *)
Definition attempt (w : World) (text : Frame) (ws : WebSocket) : Call :=
  if mem ws (dead w) then SendThrew ws text else Sent ws text.

(** [ws.send(text)]. *)
Definition ws_send (ws : WebSocket) (text : Frame) : M unit :=
  fun w =>
    let w' := with_calls (calls w ++ [attempt w text ws])%list w in
    if mem ws (dead w) then (Throw, w') else (Normal tt, w').

(** [ws.close()], which does not throw on an accepted socket. *)
Definition ws_close (ws : WebSocket) : M unit :=
  fun w =>
    let w' := with_calls (calls w ++ [Closed ws])%list w in
    (Normal tt, if closeKills w then with_dead (ws :: dead w) w' else w').

(** [JSON.stringify(frame)]. *)
Definition JSON_stringify (frame : Frame) : M Frame :=
  fun w => (Normal frame, with_stringified (S (stringified w)) w).

(** [Date.now()]. *)
Definition Date_now : M Z := fun w => (Normal (clock w), w).

(** [Math.random().toString(36).substr(2, 8)]. *)
Definition Math_random_suffix : M string :=
  fun w => (Normal (random w (draws w)), with_draws (S (draws w)) w).

(** *** [Map<WebSocket, UserInfo>] *)

Fixpoint map_get (ws : WebSocket) (m : list (WebSocket * UserInfo.t)) : option UserInfo.t :=
  match m with
  | [] => None
  | (k, v) :: rest => if Nat.eqb k ws then Some v else map_get ws rest
  end.

(** [set] keeps the position of a key that is present and appends a new
    one. *)
Fixpoint map_set (ws : WebSocket) (u : UserInfo.t) (m : list (WebSocket * UserInfo.t))
  : list (WebSocket * UserInfo.t) :=
  match m with
  | [] => [(ws, u)]
  | (k, v) :: rest => if Nat.eqb k ws then (k, u) :: rest else (k, v) :: map_set ws u rest
  end.

Definition map_delete (ws : WebSocket) (m : list (WebSocket * UserInfo.t))
  : list (WebSocket * UserInfo.t) :=
  filter (fun kv => negb (Nat.eqb (fst kv) ws)) m.

Definition map_values (m : list (WebSocket * UserInfo.t)) : list UserInfo.t :=
  List.map snd m.

Definition users_get (ws : WebSocket) : M (option UserInfo.t) :=
  fun w => (Normal (map_get ws (users w)), w).

Definition users_set (ws : WebSocket) (u : UserInfo.t) : M unit :=
  fun w => (Normal tt, with_users (map_set ws u (users w)) w).

Definition users_delete (ws : WebSocket) : M unit :=
  fun w => (Normal tt, with_users (map_delete ws (users w)) w).

Definition users_values : M (list UserInfo.t) :=
  fun w => (Normal (map_values (users w)), w).

(** *** [Set<WebSocket>] *)

Definition holds (ws : WebSocket) (entry : option WebSocket) : bool :=
  match entry with
  | Some s => Nat.eqb s ws
  | None => false
  end.

(** The members of the set, in insertion order. *)
Fixpoint live (entries : list (option WebSocket)) : list WebSocket :=
  match entries with
  | [] => []
  | Some s :: rest => s :: live rest
  | None :: rest => live rest
  end.

Definition set_add (ws : WebSocket) (entries : list (option WebSocket))
  : list (option WebSocket) :=
  if existsb (holds ws) entries then entries else (entries ++ [Some ws])%list.

Definition set_delete (ws : WebSocket) (entries : list (option WebSocket))
  : list (option WebSocket) :=
  List.map (fun e => if holds ws e then None else e) entries.

Definition sessions_add (ws : WebSocket) : M unit :=
  fun w => (Normal tt, with_sessions (set_add ws (sessions w)) w).

Definition sessions_delete (ws : WebSocket) : M unit :=
  fun w => (Normal tt, with_sessions (set_delete ws (sessions w)) w).

(* ================================================================== *)
(** ** Numbers: 32-bit operators and [toString(16)] *)
(* ================================================================== *)

(** [ToInt32] of ECMAScript on an integer. *)
Definition ToInt32 (x : Z) : Z := ((x + 2 ^ 31) mod 2 ^ 32 - 2 ^ 31)%Z.

(** [x << n] for a shift count below 32. *)
Definition shl (x n : Z) : Z := ToInt32 (Z.shiftl (ToInt32 x) n).

(** [x & y]. *)
Definition band (x y : Z) : Z := ToInt32 (Z.land (ToInt32 x) (ToInt32 y)).

(** [n.toString(16)] for an integer [n >= 0]. *)
Definition toString16 (n : Z) : string :=
  HexadecimalString.NilZero.string_of_uint (N.to_hex_uint (Z.to_N n)).

Fixpoint repeatChar (n : nat) (c : ascii) : string :=
  match n with
  | O => EmptyString
  | S n' => String c (repeatChar n' c)
  end.

(** [s.padStart(n, c)] for a one-character filler. *)
Definition padStart (n : nat) (c : ascii) (s : string) : string :=
  repeatChar (n - String.length s) c ++ s.

(* ================================================================== *)
(** ** class ChatRoom *)
(* ================================================================== *)

(** Lines 328-331. *)
Definition isValidPGPPublicKey (publicKey : string) : bool :=
  JS.includes publicKey "-----BEGIN PGP PUBLIC KEY BLOCK-----" &&
  JS.includes publicKey "-----END PGP PUBLIC KEY BLOCK-----".

(** Lines 333-336. *)
Definition isValidPGPMessage (message : string) : bool :=
  JS.includes message "-----BEGIN PGP MESSAGE-----" &&
  JS.includes message "-----END PGP MESSAGE-----".

(** The loop of lines 420-424 over the code units [charCodeAt] gives, from
    [hash]: [(hash << 5) - hash + char] is an exact sum of small integers,
    [hash & hash] brings it back to 32 bits. *)
Fixpoint hashFrom (codes : list Z) (hash : Z) : Z :=
  match codes with
  | [] => hash
  | char :: rest =>
      let hash := (shl hash 5 - hash + char)%Z in
      let hash := band hash hash in
      hashFrom rest hash
  end.

(** Lines 417-426. *)
Definition generateUserIdFromKey (publicKey : string) : string :=
  let hash := hashFrom (JS.charCodes publicKey) 0 in
  padStart 8 "0" (toString16 (Z.abs hash)).

(** Lines 306-317. *)
Definition sendError (webSocket : WebSocket) (message : string) : M unit :=
  try_catch
    (errorMessage <- JSON_stringify (error message) ;;
     ws_send webSocket errorMessage)
    (ret tt).

(** The [for (const session of this.sessions)] of lines 279-287, from
    entry [i] of the set.  The iterator reads the entries of the set as they
    are when it reaches them; [fuel] bounds the number of entries it
    steps over. *)
Fixpoint broadcastFrom (fuel i : nat) (messageStr : Frame) : M unit :=
  match fuel with
  | O => ret tt
  | S fuel' =>
      fun w =>
        match nth_error (sessions w) i with
        | None => (Normal tt, w)
        | Some None => broadcastFrom fuel' (S i) messageStr w
        | Some (Some session) =>
            (try_catch
               (ws_send session messageStr)
               (sessions_delete session ;;
                users_delete session) ;;
             broadcastFrom fuel' (S i) messageStr) w
        end
  end.

(** Lines 277-288.  The body of the loop adds no entry, so the entries at
    the start bound the steps of the iterator. *)
Definition broadcast (message : Frame) : M unit :=
  messageStr <- JSON_stringify message ;;
  fun w => broadcastFrom (List.length (sessions w)) 0 messageStr w.

Definition rosterEntry (user : UserInfo.t) : RosterEntry.t :=
  RosterEntry.make (UserInfo.id user) (UserInfo.name user)
                   (UserInfo.email user) (UserInfo.publicKey user).

(** Lines 290-304. *)
Definition broadcastUserList : M unit :=
  values <- users_values ;;
  let users := List.map rosterEntry values in
  broadcast (userList users).

(** Lines 224-238. *)
Definition handleGetUsers (webSocket : WebSocket) : M unit :=
  values <- users_values ;;
  let users := List.map rosterEntry values in
  response <- JSON_stringify (userList users) ;;
  ws_send webSocket response.

(** Lines 240-267. *)
Definition handleChatMessage (webSocket : WebSocket) (message : Value) : M unit :=
  sender <- users_get webSocket ;;
  match sender with
  | None => sendError webSocket "User not registered"
  | Some sender =>
      encryptedData <- orThrow (getProp message "encryptedData") ;;
      if negb (truthy encryptedData) || negb (isString encryptedData)
      then sendError webSocket "Invalid encrypted data format"
      else
        match encryptedData with
        | VStr data =>
            if negb (isValidPGPMessage data)
            then sendError webSocket "Invalid PGP message format"
            else
              timestamp <- Date_now ;;
              broadcast (encryptedMessage (UserInfo.id sender) data timestamp)
        | _ => ret tt
        end
  end.

(** Lines 269-275. *)
Definition handleDisconnect (webSocket : WebSocket) : M unit :=
  sessions_delete webSocket ;;
  users_delete webSocket ;;
  broadcastUserList.

(** Lines 319-326. *)
Definition findUserById (id : string) : M (option UserInfo.t) :=
  values <- users_values ;;
  ret (find (fun user => UserInfo.id user =? id) values).

(** The [for (const line of lines)] of lines 403-411. *)
Fixpoint scanLines (lines : list string) (name email : string) : string * string :=
  match lines with
  | [] => (name, email)
  | line :: rest =>
      if JS.includes line "Comment:" || JS.includes line "Name:"
      then match Regex.matchLine line with
           | Some (g1, g2) => scanLines rest (JS.trim g1) (JS.trim g2)
           | None => scanLines rest name email
           end
      else scanLines rest name email
  end.

(** Lines 396-414. *)
Definition fallbackExtractUserProfile (publicKey : string) : M UserProfile.t :=
  let lines := JS.split "010" publicKey in
  suffix <- Math_random_suffix ;;
  let name := "User_" ++ suffix in
  let email := JS.toLowerCase name ++ "@example.com" in
  let id := generateUserIdFromKey publicKey in
  let (name, email) := scanLines lines name email in
  ret (UserProfile.make id name email).

(** Lines 354-370: name and email from the primary user id. *)
Definition parseUserId (userIdString : string) : string * string :=
  match Regex.matchUserId userIdString with
  | Some (g1, g2) => (JS.trim g1, JS.trim g2)
  | None =>
      if JS.includes userIdString "@"
      then
        let email := JS.trim userIdString in
        let name := hd EmptyString (JS.split "@" email) in
        (name, email)
      else (JS.trim userIdString, EmptyString)
  end.

Section ChatRoom.

(** The two collaborators of the room: [JSON.parse], [None] when it throws,
    and [readKey] of openpgp, [None] when it rejects the key. *)
Variable JSON_parse : string -> option Value.
Variable readKey : string -> option Key.t.

(** Lines 338-393. *)
Definition extractUserProfile (publicKeyArmored : string) : M UserProfile.t :=
  try_catch
    (publicKey <- orThrow (readKey publicKeyArmored) ;;
     userID <- orThrow (Key.getPrimaryUser publicKey) ;;
     let (name, email) :=
       match userID with
       | Some userIdString => parseUserId userIdString
       | None => (EmptyString, EmptyString)
       end in
     let id := JS.toUpperCase (Key.getFingerprint publicKey) in
     name <- (if JS.falsy name
              then suffix <- Math_random_suffix ;; ret ("User_" ++ suffix)
              else ret name) ;;
     let email :=
       if JS.falsy email
       then JS.removeSpaces (JS.toLowerCase name) ++ "@example.com"
       else email in
     ret (UserProfile.make id name email))
    (fallbackExtractUserProfile publicKeyArmored).

(** Lines 194-200: an entry with the same id on another socket is deleted
    and that socket closed. *)
Definition evictExisting (webSocket : WebSocket) (userInfo : UserInfo.t) : M unit :=
  existingUser <- findUserById (UserInfo.id userInfo) ;;
  match existingUser with
  | Some existingUser =>
      if negb (Nat.eqb (UserInfo.webSocket existingUser) webSocket)
      then
        users_delete (UserInfo.webSocket existingUser) ;;
        ws_close (UserInfo.webSocket existingUser)
      else ret tt
  | None => ret tt
  end.

(** Lines 171-217, the [try] block of [handleRegister]. *)
Definition registerBody (webSocket : WebSocket) (message : Value) : M unit :=
  publicKey <- orThrow (getProp message "publicKey") ;;
  if negb (truthy publicKey) || negb (isString publicKey)
  then sendError webSocket "Invalid public key format"
  else
    match publicKey with
    | VStr publicKey =>
        if negb (isValidPGPPublicKey publicKey)
        then sendError webSocket "Invalid PGP public key format"
        else
          userProfile <- extractUserProfile publicKey ;;
          let userInfo :=
            UserInfo.make (UserProfile.id userProfile)
                          (UserProfile.name userProfile)
                          (UserProfile.email userProfile)
                          publicKey webSocket GUEST in
          evictExisting webSocket userInfo ;;
          users_set webSocket userInfo ;;
          response <- JSON_stringify
                        (registered (UserProfile.make (UserInfo.id userInfo)
                                                      (UserInfo.name userInfo)
                                                      (UserInfo.email userInfo))) ;;
          ws_send webSocket response ;;
          broadcastUserList
    | _ => ret tt
    end.

(** Lines 169-222. *)
Definition handleRegister (webSocket : WebSocket) (message : Value) : M unit :=
  try_catch
    (registerBody webSocket message)
    (sendError webSocket "Registration failed").

(** Lines 153-167. *)
Definition handleMessage (webSocket : WebSocket) (message : Value) : M unit :=
  type <- orThrow (getProp message "type") ;;
  let otherwise :=
    text <- orThrow (toStringJS type) ;;
    sendError webSocket ("Unknown message type: " ++ text) in
  match type with
  | VStr type =>
      if type =? "register" then detached (handleRegister webSocket message)
      else if type =? "getUsers" then handleGetUsers webSocket
      else if type =? "message" then handleChatMessage webSocket message
      else otherwise
  | _ => otherwise
  end.

(** The [message] listener of lines 135-142. *)
Definition onMessage (webSocket : WebSocket) (data : string) : M unit :=
  try_catch
    (message <- orThrow (JSON_parse data) ;;
     handleMessage webSocket message)
    (sendError webSocket "Invalid JSON format").

(** Lines 131-151: the socket joins the set; its listeners are the
    [MessageEvent], [CloseEvent] and [ErrorEvent] cases of [deliver]. *)
Definition handleSession (webSocket : WebSocket) : M unit :=
  sessions_add webSocket.

(** What happens to a room: a socket is handed over by [fetch], one of its
    listeners fires, or the environment changes (a socket stops accepting
    sends, the clock moves). *)
Inductive Event :=
| Upgrade (ws : WebSocket)
| MessageEvent (ws : WebSocket) (data : string)
| CloseEvent (ws : WebSocket)
| ErrorEvent (ws : WebSocket)
| Dies (ws : WebSocket)
| Tick (now : Z).

Definition deliver (e : Event) : M unit :=
  match e with
  | Upgrade ws => handleSession ws
  | MessageEvent ws data => onMessage ws data
  | CloseEvent ws => handleDisconnect ws
  | ErrorEvent ws => handleDisconnect ws
  | Dies ws => fun w => (Normal tt, with_dead (ws :: dead w) w)
  | Tick now => fun w => (Normal tt, with_clock now w)
  end.

Fixpoint run (events : list Event) (w : World) : World :=
  match events with
  | [] => w
  | e :: rest => run rest (snd (deliver e w))
  end.

End ChatRoom.

(** A room as its constructor leaves it, in a given environment. *)
Definition newRoom (dead : list WebSocket) (closeKills : bool) (clock : Z)
  (random : nat -> string) : World :=
  mkWorld [] [] [] dead closeKills clock random 0 0.

(* ================================================================== *)
(** ** [ChatRoom.fetch] and the worker of [index.ts] *)
(* ================================================================== *)

(** What the two [fetch] handlers read of a request: its method, the
    [pathname] of its URL and [headers.get('Upgrade')]. *)
Module Request.
Record t := make {
  method : string;
  pathname : string;
  upgrade : option string
}.
End Request.

Module Response.
Record t := make {
  status : nat;
  body : option string;
  headers : list (string * string);
  webSocket : option WebSocket
}.
End Response.

(** [request.headers.get('Upgrade') === 'websocket']. *)
Definition wantsWebSocket (request : Request.t) : bool :=
  match Request.upgrade request with
  | Some value => value =? "websocket"
  | None => false
  end.

(** Lines 115-129.  [pair] is the [client] and the [server] socket of the
    [WebSocketPair] the handler creates. *)
Definition fetch (request : Request.t) (pair : WebSocket * WebSocket) : M Response.t :=
  if negb (wantsWebSocket request)
  then ret (Response.make 400 (Some "Expected websocket") [] None)
  else
    let (client, server) := pair in
    handleSession server ;;
    ret (Response.make 101 None [] (Some client)).

Module Index.

(** Line 493. *)
Definition chars : string :=
  "ABCDEFGHIJKLMNOPQRSTUVWXYZabcdefghijklmnopqrstuvwxyz0123456789".

(** [s.charAt(k)]: the empty string past the end. *)
Definition charAt (s : string) (k : nat) : string :=
  match String.get k s with
  | Some c => String c EmptyString
  | None => EmptyString
  end.

(** The loop of lines 495-497 with [steps] turns left, at counter [i];
    [indices i] is [Math.floor(Math.random() * chars.length)] at turn [i]. *)
Fixpoint generateRoomIdFrom (steps i : nat) (indices : nat -> nat) (result : string)
  : string :=
  match steps with
  | O => result
  | S steps' =>
      generateRoomIdFrom steps' (S i) indices (result ++ charAt chars (indices i))
  end.

(** Lines 492-499. *)
Definition generateRoomId (indices : nat -> nat) : string :=
  generateRoomIdFrom 64 0 indices EmptyString.

(** [[a-zA-Z0-9]]. *)
Definition isAlnum (c : ascii) : bool :=
  JS.code_in 97 122 c || JS.code_in 65 90 c || JS.code_in 48 57 c.

Fixpoint stripPrefix (p s : string) : option string :=
  match p, s with
  | EmptyString, _ => Some s
  | String a p', String b s' => if Ascii.eqb a b then stripPrefix p' s' else None
  | String _ _, EmptyString => None
  end.

(** Exactly [n] characters of a class, and what follows them. *)
Fixpoint takeClass (n : nat) (cls : ascii -> bool) (s : string) : option (string * string) :=
  match n with
  | O => Some (EmptyString, s)
  | S n' =>
      match s with
      | String c s' =>
          if cls c
          then match takeClass n' cls s' with
               | Some (taken, rest) => Some (String c taken, rest)
               | None => None
               end
          else None
      | EmptyString => None
      end
  end.

(** [url.pathname.match(/^\/api\/room\/([a-zA-Z0-9]{64})\/websocket$/)],
    line 474: the group.  Every part of the pattern has a fixed length, so
    there is one way to match: the literal, 64 characters of the class, the
    literal, the end. *)
Definition matchRoomPath (pathname : string) : option string :=
  match stripPrefix "/api/room/" pathname with
  | Some rest =>
      match takeClass 64 isAlnum rest with
      | Some (roomId, tail) => if tail =? "/websocket" then Some roomId else None
      | None => None
      end
  | None => None
  end.

(** What the worker answers: a response of its own, or what
    [durableObject.fetch(request)] answers for the object
    [idFromName(roomId)]. *)
Inductive Reply :=
| Respond (response : Response.t)
| Forward (roomId : string).

(** Lines 435-488.  [generateRoomId] does not throw, so the [catch] of
    lines 463-470 is not entered. *)
Definition fetch (indices : nat -> nat) (request : Request.t) : Reply :=
  if Request.method request =? "OPTIONS"
  then Respond (Response.make 200 None
                  [("Access-Control-Allow-Origin", "*");
                   ("Access-Control-Allow-Methods", "GET, POST, OPTIONS");
                   ("Access-Control-Allow-Headers", "Content-Type")] None)
  else if (Request.pathname request =? "/api/room") && (Request.method request =? "POST")
  then
    let roomId := generateRoomId indices in
    Respond (Response.make 200 (Some roomId)
               [("Content-Type", "text/plain");
                ("Access-Control-Allow-Origin", "*")] None)
  else
    match matchRoomPath (Request.pathname request) with
    | Some roomId =>
        if wantsWebSocket request
        then Forward roomId
        else Respond (Response.make 404 (Some "Not Found") [] None)
    | None => Respond (Response.make 404 (Some "Not Found") [] None)
    end.

End Index.

(* ================================================================== *)
(** ** Vocabulary of the properties *)
(* ================================================================== *)

(** The world after one [JSON.stringify] and one [send] of its text at
    [ws]: nothing else differs from [w]. *)
Definition replied (w : World) (ws : WebSocket) (text : Frame) : World :=
  with_calls (calls w ++ [attempt w text ws])%list
             (with_stringified (S (stringified w)) w).

(** The socket a call was made on, and the calls of a list made on [ws]. *)
Definition target (c : Call) : WebSocket :=
  match c with
  | Sent ws _ | SendThrew ws _ | Closed ws => ws
  end.

Definition callsAt (ws : WebSocket) (l : list Call) : list Call :=
  filter (fun c => Nat.eqb (target c) ws) l.

(** The entries of a set once the members [send] throws at are deleted. *)
Definition heal (dead : list WebSocket) (entries : list (option WebSocket))
  : list (option WebSocket) :=
  List.map (fun e => match e with
                     | Some s => if mem s dead then None else Some s
                     | None => None
                     end) entries.

Definition failing (dead targets : list WebSocket) : list WebSocket :=
  filter (fun s => mem s dead) targets.

Definition withoutKeys (keys : list WebSocket) (m : list (WebSocket * UserInfo.t))
  : list (WebSocket * UserInfo.t) :=
  filter (fun kv => negb (mem (fst kv) keys)) m.

(** The world a broadcast of [text] leaves, from index [0]. *)
Definition broadcasted (text : Frame) (w : World) : World :=
  mkWorld (withoutKeys (failing (dead w) (live (sessions w))) (users w))
          (heal (dead w) (sessions w))
          (calls w ++ List.map (attempt w text) (live (sessions w)))%list
          (dead w) (closeKills w) (clock w) (random w) (draws w)
          (stringified w).

Fixpoint distinct {A} (eqb : A -> A -> bool) (l : list A) : bool :=
  match l with
  | [] => true
  | x :: rest => negb (existsb (eqb x) rest) && distinct eqb rest
  end.

Definition userIds (m : list (WebSocket * UserInfo.t)) : list string :=
  List.map (fun kv => UserInfo.id (snd kv)) m.

(** The representation invariant of a room: a set holds a socket once, a
    map holds a key once, an entry of [users] is filed under its own
    socket, and no two entries carry the same id. *)
Definition wellFormed (w : World) : bool :=
  distinct Nat.eqb (live (sessions w)) &&
  distinct Nat.eqb (List.map fst (users w)) &&
  forallb (fun kv => Nat.eqb (UserInfo.webSocket (snd kv)) (fst kv)) (users w) &&
  distinct String.eqb (userIds (users w)).

(** The part of [wellFormed] that is about the directory. *)
Definition UsersOK (m : list (WebSocket * UserInfo.t)) : Prop :=
  NoDup (List.map fst m) /\
  (forall k v, In (k, v) m -> UserInfo.webSocket v = k) /\
  NoDup (userIds m).

(** The socket the eviction of lines 194-200 closes for a candidate id
    submitted at [ws], the directory after it, and the world after it. *)
Definition evictee (ws : WebSocket) (id : string)
  (m : list (WebSocket * UserInfo.t)) : option WebSocket :=
  match find (fun user => UserInfo.id user =? id) (map_values m) with
  | Some existing =>
      if negb (Nat.eqb (UserInfo.webSocket existing) ws)
      then Some (UserInfo.webSocket existing)
      else None
  | None => None
  end.

Definition afterEviction (ws : WebSocket) (id : string)
  (m : list (WebSocket * UserInfo.t)) : list (WebSocket * UserInfo.t) :=
  match evictee ws id m with
  | Some old => map_delete old m
  | None => m
  end.

Definition evicted (ws : WebSocket) (id : string) (w : World) : World :=
  match evictee ws id (users w) with
  | Some old => snd (ws_close old (with_users (map_delete old (users w)) w))
  | None => w
  end.

(** The entry [handleRegister] files for a profile. *)
Definition entryOf (profile : UserProfile.t) (publicKey : string) (ws : WebSocket)
  : UserInfo.t :=
  UserInfo.make (UserProfile.id profile) (UserProfile.name profile)
                (UserProfile.email profile) publicKey ws GUEST.

(** The world once the requester is bound: after the eviction and the
    [users.set] of line 202. *)
Definition bound (ws : WebSocket) (profile : UserProfile.t) (publicKey : string)
  (w : World) : World :=
  let w2 := evicted ws (UserProfile.id profile) w in
  with_users (map_set ws (entryOf profile publicKey ws) (users w2)) w2.

(** The roster a [userList] frame carries. *)
Definition roster (w : World) : list RosterEntry.t :=
  List.map rosterEntry (map_values (users w)).

(** [type === name] of the [switch] of [handleMessage], and whether the
    type of a decoded value is one of its three cases; the type of a value
    no property can be read from is none of them. *)
Definition isType (name : string) (type : Value) : bool :=
  match type with
  | VStr s => s =? name
  | _ => false
  end.

Definition knownType (message : Value) : bool :=
  match getProp message "type" with
  | Some type => isType "register" type || isType "getUsers" type || isType "message" type
  | None => false
  end.

(** A computation keeps the representation invariant, however it ends. *)
Definition Preserves {A} (m : M A) : Prop :=
  forall w, wellFormed w = true -> wellFormed (snd (m w)) = true.

(** An entry of [m] with the id of [u] can only be filed under [ws]. *)
Definition onlyRequester (ws : WebSocket) (u : UserInfo.t)
  (m : list (WebSocket * UserInfo.t)) : Prop :=
  forall k v, In (k, v) m -> UserInfo.id v = UserInfo.id u -> k = ws.

(** The entries of the directory that carry [id]. *)
Definition boundTo (id : string) (m : list (WebSocket * UserInfo.t))
  : list (WebSocket * UserInfo.t) :=
  filter (fun kv => UserInfo.id (snd kv) =? id) m.

(** Name and email of a profile from what [parseUserId] found: an empty
    name is replaced by a random one, an empty email is made from the
    name. *)
Definition withDefaults (found : string * string) (suffix : string) : string * string :=
  let name := if JS.falsy (fst found) then "User_" ++ suffix else fst found in
  let email :=
    if JS.falsy (snd found)
    then JS.removeSpaces (JS.toLowerCase name) ++ "@example.com"
    else snd found in
  (name, email).

(** The weak hash of the fallback id as the specification words it: a
    rolling hash [h := h*31 + charCode], truncated to a signed 32-bit
    integer at each character, then the absolute value in lowercase
    hexadecimal, padded with zeros to 8 characters: its eight low
    hexadecimal digits, the most significant first. *)
Module Spec.

Definition truncate32 (z : Z) : Z :=
  let m := (z mod 2 ^ 32)%Z in
  if (m <? 2 ^ 31)%Z then m else (m - 2 ^ 32)%Z.

Fixpoint rolling (codes : list Z) (h : Z) : Z :=
  match codes with
  | [] => h
  | c :: rest => rolling rest (truncate32 (h * 31 + c))
  end.

(** The character of the lowest hexadecimal digit of [v]. *)
Definition hexChar (v : N) : ascii :=
  match (v mod 16)%N with
  | 0 => "0" | 1 => "1" | 2 => "2" | 3 => "3" | 4 => "4" | 5 => "5" | 6 => "6"
  | 7 => "7" | 8 => "8" | 9 => "9" | 10 => "a" | 11 => "b" | 12 => "c"
  | 13 => "d" | 14 => "e" | _ => "f"
  end%N%char.

(** The [k] low hexadecimal digits of [n], the most significant first. *)
Fixpoint hexDigits (k : nat) (n : N) : string :=
  match k with
  | O => EmptyString
  | S k' => hexDigits k' (n / 16) ++ String (hexChar n) EmptyString
  end.

Definition fallbackId (armored : string) : string :=
  hexDigits 8 (Z.to_N (Z.abs (rolling (JS.charCodes armored) 0))).

End Spec.

(** The digits of [Spec.hexDigits] as a number of the standard library,
    least significant digit first. *)
Module HexDigits.
Import Hexadecimal.

Definition digit (v : N) (d : uint) : uint :=
  match (v mod 16)%N with
  | 0 => D0 d | 1 => D1 d | 2 => D2 d | 3 => D3 d | 4 => D4 d | 5 => D5 d
  | 6 => D6 d | 7 => D7 d | 8 => D8 d | 9 => D9 d | 10 => Da d | 11 => Db d
  | 12 => Dc d | 13 => Dd d | 14 => De d | _ => Df d
  end%N.

Fixpoint littleEndian (k : nat) (n : N) : uint :=
  match k with
  | O => Nil
  | S k' => digit n (littleEndian k' (n / 16))
  end.

End HexDigits.

(** The id of a credential: the fingerprint in upper case when the key and
    its primary user parse, the fallback hash otherwise. *)
Definition credentialId (readKey : string -> option Key.t) (armored : string) : string :=
  match readKey armored with
  | Some key =>
      match Key.getPrimaryUser key with
      | Some _ => JS.toUpperCase (Key.getFingerprint key)
      | None => generateUserIdFromKey armored
      end
  | None => generateUserIdFromKey armored
  end.

(* ================================================================== *)
(** ** Sample rooms, frames and collaborators *)
(* ================================================================== *)

Module Sample.

Definition armored : string :=
  "-----BEGIN PGP PUBLIC KEY BLOCK-----" ++ String "010" (
  "Comment: Bob Stone <bob@y.org>" ++ String "010" (
  "mQENBF" ++ String "010"
  "-----END PGP PUBLIC KEY BLOCK-----")).

Definition ciphertext : string :=
  "-----BEGIN PGP MESSAGE-----wcBMA-----END PGP MESSAGE-----".

Definition alice : UserInfo.t :=
  UserInfo.make "A1B2" "Alice" "alice@x.com" armored 1 GUEST.

(** Sockets 1, 2 and 3 are connected (an entry of the set was deleted),
    socket 1 is registered as Alice, [send] throws at socket 2. *)
Definition room : World :=
  mkWorld [(1, alice)] [Some 1; Some 2; None; Some 3] [] [2] true
          1700000000000 (fun _ => "k3j9x0ab") 0 0.

(** A chat frame that carries a timestamp of its own. *)
Definition chatFrame : list (string * Value) :=
  [("type", VStr "message"); ("encryptedData", VStr ciphertext);
   ("timestamp", VNum "1")].

Definition registerFrame : list (string * Value) :=
  [("type", VStr "register"); ("publicKey", VStr armored)].

(** A key parser that rejects every key, and one that accepts every key
    with a given primary user id. *)
Definition rejectKey (armored : string) : option Key.t := None.

Definition keyOf (userId : string) (armored : string) : option Key.t :=
  Some (Key.make (Some (Some userId)) "a1b2").

(** A decoder that knows three texts: a [register] frame, a chat frame and
    [null]. *)
Definition decode (data : string) : option Value :=
  if data =? "register" then Some (VObj registerFrame)
  else if data =? "chat" then Some (VObj chatFrame)
  else if data =? "null" then Some VNull
  else None.

(** How the sample room comes about: four sockets connect, the third
    closes, socket 1 registers, socket 2 stops accepting sends. *)
Definition history : list Event :=
  [Upgrade 1; Upgrade 2; Upgrade 4; Upgrade 3; CloseEvent 4;
   MessageEvent 1 "register"; Dies 2].

End Sample.

(* ================================================================== *)
(** ** Vocabulary of the further properties *)
(* ================================================================== *)

(** [[0-9a-f]]. *)
Definition isLowerHex (c : ascii) : bool :=
  JS.code_in 48 57 c || JS.code_in 97 102 c.

(** A line the fallback scan looks into, line 404. *)
Definition mentionsUser (line : string) : bool :=
  JS.includes line "Comment:" || JS.includes line "Name:".

(** A line the fallback scan takes name and email from. *)
Definition namesUser (line : string) : bool :=
  mentionsUser line &&
  match Regex.matchLine line with
  | Some _ => true
  | None => false
  end.

(** An entry of the directory is sound for a key parser: it is filed under
    its own socket, its role is [GUEST], the key it keeps passes the
    structural check, and its id is the id of that key. *)
Definition entryOK (readKey : string -> option Key.t) (kv : WebSocket * UserInfo.t) : Prop :=
  UserInfo.webSocket (snd kv) = fst kv /\
  UserInfo.role (snd kv) = GUEST /\
  isValidPGPPublicKey (UserInfo.publicKey (snd kv)) = true /\
  UserInfo.id (snd kv) = credentialId readKey (UserInfo.publicKey (snd kv)).

(** An event whose payload decodes to a frame of type [register], and an
    event that hands over a socket. *)
Definition isRegisterEvent (JSON_parse : string -> option Value) (e : Event) : bool :=
  match e with
  | MessageEvent _ data =>
      match JSON_parse data with
      | Some message =>
          match getProp message "type" with
          | Some type => isType "register" type
          | None => false
          end
      | None => false
      end
  | _ => false
  end.

Definition isUpgrade (e : Event) : bool :=
  match e with
  | Upgrade _ => true
  | _ => false
  end.

(** The members of the session set of a world. *)
Definition members (w : World) : list WebSocket := live (sessions w).

(** A computation adds nothing to a part of the world, the entries of the
    directory or the members of the session set. *)
Definition AddsNone {X} (part : World -> list X) {A} (m : M A) : Prop :=
  forall w x, In x (part (snd (m w))) -> In x (part w).

(** A part of the world that reads the directory and the set only. *)
Definition ofRoom {X} (part : World -> list X) : Prop :=
  forall w w', users w' = users w -> sessions w' = sessions w -> part w' = part w.

(** More sample data: a room with two registered sockets whose ids differ,
    and the path of a room. *)
Section Repeat.

Variables (q : Regex.quant) (min : nat) (cls : ascii -> bool) (capture : bool).
Variable k : string -> list string -> option (list string).
Variable caps : list string.

(** The loop of a repetition in [Regex.match_here], as a function of what
    it has taken so far: [k] is the match of the rest of the pattern. *)
Fixpoint repeatFrom (s taken : string) {struct s} : option (list string) :=
  let stop (_ : unit) :=
    if Nat.leb min (String.length taken)
    then k s (if capture then (caps ++ [taken])%list else caps)
    else None in
  let more (_ : unit) :=
    match s with
    | String c s' =>
        if cls c then repeatFrom s' (taken ++ String c EmptyString) else None
    | EmptyString => None
    end in
  match q with
  | Regex.Greedy => match more tt with Some res => Some res | None => stop tt end
  | Regex.Lazy => match stop tt with Some res => Some res | None => more tt end
  end.

End Repeat.

(** Every character of a string is of a class. *)
Definition allOf (cls : ascii -> bool) (s : string) : bool :=
  forallb cls (list_ascii_of_string s).

Definition notLt (c : ascii) : bool := negb (Ascii.eqb c "<").

Module Sample2.

Definition bob : UserInfo.t :=
  UserInfo.make "C3D4" "Bob" "bob@y.org" Sample.armored 3 GUEST.

Definition room : World :=
  mkWorld [(1, Sample.alice); (3, bob)] [Some 1; Some 2; None; Some 3] [] [2] false
          1700000000000 (fun _ => "k3j9x0ab") 0 0.

(** Turn [i] of [generateRoomId] draws index [i] of the alphabet, up to
    61. *)
Definition indices (i : nat) : nat := i mod 62.

Definition roomId : string :=
  "ABCDEFGHIJKLMNOPQRSTUVWXYZabcdefghijklmnopqrstuvwxyz0123456789AB".

Definition join : Request.t :=
  Request.make "GET" ("/api/room/" ++ roomId ++ "/websocket") (Some "websocket").

End Sample2.

Example matchUserId_alice :
  Regex.matchUserId "Alice <alice@x.com>" = Some ("Alice", "alice@x.com").
Proof. reflexivity. Qed.

Example matchUserId_two_words :
  Regex.matchUserId "Alice B  <a@x>" = Some ("Alice B", "a@x").
Proof. reflexivity. Qed.

Example matchUserId_bare_email : Regex.matchUserId "alice@x.com" = None.
Proof. reflexivity. Qed.

Example matchLine_comment :
  Regex.matchLine "Comment: Bob Stone <bob@y.org> etc" = Some (" Bob Stone ", "bob@y.org").
Proof. reflexivity. Qed.

Example hash_abc : generateUserIdFromKey "abc" = "00017862".
Proof. reflexivity. Qed.

Example hash_empty : generateUserIdFromKey "" = "00000000".
Proof. reflexivity. Qed.

(** The hash of sixteen [z] is negative: its absolute value is printed. *)
Example hash_negative :
  hashFrom (JS.charCodes "zzzzzzzzzzzzzzzz") 0 = (-509494784)%Z /\
  generateUserIdFromKey "zzzzzzzzzzzzzzzz" = "1e5e4600".
Proof. split; reflexivity. Qed.

Example hash_as_specified : Spec.fallbackId "zzzzzzzzzzzzzzzz" = "1e5e4600".
Proof. reflexivity. Qed.

Example parseUserId_email_only : parseUserId " bob@y.org " = ("bob", "bob@y.org").
Proof. reflexivity. Qed.

Example parseUserId_name_only : parseUserId " Bob Stone " = ("Bob Stone", "").
Proof. reflexivity. Qed.

Example parseUserId_blank_name : parseUserId " <a@b>" = ("", "a@b").
Proof. reflexivity. Qed.

Example toStringJS_array :
  toStringJS (VArr [VNum "1"; VNull; VArr [VStr "a"; VStr "b"]; VObj []]) =
  Some "1,,a,b,[object Object]".
Proof. reflexivity. Qed.

Example toStringJS_throws : toStringJS (VObj [("toString", VNum "1")]) = None.
Proof. reflexivity. Qed.

(** The set keeps the slot of a deleted member and appends a new one. *)
Example set_delete_then_add :
  set_add 1 (set_delete 1 [Some 1; Some 2]) = [None; Some 2; Some 1].
Proof. reflexivity. Qed.

Example fallback_profile :
  fst (fallbackExtractUserProfile Sample.armored Sample.room) =
  Normal (UserProfile.make "1a2540f6" "Bob Stone" "bob@y.org").
Proof. reflexivity. Qed.

Example sample_room_reached :
  let w := run Sample.decode (Sample.keyOf "Alice <alice@x.com>") Sample.history
               (newRoom [] true 1700000000000 (fun _ => "k3j9x0ab")) in
  users w = users Sample.room /\ sessions w = sessions Sample.room /\
  dead w = dead Sample.room.
Proof. repeat split; reflexivity. Qed.

(** Socket 3 joins the sample room unregistered and sends a chat frame,
    then the bytes [{]: it alone is answered, each time with one error. *)
Example unregistered_sender_scenario :
  let w := run Sample.decode Sample.rejectKey
               [MessageEvent 3 "chat"; MessageEvent 3 "{"] Sample.room in
  calls w = [Sent 3 (error "User not registered"); Sent 3 (error "Invalid JSON format")] /\
  users w = users Sample.room /\ sessions w = sessions Sample.room.
Proof. repeat split; reflexivity. Qed.

(** Socket 1 of the sample room closes: the others are sent an empty
    roster, and socket 2, at which [send] throws, leaves the set. *)
Example disconnect_scenario :
  let w := run Sample.decode Sample.rejectKey [CloseEvent 1] Sample.room in
  calls w = [SendThrew 2 (userList []); Sent 3 (userList [])] /\
  users w = [] /\ sessions w = [None; None; None; Some 3].
Proof. repeat split; reflexivity. Qed.

Example trim_both : JS.trim "  a b  " = "a b".
Proof. reflexivity. Qed.

Example split_lines : JS.split "010" ("ab" ++ String "010" "cd") = ["ab"; "cd"].
Proof. reflexivity. Qed.

(* ================================================================== *)
(** ** Lists, sets and maps *)
(* ================================================================== *)

Lemma mem_In ws l : mem ws l = true <-> In ws l.
Proof.
  unfold mem. rewrite existsb_exists. split.
  - intros [x [Hx E]]. apply Nat.eqb_eq in E. now subst.
  - intros H. exists ws. split; [assumption | apply Nat.eqb_refl].
Qed.

Lemma distinct_NoDup {A} (eqb : A -> A -> bool) (l : list A) :
  (forall x y, eqb x y = true <-> x = y) ->
  distinct eqb l = true <-> NoDup l.
Proof.
  intros Heq. induction l as [|x rest IH]; simpl.
  - split; [constructor | reflexivity].
  - rewrite andb_true_iff, negb_true_iff, IH. split.
    + intros [Hx Hr]. constructor; [|assumption].
      intros Hin. assert (existsb (eqb x) rest = true) as E.
      { apply existsb_exists. exists x. split; [assumption | now apply Heq]. }
      congruence.
    + intros H. inversion H as [|? ? Hx Hr]; subst. split; [|assumption].
      destruct (existsb (eqb x) rest) eqn:E; [|reflexivity].
      apply existsb_exists in E. destruct E as [y [Hy Exy]].
      apply Heq in Exy. subst. contradiction.
Qed.

Lemma distinct_nat l : distinct Nat.eqb l = true <-> NoDup l.
Proof. apply distinct_NoDup. intros x y. apply Nat.eqb_eq. Qed.

Lemma distinct_string l : distinct String.eqb l = true <-> NoDup l.
Proof. apply distinct_NoDup. intros x y. apply String.eqb_eq. Qed.

Lemma live_app l1 l2 : live (l1 ++ l2) = (live l1 ++ live l2)%list.
Proof.
  induction l1 as [|[s|] l1 IH]; simpl; [reflexivity | now rewrite IH | assumption].
Qed.

Lemma set_delete_absent ws l : ~ In ws (live l) -> set_delete ws l = l.
Proof.
  induction l as [|[s|] l IH]; simpl; intros H.
  - reflexivity.
  - destruct (Nat.eqb s ws) eqn:E.
    + apply Nat.eqb_eq in E. subst. exfalso. apply H. now left.
    + f_equal. apply IH. intros Hin. apply H. now right.
  - f_equal. now apply IH.
Qed.

Lemma set_delete_app ws l1 l2 :
  set_delete ws (l1 ++ l2) = (set_delete ws l1 ++ set_delete ws l2)%list.
Proof. unfold set_delete. apply map_app. Qed.

Lemma live_heal dead l :
  live (heal dead l) = filter (fun s => negb (mem s dead)) (live l).
Proof.
  induction l as [|[s|] l IH]; simpl; [reflexivity | | assumption].
  destruct (mem s dead); simpl; [assumption | now rewrite IH].
Qed.

Lemma live_set_delete ws l :
  live (set_delete ws l) = filter (fun s => negb (Nat.eqb s ws)) (live l).
Proof.
  induction l as [|[s|] l IH]; simpl; [reflexivity | | assumption].
  destruct (Nat.eqb s ws); simpl; [assumption | now rewrite IH].
Qed.

Lemma withoutKeys_nil m : withoutKeys [] m = m.
Proof.
  unfold withoutKeys. induction m as [|kv m IH]; simpl; [reflexivity|].
  f_equal. exact IH.
Qed.

Lemma withoutKeys_cons ws keys m :
  withoutKeys keys (map_delete ws m) = withoutKeys (ws :: keys) m.
Proof.
  unfold withoutKeys, map_delete. induction m as [|[k v] m IH]; simpl; [reflexivity|].
  rewrite (Nat.eqb_sym k ws).
  destruct (Nat.eqb ws k); simpl; [assumption | now rewrite IH].
Qed.

Lemma NoDup_filter {A} (f : A -> bool) (l : list A) : NoDup l -> NoDup (filter f l).
Proof.
  induction 1 as [|x l Hx Hl IH]; simpl; [constructor|].
  destruct (f x); [|assumption].
  constructor; [|assumption]. intros Hin. apply filter_In in Hin. tauto.
Qed.

Lemma callsAt_attempts w text s targets :
  NoDup targets -> In s targets ->
  callsAt s (List.map (attempt w text) targets) = [attempt w text s].
Proof.
  assert (Htarget : forall t, target (attempt w text t) = t).
  { intros t. unfold attempt. now destruct (mem t (dead w)). }
  assert (Hout : forall l, ~ In s l -> callsAt s (List.map (attempt w text) l) = []).
  { induction l as [|t l IH]; simpl; intros Hn; [reflexivity|].
    rewrite Htarget. destruct (Nat.eqb t s) eqn:E.
    - apply Nat.eqb_eq in E. subst. exfalso. apply Hn. now left.
    - apply IH. intros Hin. apply Hn. now right. }
  induction 1 as [|t l Ht Hl IH]; simpl; intros Hin; [contradiction|].
  rewrite Htarget. destruct Hin as [-> | Hin].
  - rewrite Nat.eqb_refl. f_equal. now apply Hout.
  - destruct (Nat.eqb t s) eqn:E.
    + apply Nat.eqb_eq in E. subst. contradiction.
    + now apply IH.
Qed.

(* ================================================================== *)
(** ** [sendError] and [broadcast] *)
(* ================================================================== *)

(** Two worlds built by the setters are equal when their fields are. *)
Ltac same_world :=
  unfold replied, broadcasted, with_users, with_sessions, with_calls, with_dead,
    with_clock, with_draws, with_stringified, attempt;
  simpl; try reflexivity.

Lemma sendError_replied ws message w :
  sendError ws message w = (Normal tt, replied w ws (error message)).
Proof.
  unfold sendError, try_catch, bind, JSON_stringify, ws_send, replied, attempt, ret.
  simpl. now destruct (mem ws (dead w)).
Qed.

(** The loop of [broadcast], with the entries before the iterator ([done])
    and from it on ([todo]): it returns, it calls [send] once at each member
    of [todo], and it deletes the members [send] threw at. *)
Lemma broadcastFrom_todo text todo :
  forall done fuel w,
    sessions w = (done ++ todo)%list ->
    List.length todo <= fuel ->
    NoDup (live (done ++ todo)) ->
    broadcastFrom fuel (List.length done) text w =
    (Normal tt,
     with_users (withoutKeys (failing (dead w) (live todo)) (users w))
       (with_sessions (done ++ heal (dead w) todo)%list
          (with_calls (calls w ++ List.map (attempt w text) (live todo))%list w))).
Proof.
  induction todo as [|e todo IH]; intros done fuel w Hs Hfuel Hnd.
  - assert (Hdone : (Normal tt, w) =
      (Normal tt,
       with_users (withoutKeys (failing (dead w) (live [])) (users w))
         (with_sessions (done ++ heal (dead w) [])%list
            (with_calls (calls w ++ List.map (attempt w text) (live []))%list w)))).
    { simpl. rewrite withoutKeys_nil, !app_nil_r. rewrite app_nil_r in Hs.
      destruct w; simpl in *; subst; reflexivity. }
    destruct fuel as [|fuel]; simpl broadcastFrom; [exact Hdone|].
    rewrite Hs, app_nil_r.
    rewrite (proj2 (nth_error_None done (List.length done)) (Nat.le_refl _)).
    exact Hdone.
  - destruct fuel as [|fuel]; [simpl in Hfuel; lia|].
    simpl in Hfuel. simpl broadcastFrom.
    rewrite Hs, nth_error_app2, Nat.sub_diag by apply Nat.le_refl. simpl nth_error.
    assert (Hlen : forall x, S (List.length done) = List.length (done ++ [x])%list).
    { intros x. rewrite length_app. simpl. lia. }
    destruct e as [s|].
    + rewrite live_app in Hnd. simpl in Hnd.
      assert (Hs_done : ~ In s (live done)).
      { intros Hin. apply NoDup_remove_2 in Hnd. apply Hnd. apply in_or_app. now left. }
      assert (Hs_todo : ~ In s (live todo)).
      { intros Hin. apply NoDup_remove_2 in Hnd. apply Hnd. apply in_or_app. now right. }
      unfold bind at 1, try_catch, ws_send.
      destruct (mem s (dead w)) eqn:Hdead.
      * unfold bind, sessions_delete, users_delete. simpl.
        rewrite (Hlen None).
        rewrite (IH (done ++ [None])%list).
        -- simpl. f_equal. unfold failing. simpl. rewrite Hdead.
           rewrite withoutKeys_cons, <- !app_assoc. simpl.
           same_world.
        -- simpl. rewrite Hs, set_delete_app. simpl. rewrite Nat.eqb_refl.
           rewrite !set_delete_absent by assumption.
           now rewrite <- app_assoc.
        -- lia.
        -- rewrite <- app_assoc, live_app. simpl.
           apply NoDup_remove_1 in Hnd. exact Hnd.
      * rewrite (Hlen (Some s)).
        rewrite (IH (done ++ [Some s])%list).
        -- simpl. f_equal. unfold failing. simpl. rewrite Hdead.
           rewrite <- !app_assoc. simpl.
           same_world.
        -- simpl. now rewrite <- app_assoc.
        -- lia.
        -- rewrite <- app_assoc, live_app. simpl. exact Hnd.
    + rewrite (Hlen None). rewrite (IH (done ++ [None])%list).
      * simpl. now rewrite <- !app_assoc.
      * now rewrite <- app_assoc.
      * lia.
      * now rewrite <- app_assoc.
Qed.

Lemma broadcast_broadcasted message w :
  NoDup (live (sessions w)) ->
  broadcast message w =
  (Normal tt, broadcasted message (with_stringified (S (stringified w)) w)).
Proof.
  intros Hnd. unfold broadcast, bind, JSON_stringify.
  exact (broadcastFrom_todo message (sessions w) [] (List.length (sessions w))
           (with_stringified (S (stringified w)) w) eq_refl (Nat.le_refl _) Hnd).
Qed.

(** The loop returns whatever the fuel and the set: every path of its body
    ends normally. *)
Lemma broadcastFrom_returns fuel :
  forall i text w, fst (broadcastFrom fuel i text w) = Normal tt.
Proof.
  induction fuel as [|fuel IH]; intros i text w; simpl; [reflexivity|].
  destruct (nth_error (sessions w) i) as [[s|]|]; [| apply IH | reflexivity].
  unfold bind, try_catch, ws_send, sessions_delete, users_delete.
  destruct (mem s (dead w)); simpl; apply IH.
Qed.

(** The fuel [broadcast] gives the loop is enough for the iterator to run
    off the end of the set: more fuel changes nothing. *)
Lemma broadcastFrom_enough_fuel fuel :
  forall extra i text w,
    List.length (sessions w) - i <= fuel ->
    broadcastFrom (fuel + extra) i text w = broadcastFrom fuel i text w.
Proof.
  induction fuel as [|fuel IH]; intros extra i text w Hfuel.
  - assert (Hend : nth_error (sessions w) i = None) by (apply nth_error_None; lia).
    destruct extra; simpl; [reflexivity | now rewrite Hend].
  - simpl. destruct (nth_error (sessions w) i) as [[s|]|] eqn:E; [| |reflexivity].
    + assert (Hi : i < List.length (sessions w)).
      { apply nth_error_Some. congruence. }
      unfold bind, try_catch, ws_send, sessions_delete, users_delete.
      destruct (mem s (dead w)); simpl; apply IH; simpl;
        unfold set_delete; rewrite ?length_map; lia.
    + assert (Hi : i < List.length (sessions w)).
      { apply nth_error_Some. congruence. }
      apply IH. lia.
Qed.

Lemma broadcast_returns message w : fst (broadcast message w) = Normal tt.
Proof. unfold broadcast, bind, JSON_stringify. apply broadcastFrom_returns. Qed.

Lemma wellFormed_sessions w : wellFormed w = true -> NoDup (live (sessions w)).
Proof.
  unfold wellFormed. rewrite !andb_true_iff. intros [[[H _] _] _].
  now apply distinct_nat.
Qed.

Lemma map_get_withoutKeys ws keys m :
  map_get ws (withoutKeys keys m) = if mem ws keys then None else map_get ws m.
Proof.
  unfold withoutKeys. induction m as [|[k v] m IH]; simpl.
  - now destruct (mem ws keys).
  - destruct (mem k keys) eqn:Hk; simpl.
    + rewrite IH. destruct (Nat.eqb k ws) eqn:E; [|reflexivity].
      apply Nat.eqb_eq in E. subst. now rewrite Hk.
    + destruct (Nat.eqb k ws) eqn:E; [|exact IH].
      apply Nat.eqb_eq in E. subst. now rewrite Hk.
Qed.

(* ================================================================== *)
(** ** The broadcast pass *)
(* ================================================================== *)

(** C5.  A broadcast pass over a room whose set holds each socket once
    returns; it serializes the frame once; it calls [send] with that text at
    every member of the set as it was at the start, once each and in
    insertion order, and at no other socket; a member at which [send] throws
    is deleted from the set and from the directory, and no other member or
    entry is. *)
Theorem broadcast_visits_each_once message w :
  wellFormed w = true ->
  let targets := live (sessions w) in
  let sends := List.map (attempt w message) targets in
  exists w',
    broadcast message w = (Normal tt, w') /\
    stringified w' = S (stringified w) /\
    calls w' = (calls w ++ sends)%list /\
    (forall s, In s targets -> callsAt s sends = [attempt w message s]) /\
    (forall s, ~ In s targets -> callsAt s sends = []) /\
    live (sessions w') = filter (fun s => negb (mem s (dead w))) targets /\
    (forall s, map_get s (users w') =
               if mem s (dead w) && mem s targets then None else map_get s (users w)).
Proof.
  intros Hwf targets sends.
  pose proof (wellFormed_sessions w Hwf) as Hnd.
  exists (broadcasted message (with_stringified (S (stringified w)) w)).
  split; [now apply broadcast_broadcasted|].
  split; [reflexivity|]. split; [reflexivity|].
  split; [intros s Hs; now apply callsAt_attempts|].
  split.
  { intros s Hs. unfold sends, callsAt. clearbody targets.
    induction targets as [|t l IH]; simpl; [reflexivity|].
    assert (Ht : target (attempt w message t) = t).
    { unfold attempt. now destruct (mem t (dead w)). }
    rewrite Ht. destruct (Nat.eqb t s) eqn:E.
    - apply Nat.eqb_eq in E. subst. exfalso. apply Hs. now left.
    - apply IH. intros Hin. apply Hs. now right. }
  split; [apply live_heal|].
  intros s. simpl. rewrite map_get_withoutKeys. fold targets.
  assert (Hmem : mem s (failing (dead w) targets) = mem s (dead w) && mem s targets).
  { destruct (mem s (failing (dead w) targets)) eqn:E.
    - apply mem_In in E. unfold failing in E. apply filter_In in E.
      destruct E as [Ht Hd]. rewrite Hd. symmetry. now apply mem_In.
    - destruct (mem s (dead w)) eqn:Hd; [|reflexivity].
      destruct (mem s targets) eqn:Ht; [|reflexivity].
      apply mem_In in Ht. assert (In s (failing (dead w) targets)) as Hin.
      { unfold failing. apply filter_In. now split. }
      apply mem_In in Hin. congruence. }
  now rewrite Hmem.
Qed.

Lemma broadcast_visits_each_once_witness :
  wellFormed Sample.room = true /\
  exists w',
    broadcast (error "ping") Sample.room = (Normal tt, w') /\
    stringified w' = 1 /\
    calls w' = [Sent 1 (error "ping"); SendThrew 2 (error "ping"); Sent 3 (error "ping")] /\
    live (sessions w') = [1; 3].
Proof.
  split; [reflexivity|].
  destruct (broadcast_visits_each_once (error "ping") Sample.room eq_refl)
    as [w' [Hrun [Hser [Hcalls [_ [_ [Hlive _]]]]]]].
  exists w'. repeat split; assumption.
Defined.

(* ================================================================== *)
(** ** Chat messages *)
(* ================================================================== *)

Lemma valid_message_not_empty data : isValidPGPMessage data = true -> (data =? "") = false.
Proof. destruct data; [discriminate | reflexivity]. Qed.

(** [handleChatMessage] on an object, as one case analysis. *)
Lemma handleChatMessage_cases ws fields w :
  handleChatMessage ws (VObj fields) w =
  match map_get ws (users w) with
  | None => sendError ws "User not registered" w
  | Some sender =>
      let data := lookup "encryptedData" fields in
      if negb (truthy data) || negb (isString data)
      then sendError ws "Invalid encrypted data format" w
      else match data with
           | VStr text =>
               if negb (isValidPGPMessage text)
               then sendError ws "Invalid PGP message format" w
               else broadcast (encryptedMessage (UserInfo.id sender) text (clock w)) w
           | _ => (Normal tt, w)
           end
  end.
Proof.
  unfold handleChatMessage, bind, users_get, orThrow, ret, Date_now. simpl.
  destruct (map_get ws (users w)) as [sender|]; [|reflexivity].
  destruct (lookup "encryptedData" fields) as [| |b|n|text|l|o]; simpl;
    rewrite ?orb_true_r; try reflexivity.
  destruct (text =? ""); simpl; [reflexivity|].
  destruct (isValidPGPMessage text); reflexivity.
Qed.

Lemma handleMessage_message readKey ws fields w :
  lookup "type" fields = VStr "message" ->
  handleMessage readKey ws (VObj fields) w = handleChatMessage ws (VObj fields) w.
Proof.
  intros Htype. unfold handleMessage, bind at 1. simpl. rewrite Htype. reflexivity.
Qed.

(** C1.  A [message] frame from a socket with an entry in the directory,
    whose [encryptedData] is a string with both PGP-message markers, makes
    the room call [send] once at every member of the session set, the
    sender among them when it is a member, with one [encryptedMessage]
    frame: [senderId] is the id of the sender's entry, [encryptedData] is
    the string received, [timestamp] is the clock of the room, whatever the
    fields of the inbound frame.  A member whose [send] does not throw is
    sent the frame once. *)
Theorem message_relayed_to_every_session readKey ws fields sender data w :
  wellFormed w = true ->
  lookup "type" fields = VStr "message" ->
  map_get ws (users w) = Some sender ->
  lookup "encryptedData" fields = VStr data ->
  isValidPGPMessage data = true ->
  let frame := encryptedMessage (UserInfo.id sender) data (clock w) in
  let targets := live (sessions w) in
  exists w',
    handleMessage readKey ws (VObj fields) w = (Normal tt, w') /\
    calls w' = (calls w ++ List.map (attempt w frame) targets)%list /\
    (forall s, In s targets ->
               callsAt s (List.map (attempt w frame) targets) = [attempt w frame s]) /\
    (forall s, In s targets -> mem s (dead w) = false ->
               callsAt s (List.map (attempt w frame) targets) = [Sent s frame]).
Proof.
  intros Hwf Htype Hsender Hdata Hvalid frame targets.
  pose proof (wellFormed_sessions w Hwf) as Hnd.
  exists (broadcasted frame (with_stringified (S (stringified w)) w)).
  split; [|split; [reflexivity | split; [intros s Hs; now apply callsAt_attempts|]]].
  2:{ intros s Hs Halive. rewrite (callsAt_attempts w frame s targets Hnd Hs).
      unfold attempt. now rewrite Halive. }
  rewrite handleMessage_message, handleChatMessage_cases by assumption.
  rewrite Hsender, Hdata. simpl.
  rewrite (valid_message_not_empty data Hvalid), Hvalid. simpl.
  now apply broadcast_broadcasted.
Qed.

Lemma message_relayed_to_every_session_witness :
  wellFormed Sample.room = true /\
  exists w',
    handleMessage Sample.rejectKey 1 (VObj Sample.chatFrame) Sample.room = (Normal tt, w') /\
    calls w' =
      [Sent 1 (encryptedMessage "A1B2" Sample.ciphertext 1700000000000);
       SendThrew 2 (encryptedMessage "A1B2" Sample.ciphertext 1700000000000);
       Sent 3 (encryptedMessage "A1B2" Sample.ciphertext 1700000000000)].
Proof.
  split; [reflexivity|].
  destruct (message_relayed_to_every_session Sample.rejectKey 1 Sample.chatFrame
              Sample.alice Sample.ciphertext Sample.room
              eq_refl eq_refl eq_refl eq_refl eq_refl)
    as [w' [Hrun [Hcalls _]]].
  exists w'. split; assumption.
Defined.

(** C4.  A [message] frame that fails a precondition is answered by one
    [error] frame sent at the sender and nothing else: no other call on a
    socket, the directory and the session set as they were.  The
    preconditions are tried in order: an entry for the sender, a non-empty
    string [encryptedData], both PGP-message markers in it. *)
Theorem message_rejected_with_one_error readKey ws fields w :
  lookup "type" fields = VStr "message" ->
  let data := lookup "encryptedData" fields in
  let answer := handleMessage readKey ws (VObj fields) w in
  (map_get ws (users w) = None ->
     answer = (Normal tt, replied w ws (error "User not registered"))) /\
  (map_get ws (users w) <> None ->
   data = VUndefined \/ data = VStr "" \/ isString data = false ->
     answer = (Normal tt, replied w ws (error "Invalid encrypted data format"))) /\
  (map_get ws (users w) <> None ->
   forall text, data = VStr text -> text <> "" ->
   JS.includes text "-----BEGIN PGP MESSAGE-----" = false \/
   JS.includes text "-----END PGP MESSAGE-----" = false ->
     answer = (Normal tt, replied w ws (error "Invalid PGP message format"))).
Proof.
  intros Htype data answer. unfold answer.
  rewrite handleMessage_message, handleChatMessage_cases by assumption.
  fold data. split; [|split].
  - intros Hnone. rewrite Hnone. apply sendError_replied.
  - intros Hsome Hdata. destruct (map_get ws (users w)) as [sender|]; [|congruence].
    assert (Hbad : negb (truthy data) || negb (isString data) = true).
    { destruct Hdata as [-> | [-> | Hd]]; [reflexivity | reflexivity |].
      rewrite Hd. apply orb_true_r. }
    simpl. rewrite Hbad. apply sendError_replied.
  - intros Hsome text Hdata Htext Hmarker.
    destruct (map_get ws (users w)) as [sender|]; [|congruence].
    simpl. rewrite Hdata. simpl.
    apply String.eqb_neq in Htext. rewrite Htext. simpl.
    assert (Hinvalid : isValidPGPMessage text = false).
    { unfold isValidPGPMessage. destruct Hmarker as [-> | ->];
        [reflexivity | apply andb_false_r]. }
    rewrite Hinvalid. apply sendError_replied.
Qed.

Lemma message_rejected_with_one_error_witness :
  handleMessage Sample.rejectKey 3 (VObj Sample.chatFrame) Sample.room =
    (Normal tt, replied Sample.room 3 (error "User not registered")) /\
  handleMessage Sample.rejectKey 1
      (VObj [("type", VStr "message"); ("encryptedData", VNum "7")]) Sample.room =
    (Normal tt, replied Sample.room 1 (error "Invalid encrypted data format")) /\
  handleMessage Sample.rejectKey 1
      (VObj [("type", VStr "message"); ("encryptedData", VStr "hello")]) Sample.room =
    (Normal tt, replied Sample.room 1 (error "Invalid PGP message format")).
Proof.
  split; [|split].
  - apply (message_rejected_with_one_error Sample.rejectKey 3 Sample.chatFrame
             Sample.room eq_refl).
    reflexivity.
  - apply (message_rejected_with_one_error Sample.rejectKey 1
             [("type", VStr "message"); ("encryptedData", VNum "7")] Sample.room eq_refl).
    + discriminate.
    + right. right. reflexivity.
  - apply (message_rejected_with_one_error Sample.rejectKey 1
             [("type", VStr "message"); ("encryptedData", VStr "hello")] Sample.room eq_refl)
      with (text := "hello").
    + discriminate.
    + reflexivity.
    + discriminate.
    + left. reflexivity.
Defined.

(* ================================================================== *)
(** ** Identity extraction *)
(* ================================================================== *)

Lemma ToInt32_truncate32 x : ToInt32 x = Spec.truncate32 x.
Proof.
  unfold ToInt32, Spec.truncate32.
  destruct (Z.ltb_spec (x mod 2 ^ 32) (2 ^ 31)) as [H|H];
    change (2 ^ 32)%Z with 4294967296%Z in *; change (2 ^ 31)%Z with 2147483648%Z in *;
    Z.div_mod_to_equations; lia.
Qed.

Lemma ToInt32_multiple x : exists k, ToInt32 x = (x + k * 2 ^ 32)%Z.
Proof.
  exists (- ((x + 2 ^ 31) / 2 ^ 32))%Z. unfold ToInt32.
  change (2 ^ 32)%Z with 4294967296%Z in *; change (2 ^ 31)%Z with 2147483648%Z in *.
  Z.div_mod_to_equations; lia.
Qed.

Lemma ToInt32_add_multiple x k : ToInt32 (x + k * 2 ^ 32) = ToInt32 x.
Proof.
  unfold ToInt32.
  replace (x + k * 2 ^ 32 + 2 ^ 31)%Z with (x + 2 ^ 31 + k * 2 ^ 32)%Z by ring.
  now rewrite Z_mod_plus_full.
Qed.

Lemma ToInt32_idempotent x : ToInt32 (ToInt32 x) = ToInt32 x.
Proof.
  destruct (ToInt32_multiple x) as [k Hk]. rewrite Hk at 1.
  apply ToInt32_add_multiple.
Qed.

(** One turn of the loop of [generateUserIdFromKey] is one step of the
    rolling hash. *)
Lemma hash_step hash char :
  band (shl hash 5 - hash + char) (shl hash 5 - hash + char) =
  Spec.truncate32 (hash * 31 + char).
Proof.
  unfold band. rewrite Z.land_diag, ToInt32_idempotent.
  rewrite <- ToInt32_truncate32. unfold shl.
  rewrite Z.shiftl_mul_pow2 by lia.
  destruct (ToInt32_multiple hash) as [k Hk]. rewrite Hk.
  destruct (ToInt32_multiple ((hash + k * 2 ^ 32) * 2 ^ 5)) as [j Hj]. rewrite Hj.
  replace ((hash + k * 2 ^ 32) * 2 ^ 5 + j * 2 ^ 32 - hash + char)%Z
    with (hash * 31 + char + (32 * k + j) * 2 ^ 32)%Z by ring.
  apply ToInt32_add_multiple.
Qed.

Lemma hashFrom_rolling codes :
  forall hash, hashFrom codes hash = Spec.rolling codes hash.
Proof.
  induction codes as [|c rest IH]; intros hash; simpl; [reflexivity|].
  now rewrite hash_step, IH.
Qed.

(* ================================================================== *)
(** ** [toString(16)] and [padStart] *)
(* ================================================================== *)

Module HexFacts.
Import Hexadecimal HexDigits.

Ltac digit_cases v :=
  unfold digit, Spec.hexChar;
  assert (Hlt : (v mod 16 < 16)%N) by (apply N.mod_lt; discriminate);
  destruct (v mod 16)%N as [|p]; [|do 4 (try destruct p as [p|p|])]; try lia.

Lemma of_lu_digit v d :
  HexadecimalPos.Unsigned.of_lu (digit v d) =
  (v mod 16 + 16 * HexadecimalPos.Unsigned.of_lu d)%N.
Proof. digit_cases v; cbn [HexadecimalPos.Unsigned.of_lu]; lia. Qed.

Lemma of_lu_littleEndian k : forall n,
  HexadecimalPos.Unsigned.of_lu (littleEndian k n) = (n mod 16 ^ N.of_nat k)%N.
Proof.
  induction k as [|k IH]; intros n.
  - simpl. now rewrite N.mod_1_r.
  - cbn [littleEndian]. rewrite of_lu_digit, IH, Nat2N.inj_succ, N.pow_succ_r'.
    rewrite N.Div0.mod_mul_r. reflexivity.
Qed.

Lemma string_of_digit v d :
  HexadecimalString.NilEmpty.string_of_uint (digit v d) =
  String (Spec.hexChar v) (HexadecimalString.NilEmpty.string_of_uint d).
Proof. digit_cases v; reflexivity. Qed.

Lemma nb_digits_digit v d : nb_digits (digit v d) = S (nb_digits d).
Proof. digit_cases v; reflexivity. Qed.

Lemma nb_digits_littleEndian k : forall n, nb_digits (littleEndian k n) = k.
Proof.
  induction k as [|k IH]; intros n; [reflexivity|].
  cbn [littleEndian]. now rewrite nb_digits_digit, IH.
Qed.

Lemma length_string_of_uint d :
  String.length (HexadecimalString.NilEmpty.string_of_uint d) = nb_digits d.
Proof. induction d; simpl; congruence. Qed.

Lemma string_of_iter_D0 k d :
  HexadecimalString.NilEmpty.string_of_uint (Nat.iter k D0 d) =
  repeatChar k "0" ++ HexadecimalString.NilEmpty.string_of_uint d.
Proof. induction k as [|k IH]; simpl; [reflexivity | now rewrite IH]. Qed.

Lemma revapp_digit v d acc : revapp (digit v d) acc = revapp d (digit v acc).
Proof. digit_cases v; reflexivity. Qed.

Lemma append_assoc_string (a b c : string) : (a ++ b) ++ c = a ++ (b ++ c).
Proof. induction a; simpl; congruence. Qed.

Lemma append_empty s : s ++ "" = s.
Proof. induction s; simpl; congruence. Qed.

Lemma string_of_revapp_littleEndian k : forall n acc,
  HexadecimalString.NilEmpty.string_of_uint (revapp (littleEndian k n) acc) =
  Spec.hexDigits k n ++ HexadecimalString.NilEmpty.string_of_uint acc.
Proof.
  induction k as [|k IH]; intros n acc; [reflexivity|].
  cbn [littleEndian Spec.hexDigits].
  rewrite revapp_digit, IH, string_of_digit, append_assoc_string. reflexivity.
Qed.

(** [toString(16)] padded to [k] characters is the [k] low digits of a
    number below [16^k]. *)
Lemma padStart_toString16 k n :
  0 < k -> (n < 16 ^ N.of_nat k)%N ->
  padStart k "0" (HexadecimalString.NilZero.string_of_uint (N.to_hex_uint n)) =
  Spec.hexDigits k n.
Proof.
  intros Hk Hn.
  set (b := rev (littleEndian k n)).
  assert (Hb : N.of_hex_uint b = n).
  { unfold N.of_hex_uint, b.
    rewrite HexadecimalPos.Unsigned.of_lu_rev, of_lu_littleEndian.
    now apply N.mod_small. }
  assert (Hdigits : nb_digits b = k).
  { unfold b. now rewrite HexadecimalFacts.nb_digits_rev, nb_digits_littleEndian. }
  assert (Hnil : b <> Nil).
  { intros E. rewrite E in Hdigits. simpl in Hdigits. lia. }
  rewrite <- Hb at 1. rewrite HexadecimalN.Unsigned.to_of.
  assert (Hsame : HexadecimalString.NilZero.string_of_uint (unorm b) =
                  HexadecimalString.NilEmpty.string_of_uint (unorm b)).
  { pose proof (HexadecimalFacts.unorm_nonnil b) as Hu.
    now destruct (unorm b). }
  rewrite Hsame. unfold padStart.
  rewrite length_string_of_uint, <- Hdigits at 1.
  rewrite <- string_of_iter_D0, (HexadecimalFacts.iter_D0_unorm b Hnil).
  unfold b, rev. rewrite string_of_revapp_littleEndian. apply append_empty.
Qed.

End HexFacts.

Lemma truncate32_range z :
  (- 2 ^ 31 <= Spec.truncate32 z < 2 ^ 31)%Z.
Proof.
  unfold Spec.truncate32.
  destruct (Z.ltb_spec (z mod 2 ^ 32) (2 ^ 31)) as [H|H];
    change (2 ^ 32)%Z with 4294967296%Z in *; change (2 ^ 31)%Z with 2147483648%Z in *;
    pose proof (Z.mod_pos_bound z 4294967296 ltac:(lia)); lia.
Qed.

Lemma rolling_range codes :
  forall h, (- 2 ^ 31 <= h < 2 ^ 31)%Z ->
            (- 2 ^ 31 <= Spec.rolling codes h < 2 ^ 31)%Z.
Proof.
  induction codes as [|c rest IH]; intros h Hh; simpl; [exact Hh|].
  apply IH. apply truncate32_range.
Qed.

Lemma generateUserIdFromKey_spec armored :
  generateUserIdFromKey armored = Spec.fallbackId armored.
Proof.
  unfold generateUserIdFromKey, Spec.fallbackId, toString16.
  rewrite hashFrom_rolling.
  apply HexFacts.padStart_toString16; [lia|].
  pose proof (rolling_range (JS.charCodes armored) 0%Z ltac:(lia)) as Hr.
  change (16 ^ N.of_nat 8)%N with 4294967296%N.
  change (2 ^ 31)%Z with 2147483648%Z in Hr. lia.
Qed.

Lemma fallbackExtractUserProfile_cases armored w :
  fallbackExtractUserProfile armored w =
  let name := "User_" ++ random w (draws w) in
  let found := scanLines (JS.split "010" armored) name
                         (JS.toLowerCase name ++ "@example.com") in
  (Normal (UserProfile.make (generateUserIdFromKey armored) (fst found) (snd found)),
   with_draws (S (draws w)) w).
Proof.
  unfold fallbackExtractUserProfile, bind, Math_random_suffix, ret. simpl.
  now destruct (scanLines _ _ _).
Qed.

Lemma extractUserProfile_cases readKey armored w :
  extractUserProfile readKey armored w =
  match readKey armored with
  | None => fallbackExtractUserProfile armored w
  | Some key =>
      match Key.getPrimaryUser key with
      | None => fallbackExtractUserProfile armored w
      | Some userID =>
          let found :=
            match userID with
            | Some userIdString => parseUserId userIdString
            | None => (EmptyString, EmptyString)
            end in
          let profile := withDefaults found (random w (draws w)) in
          (Normal (UserProfile.make (JS.toUpperCase (Key.getFingerprint key))
                                    (fst profile) (snd profile)),
           if JS.falsy (fst found) then with_draws (S (draws w)) w else w)
      end
  end.
Proof.
  unfold extractUserProfile, try_catch, bind at 1, orThrow.
  destruct (readKey armored) as [key|]; simpl; [|reflexivity].
  unfold bind at 1. destruct (Key.getPrimaryUser key) as [userID|]; simpl; [|reflexivity].
  unfold withDefaults.
  destruct (match userID with Some s => parseUserId s | None => (EmptyString, EmptyString) end)
    as [name email].
  unfold bind, Math_random_suffix, ret. simpl.
  destruct (JS.falsy name); reflexivity.
Qed.

Lemma extractUserProfile_returns readKey armored w :
  exists profile w', extractUserProfile readKey armored w = (Normal profile, w').
Proof.
  rewrite extractUserProfile_cases.
  destruct (readKey armored) as [key|];
    [destruct (Key.getPrimaryUser key) as [userID|]|];
    try rewrite fallbackExtractUserProfile_cases; eexists; eexists; reflexivity.
Qed.

(** C7.  [extractUserProfile] returns a profile on every armored text, in
    every world and with every key parser: it never throws.  So does
    [fallbackExtractUserProfile].  When the parser rejects the key, or the
    primary user cannot be read, the result is that of the fallback. *)
Theorem extractUserProfile_never_throws readKey armored w :
  (exists profile w', extractUserProfile readKey armored w = (Normal profile, w')) /\
  (exists profile w', fallbackExtractUserProfile armored w = (Normal profile, w')) /\
  match readKey armored with
  | Some key =>
      match Key.getPrimaryUser key with
      | Some _ => True
      | None => extractUserProfile readKey armored w = fallbackExtractUserProfile armored w
      end
  | None => extractUserProfile readKey armored w = fallbackExtractUserProfile armored w
  end.
Proof.
  assert (Hfallback : exists profile w',
             fallbackExtractUserProfile armored w = (Normal profile, w')).
  { rewrite fallbackExtractUserProfile_cases. eexists. eexists. reflexivity. }
  rewrite extractUserProfile_cases.
  destruct (readKey armored) as [key|]; [|now repeat split].
  destruct (Key.getPrimaryUser key) as [userID|]; [|now repeat split].
  split; [|now split]. eexists. eexists. reflexivity.
Qed.

(** C9.  The loop of [generateUserIdFromKey] computes the rolling hash of
    the specification on every sequence of code units, and [toString(16)]
    with [padStart(8, '0')] prints the eight hexadecimal digits of its
    absolute value, so the fallback id is the weak hash as specified; and
    the id of a profile is
    [credentialId] of the armored text alone: it does not depend on the
    world the extraction runs in, and no socket enters it. *)
Theorem id_is_function_of_credential readKey armored :
  (forall codes hash, hashFrom codes hash = Spec.rolling codes hash) /\
  generateUserIdFromKey armored = Spec.fallbackId armored /\
  forall w, exists profile w',
    extractUserProfile readKey armored w = (Normal profile, w') /\
    UserProfile.id profile = credentialId readKey armored.
Proof.
  split; [intros codes hash; apply hashFrom_rolling|]. split.
  - apply generateUserIdFromKey_spec.
  - intros w. rewrite extractUserProfile_cases. unfold credentialId.
    destruct (readKey armored) as [key|];
      [destruct (Key.getPrimaryUser key) as [userID|]|];
      try (rewrite fallbackExtractUserProfile_cases);
      eexists; eexists; (split; [reflexivity|]); reflexivity.
Qed.

(* ================================================================== *)
(** ** The representation invariant *)
(* ================================================================== *)

Lemma wellFormed_iff w :
  wellFormed w = true <-> NoDup (live (sessions w)) /\ UsersOK (users w).
Proof.
  unfold wellFormed, UsersOK.
  rewrite !andb_true_iff, !distinct_nat, distinct_string, forallb_forall.
  split.
  - intros [[[Hs Hk] Hf] Hi]. repeat split; try assumption.
    intros k v Hin. apply Nat.eqb_eq. exact (Hf (k, v) Hin).
  - intros [Hs [Hk [Hf Hi]]]. repeat split; try assumption.
    intros [k v] Hin. apply Nat.eqb_eq. now apply Hf.
Qed.

Lemma NoDup_map_filter {A B} (g : A -> B) (f : A -> bool) (l : list A) :
  NoDup (List.map g l) -> NoDup (List.map g (filter f l)).
Proof.
  induction l as [|x l IH]; simpl; intros H; [constructor|].
  inversion H as [|? ? Hx Hl]; subst.
  destruct (f x); simpl; [|now apply IH].
  constructor; [|now apply IH].
  intros Hin. apply Hx. apply in_map_iff in Hin. destruct Hin as [y [Hy Hin]].
  apply in_map_iff. exists y. split; [assumption|]. apply filter_In in Hin. tauto.
Qed.

Lemma UsersOK_filter f m : UsersOK m -> UsersOK (filter f m).
Proof.
  intros [Hk [Hf Hi]]. repeat split.
  - now apply NoDup_map_filter.
  - intros k v Hin. apply filter_In in Hin. apply Hf. tauto.
  - unfold userIds. now apply NoDup_map_filter.
Qed.

Lemma NoDup_map_same {A B} (g : A -> B) (l : list A) a b :
  NoDup (List.map g l) -> In a l -> In b l -> g a = g b -> a = b.
Proof.
  induction l as [|x l IH]; simpl; intros H Ha Hb E; [contradiction|].
  inversion H as [|? ? Hx Hl]; subst.
  destruct Ha as [-> | Ha]; destruct Hb as [-> | Hb].
  - reflexivity.
  - exfalso. apply Hx. rewrite E. now apply in_map.
  - exfalso. apply Hx. rewrite <- E. now apply in_map.
  - now apply IH.
Qed.

Lemma in_map_delete k v ws m :
  In (k, v) (map_delete ws m) <-> In (k, v) m /\ k <> ws.
Proof.
  unfold map_delete. rewrite filter_In. simpl.
  rewrite negb_true_iff, Nat.eqb_neq. tauto.
Qed.

(** After the eviction an entry that carries the candidate id can only be
    the requester's own. *)
Lemma afterEviction_only_requester ws id m :
  UsersOK m ->
  forall k v, In (k, v) (afterEviction ws id m) -> UserInfo.id v = id -> k = ws.
Proof.
  intros [Hk [Hf Hi]] k v Hin Hid. unfold afterEviction, evictee in Hin.
  destruct (find _ (map_values m)) as [existing|] eqn:Hfind.
  - apply find_some in Hfind. destruct Hfind as [Hex Heq].
    apply String.eqb_eq in Heq.
    unfold map_values in Hex. apply in_map_iff in Hex.
    destruct Hex as [[k0 v0] [Hv0 Hin0]]. simpl in Hv0. subst v0.
    assert (Hsame : forall k1 v1, In (k1, v1) m -> UserInfo.id v1 = id ->
                                  k1 = UserInfo.webSocket existing).
    { intros k1 v1 Hin1 Hid1.
      assert ((k1, v1) = (k0, existing)) as E.
      { apply (NoDup_map_same (fun kv => UserInfo.id (snd kv)) m); try assumption.
        simpl. congruence. }
      inversion E; subst. symmetry. now apply Hf. }
    destruct (Nat.eqb (UserInfo.webSocket existing) ws) eqn:E; simpl in Hin.
    + apply Nat.eqb_eq in E. rewrite <- E. now apply (Hsame k v).
    + apply in_map_delete in Hin. destruct Hin as [Hin Hne].
      exfalso. apply Hne. now apply (Hsame k v).
  - exfalso.
    assert (In v (map_values m)) as Hv.
    { unfold map_values. apply in_map_iff. exists (k, v). now split. }
    pose proof (find_none _ _ Hfind v Hv) as Hno. simpl in Hno.
    apply String.eqb_neq in Hno. contradiction.
Qed.

Lemma afterEviction_OK ws id m : UsersOK m -> UsersOK (afterEviction ws id m).
Proof.
  intros H. unfold afterEviction.
  destruct (evictee ws id m); [|assumption].
  now apply UsersOK_filter.
Qed.

Lemma in_map_set k v ws u m :
  In (k, v) (map_set ws u m) -> (k, v) = (ws, u) \/ In (k, v) m.
Proof.
  induction m as [|[k0 v0] m IH]; simpl.
  - intros [E | []]. left. now symmetry.
  - destruct (Nat.eqb k0 ws) eqn:E.
    + apply Nat.eqb_eq in E. subst k0. intros [E | Hin].
      * left. now symmetry.
      * right. now right.
    + intros [Heq | Hin]; [right; now left|].
      destruct (IH Hin) as [Hl | Hr]; [now left | right; now right].
Qed.

Lemma map_get_map_set ws u m : map_get ws (map_set ws u m) = Some u.
Proof.
  induction m as [|[k0 v0] m IH]; simpl.
  - now rewrite Nat.eqb_refl.
  - destruct (Nat.eqb k0 ws) eqn:E; simpl; now rewrite E.
Qed.

Section Binding.

(** The requester [ws] is bound to [u] in a directory [m] where an entry
    with the id of [u] can only be the requester's own. *)
Variables (ws : WebSocket) (u : UserInfo.t).

Lemma onlyRequester_tail k0 v0 m :
  onlyRequester ws u ((k0, v0) :: m) -> onlyRequester ws u m.
Proof. intros H k v Hin. apply H. now right. Qed.

Lemma no_other_entry m :
  onlyRequester ws u m -> ~ In ws (List.map fst m) ->
  forall k v, In (k, v) m -> UserInfo.id v <> UserInfo.id u.
Proof.
  intros Honly Hkey k v Hin Hid. apply Hkey.
  rewrite <- (Honly k v Hin Hid). apply in_map_iff. now exists (k, v).
Qed.

Lemma map_set_keys m :
  NoDup (List.map fst m) -> NoDup (List.map fst (map_set ws u m)).
Proof.
  induction m as [|[k0 v0] m IH]; simpl; intros H.
  - constructor; [intros [] | constructor].
  - inversion H as [|? ? Hx Hl]; subst.
    destruct (Nat.eqb k0 ws) eqn:E; simpl; [now constructor|].
    constructor; [|now apply IH].
    intros Hin. apply in_map_iff in Hin. destruct Hin as [[k v] [Hk Hin]].
    simpl in Hk. subst k. apply in_map_set in Hin. destruct Hin as [Heq | Hin].
    + inversion Heq; subst. now rewrite Nat.eqb_refl in E.
    + apply Hx. apply in_map_iff. now exists (k0, v).
Qed.

Lemma map_set_ids m :
  onlyRequester ws u m -> NoDup (List.map fst m) -> NoDup (userIds m) ->
  NoDup (userIds (map_set ws u m)).
Proof.
  induction m as [|[k0 v0] m IH]; simpl; intros Honly Hk Hi.
  - constructor; [intros [] | constructor].
  - inversion Hk as [|? ? Hkx Hkl]; subst. inversion Hi as [|? ? Hix Hil]; subst.
    pose proof (onlyRequester_tail _ _ _ Honly) as Htail.
    destruct (Nat.eqb k0 ws) eqn:E; simpl.
    + apply Nat.eqb_eq in E. subst k0. constructor; [|assumption].
      intros Hin. apply in_map_iff in Hin. destruct Hin as [[k v] [Hid Hin]].
      exact (no_other_entry m Htail Hkx k v Hin Hid).
    + constructor; [|now apply IH].
      intros Hin. apply in_map_iff in Hin. destruct Hin as [[k v] [Hid Hin]].
      simpl in Hid. apply in_map_set in Hin. destruct Hin as [Heq | Hin].
      * inversion Heq; subst.
        assert (k0 = ws) as Hk0.
        { apply (Honly k0 v0); [now left | now symmetry]. }
        subst k0. now rewrite Nat.eqb_refl in E.
      * apply Hix. apply in_map_iff. exists (k, v). now split.
Qed.

Lemma map_set_OK m :
  UserInfo.webSocket u = ws -> onlyRequester ws u m -> UsersOK m -> UsersOK (map_set ws u m).
Proof.
  intros Hfiled Honly [Hk [Hf Hi]]. repeat split.
  - now apply map_set_keys.
  - intros k v Hin. apply in_map_set in Hin. destruct Hin as [Heq | Hin].
    + injection Heq as -> ->. exact Hfiled.
    + now apply Hf.
  - now apply map_set_ids.
Qed.

Lemma map_set_boundTo m :
  onlyRequester ws u m -> NoDup (List.map fst m) ->
  boundTo (UserInfo.id u) (map_set ws u m) = [(ws, u)].
Proof.
  assert (Hnone : forall l, (forall k v, In (k, v) l -> UserInfo.id v <> UserInfo.id u) ->
                            boundTo (UserInfo.id u) l = []).
  { induction l as [|[k v] l IHl]; simpl; intros H; [reflexivity|].
    destruct (UserInfo.id v =? UserInfo.id u) eqn:E.
    - apply String.eqb_eq in E. exfalso. apply (H k v); [now left | assumption].
    - apply IHl. intros k1 v1 Hin. apply (H k1 v1). now right. }
  induction m as [|[k0 v0] m IH]; simpl; intros Honly Hk.
  - now rewrite String.eqb_refl.
  - inversion Hk as [|? ? Hkx Hkl]; subst.
    pose proof (onlyRequester_tail _ _ _ Honly) as Htail.
    destruct (Nat.eqb k0 ws) eqn:E; simpl.
    + apply Nat.eqb_eq in E. subst k0. rewrite String.eqb_refl. f_equal.
      apply Hnone. exact (no_other_entry m Htail Hkx).
    + destruct (UserInfo.id v0 =? UserInfo.id u) eqn:Eid.
      * apply String.eqb_eq in Eid.
        assert (k0 = ws) as Hk0 by (apply (Honly k0 v0); [now left | assumption]).
        subst k0. now rewrite Nat.eqb_refl in E.
      * now apply IH.
Qed.

End Binding.

(* ================================================================== *)
(** ** Registration, step by step *)
(* ================================================================== *)

Lemma valid_key_not_empty publicKey :
  isValidPGPPublicKey publicKey = true -> (publicKey =? "") = false.
Proof. destruct publicKey; [discriminate | reflexivity]. Qed.

(** The extraction draws at most one random suffix and touches nothing
    else. *)
Lemma extractUserProfile_frame readKey armored w profile w1 :
  extractUserProfile readKey armored w = (Normal profile, w1) ->
  w1 = w \/ w1 = with_draws (S (draws w)) w.
Proof.
  rewrite extractUserProfile_cases.
  destruct (readKey armored) as [key|];
    [destruct (Key.getPrimaryUser key) as [userID|]|];
    try rewrite fallbackExtractUserProfile_cases; simpl.
  - destruct (JS.falsy _); intros H; inversion H; auto.
  - intros H; inversion H; auto.
  - intros H; inversion H; auto.
Qed.

Lemma evictExisting_evicted ws u w :
  evictExisting ws u w = (Normal tt, evicted ws (UserInfo.id u) w).
Proof.
  unfold evictExisting, evicted, evictee, findUserById, bind, users_values, ret. simpl.
  destruct (find _ (map_values (users w))) as [existing|]; [|reflexivity].
  destruct (Nat.eqb (UserInfo.webSocket existing) ws); reflexivity.
Qed.

Lemma broadcastUserList_broadcast w :
  broadcastUserList w = broadcast (userList (roster w)) w.
Proof. reflexivity. Qed.

(** The [try] block of [handleRegister] on a frame whose key passes both
    checks: the requester is bound, the reply is serialized and sent, and
    the roster is broadcast unless that [send] threw. *)
Lemma registerBody_valid readKey ws fields publicKey w profile w1 :
  lookup "publicKey" fields = VStr publicKey ->
  isValidPGPPublicKey publicKey = true ->
  extractUserProfile readKey publicKey w = (Normal profile, w1) ->
  let w3 := bound ws profile publicKey w1 in
  registerBody readKey ws (VObj fields) w =
  if mem ws (dead w3)
  then (Throw, replied w3 ws (registered profile))
  else broadcastUserList (replied w3 ws (registered profile)).
Proof.
  intros Hkey Hvalid Hextract w3.
  unfold registerBody, bind at 1. simpl. rewrite Hkey. simpl.
  rewrite (valid_key_not_empty _ Hvalid), Hvalid. simpl.
  unfold bind at 1. rewrite Hextract.
  unfold bind at 1. rewrite evictExisting_evicted. simpl.
  unfold bind at 1, users_set. unfold bind at 1, JSON_stringify.
  unfold bind, ws_send. simpl.
  fold (entryOf profile publicKey ws).
  assert (Heta : UserProfile.make (UserProfile.id profile) (UserProfile.name profile)
                                  (UserProfile.email profile) = profile)
    by now destruct profile.
  rewrite Heta. fold (bound ws profile publicKey w1). fold w3.
  destruct (mem ws (dead (evicted ws (UserProfile.id profile) w1))) eqn:Hdead.
  - reflexivity.
  - reflexivity.
Qed.

Lemma handleRegister_valid readKey ws fields publicKey w profile w1 :
  lookup "publicKey" fields = VStr publicKey ->
  isValidPGPPublicKey publicKey = true ->
  extractUserProfile readKey publicKey w = (Normal profile, w1) ->
  let w3 := bound ws profile publicKey w1 in
  let w4 := replied w3 ws (registered profile) in
  handleRegister readKey ws (VObj fields) w =
  if mem ws (dead w3)
  then (Normal tt, replied w4 ws (error "Registration failed"))
  else broadcastUserList w4.
Proof.
  intros Hkey Hvalid Hextract w3 w4.
  unfold handleRegister, try_catch.
  rewrite (registerBody_valid _ _ _ _ _ _ _ Hkey Hvalid Hextract). fold w3 w4.
  destruct (mem ws (dead w3)); [apply sendError_replied|].
  rewrite broadcastUserList_broadcast.
  pose proof (broadcast_returns (userList (roster w4)) w4) as Hret.
  destruct (broadcast (userList (roster w4)) w4) as [[[]|] w5]; simpl in Hret;
    [reflexivity | discriminate].
Qed.

(** [handleRegister] never throws: its handler is [sendError]. *)
Lemma handleRegister_returns readKey ws message w :
  fst (handleRegister readKey ws message w) = Normal tt.
Proof.
  unfold handleRegister, try_catch.
  destruct (registerBody readKey ws message w) as [[[]|] w']; [reflexivity|].
  now rewrite sendError_replied.
Qed.

(** The frames [handleRegister] answers with when a precondition fails. *)
Lemma registerBody_invalid readKey ws fields w :
  let key := lookup "publicKey" fields in
  (forall publicKey, key = VStr publicKey -> isValidPGPPublicKey publicKey = false) ->
  exists reason,
    registerBody readKey ws (VObj fields) w = (Normal tt, replied w ws (error reason)).
Proof.
  intros key Hinvalid. unfold registerBody, bind at 1. simpl.
  fold key. destruct key as [| |b|n|publicKey|l|o] eqn:Hkey; simpl;
    rewrite ?orb_true_r; try (rewrite sendError_replied; eexists; reflexivity).
  destruct (publicKey =? ""); simpl; [rewrite sendError_replied; eexists; reflexivity|].
  rewrite (Hinvalid publicKey eq_refl). simpl.
  rewrite sendError_replied. eexists; reflexivity.
Qed.

Lemma handleRegister_invalid readKey ws fields w :
  let key := lookup "publicKey" fields in
  (forall publicKey, key = VStr publicKey -> isValidPGPPublicKey publicKey = false) ->
  exists reason,
    handleRegister readKey ws (VObj fields) w = (Normal tt, replied w ws (error reason)).
Proof.
  intros key Hinvalid.
  destruct (registerBody_invalid readKey ws fields w Hinvalid) as [reason Hr].
  exists reason. unfold handleRegister, try_catch. now rewrite Hr.
Qed.

(* ================================================================== *)
(** ** Every transition keeps the representation invariant *)
(* ================================================================== *)

Lemma wellFormed_same_room w w' :
  users w' = users w -> sessions w' = sessions w -> wellFormed w' = wellFormed w.
Proof. intros Hu Hs. unfold wellFormed. now rewrite Hu, Hs. Qed.

Lemma preserves_ret {A} (a : A) : Preserves (ret a).
Proof. intros w H. exact H. Qed.

Lemma preserves_throw {A} : Preserves (@throw A).
Proof. intros w H. exact H. Qed.

Lemma preserves_bind {A B} (m : M A) (k : A -> M B) :
  Preserves m -> (forall a, Preserves (k a)) -> Preserves (bind m k).
Proof.
  intros Hm Hk w H. unfold bind. specialize (Hm w H).
  destruct (m w) as [[a|] w']; simpl in *; [now apply Hk | assumption].
Qed.

Lemma preserves_try_catch {A} (body handler : M A) :
  Preserves body -> Preserves handler -> Preserves (try_catch body handler).
Proof.
  intros Hb Hh w H. unfold try_catch. specialize (Hb w H).
  destruct (body w) as [[a|] w']; simpl in *; [assumption | now apply Hh].
Qed.

(** A computation that leaves the directory and the set alone. *)
Lemma preserves_same_room {A} (m : M A) :
  (forall w, users (snd (m w)) = users w /\ sessions (snd (m w)) = sessions w) ->
  Preserves m.
Proof.
  intros Hm w H. destruct (Hm w) as [Hu Hs].
  now rewrite (wellFormed_same_room w _ Hu Hs).
Qed.

Lemma preserves_orThrow {A} (o : option A) : Preserves (orThrow o).
Proof. destruct o; [apply preserves_ret | apply preserves_throw]. Qed.

Lemma preserves_ws_send ws text : Preserves (ws_send ws text).
Proof.
  apply preserves_same_room. intros w. unfold ws_send.
  now destruct (mem ws (dead w)).
Qed.

Lemma preserves_ws_close ws : Preserves (ws_close ws).
Proof.
  apply preserves_same_room. intros w. unfold ws_close.
  now destruct (closeKills w).
Qed.

Lemma preserves_JSON_stringify frame : Preserves (JSON_stringify frame).
Proof. now apply preserves_same_room. Qed.

Lemma preserves_sendError ws message : Preserves (sendError ws message).
Proof. apply preserves_same_room. intros w. now rewrite sendError_replied. Qed.

Lemma preserves_users_delete ws : Preserves (users_delete ws).
Proof.
  intros w H. apply wellFormed_iff in H. destruct H as [Hs Hu].
  apply wellFormed_iff. split; [assumption|]. now apply UsersOK_filter.
Qed.

Lemma preserves_sessions_delete ws : Preserves (sessions_delete ws).
Proof.
  intros w H. apply wellFormed_iff in H. destruct H as [Hs Hu].
  apply wellFormed_iff. split; [|assumption]. simpl.
  rewrite live_set_delete. now apply NoDup_filter.
Qed.

Lemma preserves_sessions_add ws : Preserves (sessions_add ws).
Proof.
  intros w H. apply wellFormed_iff in H. destruct H as [Hs Hu].
  apply wellFormed_iff. split; [|assumption]. simpl. unfold set_add.
  destruct (existsb (holds ws) (sessions w)) eqn:E; [assumption|].
  rewrite live_app. simpl. apply NoDup_app.
  - assumption.
  - constructor; [intros [] | constructor].
  - intros s Hin [Heq | []]. subst s.
    assert (existsb (holds ws) (sessions w) = true) as Hex; [|congruence].
    clear E Hs. induction (sessions w) as [|[t|] l IH]; simpl in *.
    + contradiction.
    + destruct Hin as [-> | Hin]; [now rewrite Nat.eqb_refl|].
      rewrite (IH Hin). apply orb_true_r.
    + now apply IH.
Qed.

Lemma preserves_broadcast message : Preserves (broadcast message).
Proof.
  intros w H. pose proof (wellFormed_sessions w H) as Hnd.
  rewrite (broadcast_broadcasted message w Hnd).
  apply wellFormed_iff in H. destruct H as [Hs Hu].
  apply wellFormed_iff. simpl. split.
  - rewrite live_heal. now apply NoDup_filter.
  - now apply UsersOK_filter.
Qed.

Lemma preserves_broadcastUserList : Preserves broadcastUserList.
Proof.
  unfold broadcastUserList. apply preserves_bind.
  - now apply preserves_same_room.
  - intros values. apply preserves_broadcast.
Qed.

Lemma users_evicted ws id w : users (evicted ws id w) = afterEviction ws id (users w).
Proof.
  unfold evicted, afterEviction. destruct (evictee ws id (users w)); [|reflexivity].
  unfold ws_close. simpl. now destruct (closeKills w).
Qed.

Lemma sessions_evicted ws id w : sessions (evicted ws id w) = sessions w.
Proof.
  unfold evicted. destruct (evictee ws id (users w)); [|reflexivity].
  unfold ws_close. simpl. now destruct (closeKills w).
Qed.

(** Binding the requester keeps the invariant: after the eviction no other
    entry carries the id of the new one. *)
Lemma wellFormed_bound ws profile publicKey w :
  wellFormed w = true -> wellFormed (bound ws profile publicKey w) = true.
Proof.
  intros H. apply wellFormed_iff in H. destruct H as [Hs Hu].
  apply wellFormed_iff. unfold bound. simpl.
  rewrite sessions_evicted, users_evicted. split; [assumption|].
  apply map_set_OK.
  - reflexivity.
  - intros k v Hin Hid. exact (afterEviction_only_requester ws _ _ Hu k v Hin Hid).
  - now apply afterEviction_OK.
Qed.

(** What [handleRegister] does with a frame: it answers with one error, or
    the frame is an object with a key that passes both checks. *)
Lemma handleRegister_cases readKey ws message w :
  (exists reason,
     handleRegister readKey ws message w = (Normal tt, replied w ws (error reason))) \/
  (exists fields publicKey,
     message = VObj fields /\ lookup "publicKey" fields = VStr publicKey /\
     isValidPGPPublicKey publicKey = true).
Proof.
  destruct message as [| |b|n|s|l|fields];
    try (left; unfold handleRegister, try_catch, registerBody, bind; simpl;
         rewrite sendError_replied; eexists; reflexivity).
  destruct (lookup "publicKey" fields) as [| |b|n|publicKey|l|o] eqn:Hkey;
    try (left; apply handleRegister_invalid; intros pk Hpk; rewrite Hkey in Hpk;
         discriminate).
  destruct (isValidPGPPublicKey publicKey) eqn:Hvalid.
  - right. exists fields, publicKey. now repeat split.
  - left. apply handleRegister_invalid. intros pk Hpk. rewrite Hkey in Hpk.
    now inversion Hpk; subst.
Qed.

Lemma preserves_handleRegister readKey ws message :
  Preserves (handleRegister readKey ws message).
Proof.
  intros w H.
  destruct (handleRegister_cases readKey ws message w)
    as [[reason Hr] | [fields [publicKey [-> [Hkey Hvalid]]]]].
  - now rewrite Hr.
  - destruct (extractUserProfile_returns readKey publicKey w)
      as [profile [w1 Hextract]].
    rewrite (handleRegister_valid _ _ _ _ _ _ _ Hkey Hvalid Hextract).
    assert (Hw1 : wellFormed w1 = true).
    { destruct (extractUserProfile_frame _ _ _ _ _ Hextract) as [-> | ->]; exact H. }
    pose proof (wellFormed_bound ws profile publicKey w1 Hw1) as Hbound.
    destruct (mem ws (dead (bound ws profile publicKey w1))); [exact Hbound|].
    now apply preserves_broadcastUserList.
Qed.

Lemma preserves_handleGetUsers ws : Preserves (handleGetUsers ws).
Proof.
  unfold handleGetUsers.
  apply preserves_bind; [now apply preserves_same_room|]. intros values.
  apply preserves_bind; [apply preserves_JSON_stringify|]. intros response.
  apply preserves_ws_send.
Qed.

Lemma preserves_handleChatMessage ws message : Preserves (handleChatMessage ws message).
Proof.
  unfold handleChatMessage.
  apply preserves_bind; [now apply preserves_same_room|]. intros [sender|];
    [|apply preserves_sendError].
  apply preserves_bind; [apply preserves_orThrow|]. intros data.
  destruct (negb (truthy data) || negb (isString data)); [apply preserves_sendError|].
  destruct data; try apply preserves_ret.
  destruct (negb (isValidPGPMessage s)); [apply preserves_sendError|].
  apply preserves_bind; [now apply preserves_same_room|]. intros timestamp.
  apply preserves_broadcast.
Qed.

Lemma preserves_handleDisconnect ws : Preserves (handleDisconnect ws).
Proof.
  unfold handleDisconnect.
  apply preserves_bind; [apply preserves_sessions_delete|]. intros _.
  apply preserves_bind; [apply preserves_users_delete|]. intros _.
  apply preserves_broadcastUserList.
Qed.

Lemma preserves_handleMessage readKey ws message :
  Preserves (handleMessage readKey ws message).
Proof.
  unfold handleMessage.
  apply preserves_bind; [apply preserves_orThrow|]. intros type.
  assert (Hother : Preserves (text <- orThrow (toStringJS type) ;;
                              sendError ws ("Unknown message type: " ++ text))).
  { apply preserves_bind; [apply preserves_orThrow|]. intros text.
    apply preserves_sendError. }
  destruct type; try exact Hother.
  destruct (s =? "register").
  { apply preserves_try_catch; [apply preserves_handleRegister | apply preserves_ret]. }
  destruct (s =? "getUsers"); [apply preserves_handleGetUsers|].
  destruct (s =? "message"); [apply preserves_handleChatMessage | exact Hother].
Qed.

Lemma preserves_deliver JSON_parse readKey e : Preserves (deliver JSON_parse readKey e).
Proof.
  destruct e as [ws | ws data | ws | ws | ws | now]; simpl.
  - apply preserves_sessions_add.
  - unfold onMessage. apply preserves_try_catch; [|apply preserves_sendError].
    apply preserves_bind; [apply preserves_orThrow|]. intros message.
    apply preserves_handleMessage.
  - apply preserves_handleDisconnect.
  - apply preserves_handleDisconnect.
  - now apply preserves_same_room.
  - now apply preserves_same_room.
Qed.

(** Every world a room reaches is well formed. *)
Lemma run_wellFormed JSON_parse readKey events :
  forall w, wellFormed w = true -> wellFormed (run JSON_parse readKey events w) = true.
Proof.
  induction events as [|e events IH]; intros w H; simpl; [exact H|].
  apply IH. now apply preserves_deliver.
Qed.

Lemma reachable_wellFormed JSON_parse readKey events dead closeKills clock random :
  wellFormed (run JSON_parse readKey events (newRoom dead closeKills clock random)) = true.
Proof. now apply run_wellFormed. Qed.

(* ================================================================== *)
(** ** Registration: one channel per id, eviction, failure *)
(* ================================================================== *)

Lemma map_get_In ws v m : map_get ws m = Some v -> In (ws, v) m.
Proof.
  induction m as [|[k0 v0] m IH]; simpl; [discriminate|].
  destruct (Nat.eqb k0 ws) eqn:E.
  - apply Nat.eqb_eq in E. intros H. inversion H; subst. now left.
  - intros H. right. now apply IH.
Qed.

Lemma map_get_map_delete ws m : map_get ws (map_delete ws m) = None.
Proof.
  unfold map_delete. induction m as [|[k0 v0] m IH]; simpl; [reflexivity|].
  destruct (Nat.eqb k0 ws) eqn:E; simpl; [assumption | now rewrite E].
Qed.

Lemma map_get_map_set_other ws u old m :
  old <> ws -> map_get old (map_set ws u m) = map_get old m.
Proof.
  intros Hne. induction m as [|[k0 v0] m IH]; simpl.
  - apply Nat.eqb_neq in Hne. now rewrite Nat.eqb_sym, Hne.
  - destruct (Nat.eqb k0 ws) eqn:E; simpl.
    + apply Nat.eqb_eq in E. subst k0.
      now rewrite (proj2 (Nat.eqb_neq ws old)) by congruence.
    + destruct (Nat.eqb k0 old); [reflexivity | assumption].
Qed.

(** In a well-formed directory the entry that carries an id is the one the
    eviction finds. *)
Lemma evictee_found ws id old existing m :
  UsersOK m -> map_get old m = Some existing -> UserInfo.id existing = id ->
  old <> ws -> evictee ws id m = Some old.
Proof.
  intros [Hk [Hf Hi]] Hget Hid Hne. apply map_get_In in Hget.
  unfold evictee.
  destruct (find (fun user => UserInfo.id user =? id) (map_values m)) as [found|] eqn:Hfind.
  - apply find_some in Hfind. destruct Hfind as [Hin Heq]. apply String.eqb_eq in Heq.
    unfold map_values in Hin. apply in_map_iff in Hin.
    destruct Hin as [[k0 v0] [Hv0 Hin0]]. simpl in Hv0. subst v0.
    assert ((k0, found) = (old, existing)) as E.
    { apply (NoDup_map_same (fun kv => UserInfo.id (snd kv)) m); try assumption.
      simpl. congruence. }
    inversion E; subst. rewrite (Hf old existing Hget).
    now rewrite (proj2 (Nat.eqb_neq old ws) Hne).
  - exfalso. assert (In existing (map_values m)) as Hv.
    { unfold map_values. apply in_map_iff. now exists (old, existing). }
    pose proof (find_none _ _ Hfind existing Hv) as Hno. simpl in Hno.
    apply String.eqb_neq in Hno. contradiction.
Qed.

Lemma boundTo_at_most_one id m : NoDup (userIds m) -> List.length (boundTo id m) <= 1.
Proof.
  assert (Hnone : forall l, ~ In id (userIds l) -> boundTo id l = []).
  { induction l as [|[k v] l IHl]; simpl; intros H; [reflexivity|].
    destruct (UserInfo.id v =? id) eqn:E.
    - apply String.eqb_eq in E. exfalso. apply H. now left.
    - apply IHl. intros Hin. apply H. now right. }
  induction m as [|[k v] m IH]; simpl; intros H; [lia|].
  inversion H as [|? ? Hx Hl]; subst.
  destruct (UserInfo.id v =? id) eqn:E; [|now apply IH].
  apply String.eqb_eq in E. subst id. rewrite (Hnone m Hx). simpl. lia.
Qed.

(** A broadcast only adds calls. *)
Lemma broadcastFrom_calls fuel :
  forall i text w, exists later,
    calls (snd (broadcastFrom fuel i text w)) = (calls w ++ later)%list.
Proof.
  induction fuel as [|fuel IH]; intros i text w; simpl.
  - exists []. now rewrite app_nil_r.
  - destruct (nth_error (sessions w) i) as [[s|]|].
    + unfold bind, try_catch, ws_send, sessions_delete, users_delete.
      destruct (mem s (dead w)); simpl.
      * match goal with |- context [broadcastFrom fuel (S i) text ?w0] =>
          destruct (IH (S i) text w0) as [later Hl] end.
        rewrite Hl. simpl. rewrite <- app_assoc. eexists. reflexivity.
      * match goal with |- context [broadcastFrom fuel (S i) text ?w0] =>
          destruct (IH (S i) text w0) as [later Hl] end.
        rewrite Hl. simpl. rewrite <- app_assoc. eexists. reflexivity.
    + apply IH.
    + exists []. now rewrite app_nil_r.
Qed.

Lemma broadcastUserList_calls w :
  exists later, calls (snd (broadcastUserList w)) = (calls w ++ later)%list.
Proof.
  unfold broadcastUserList, broadcast, bind, users_values, JSON_stringify. simpl.
  match goal with |- context [broadcastFrom ?f 0 ?t ?w0] =>
    destruct (broadcastFrom_calls f 0 t w0) as [later Hl] end.
  exists later. exact Hl.
Qed.

Lemma users_bound ws profile publicKey w :
  users (bound ws profile publicKey w) =
  map_set ws (entryOf profile publicKey ws) (afterEviction ws (UserProfile.id profile) (users w)).
Proof. unfold bound. simpl. now rewrite users_evicted. Qed.

Lemma sessions_bound ws profile publicKey w :
  sessions (bound ws profile publicKey w) = sessions w.
Proof. unfold bound. simpl. apply sessions_evicted. Qed.

Lemma extractUserProfile_room readKey armored w profile w1 :
  extractUserProfile readKey armored w = (Normal profile, w1) ->
  users w1 = users w /\ sessions w1 = sessions w /\ calls w1 = calls w /\
  dead w1 = dead w /\ closeKills w1 = closeKills w /\ wellFormed w1 = wellFormed w.
Proof.
  intros H. destruct (extractUserProfile_frame _ _ _ _ _ H) as [-> | ->];
    now repeat split.
Qed.

(** The requester stays bound to the new entry to the end of
    [handleRegister]: the broadcast deletes an entry only when [send]
    throws at its socket, and then it is not run. *)
Lemma handleRegister_binds readKey ws fields publicKey w profile w1 :
  wellFormed w = true ->
  lookup "publicKey" fields = VStr publicKey ->
  isValidPGPPublicKey publicKey = true ->
  extractUserProfile readKey publicKey w = (Normal profile, w1) ->
  let w3 := bound ws profile publicKey w1 in
  let w' := snd (handleRegister readKey ws (VObj fields) w) in
  users w' = (if mem ws (dead w3) then users w3
              else withoutKeys (failing (dead w3) (live (sessions w))) (users w3)) /\
  map_get ws (users w') = Some (entryOf profile publicKey ws).
Proof.
  intros Hwf Hkey Hvalid Hextract w3 w'.
  destruct (extractUserProfile_room _ _ _ _ _ Hextract) as [Hu [Hs [Hc [Hd [Hck Hwf1]]]]].
  assert (Hbound : map_get ws (users w3) = Some (entryOf profile publicKey ws)).
  { unfold w3. rewrite users_bound. apply map_get_map_set. }
  unfold w'. rewrite (handleRegister_valid _ _ _ _ _ _ _ Hkey Hvalid Hextract). fold w3.
  destruct (mem ws (dead w3)) eqn:Hdead; [now split|].
  rewrite broadcastUserList_broadcast.
  assert (Hs3 : sessions w3 = sessions w).
  { unfold w3. rewrite sessions_bound. exact Hs. }
  assert (Hnd : NoDup (live (sessions (replied w3 ws (registered profile))))).
  { change (NoDup (live (sessions w3))). rewrite Hs3. now apply wellFormed_sessions. }
  rewrite (broadcast_broadcasted _ _ Hnd).
  change (users (snd (Normal tt, broadcasted (userList (roster (replied w3 ws (registered profile))))
                        (with_stringified (S (stringified (replied w3 ws (registered profile))))
                           (replied w3 ws (registered profile))))))
    with (withoutKeys (failing (dead w3) (live (sessions w3))) (users w3)).
  rewrite Hs3. split; [reflexivity|].
  rewrite map_get_withoutKeys.
  destruct (mem ws (failing (dead w3) (live (sessions w)))) eqn:Hf; [|exact Hbound].
  apply mem_In in Hf. unfold failing in Hf. apply filter_In in Hf.
  destruct Hf as [_ Hf]. congruence.
Qed.

Lemma boundTo_withoutKeys id keys m :
  boundTo id (withoutKeys keys m) = withoutKeys keys (boundTo id m).
Proof.
  unfold boundTo, withoutKeys. induction m as [|[k v] m IH]; simpl; [reflexivity|].
  destruct (mem k keys) eqn:Hk; destruct (UserInfo.id v =? id) eqn:Hid; simpl;
    rewrite ?Hk, ?Hid, ?IH; reflexivity.
Qed.

Lemma calls_replied w ws text :
  calls (replied w ws text) = (calls w ++ [attempt w text ws])%list.
Proof. reflexivity. Qed.

(** The world at eviction time when the eviction closes [old]. *)
Lemma evicted_closes ws id old w :
  evictee ws id (users w) = Some old ->
  users (evicted ws id w) = map_delete old (users w) /\
  sessions (evicted ws id w) = sessions w /\
  calls (evicted ws id w) = (calls w ++ [Closed old])%list /\
  dead (evicted ws id w) = (if closeKills w then old :: dead w else dead w).
Proof.
  intros He. unfold evicted. rewrite He. unfold ws_close. simpl.
  destruct (closeKills w); now repeat split.
Qed.

(** C2.  After [handleRegister], whatever the frame, no id is carried by
    more than one entry of a directory that was well formed.  When the
    frame carries a key that passes both checks and the id extracted from it
    is the id of an entry filed under another socket, that entry is gone at
    the end, [close] was called on its socket by the time the requester is
    bound and before anything is sent, and the one entry with that id is
    the requester's. *)
Theorem registration_one_channel_per_id readKey ws message w :
  wellFormed w = true ->
  let w' := snd (handleRegister readKey ws message w) in
  (forall id, List.length (boundTo id (users w')) <= 1) /\
  (forall fields publicKey profile w1 old existing,
     message = VObj fields ->
     lookup "publicKey" fields = VStr publicKey ->
     isValidPGPPublicKey publicKey = true ->
     extractUserProfile readKey publicKey w = (Normal profile, w1) ->
     map_get old (users w) = Some existing ->
     UserInfo.id existing = UserProfile.id profile ->
     old <> ws ->
     map_get old (users w') = None /\
     calls (bound ws profile publicKey w1) = (calls w ++ [Closed old])%list /\
     (exists later, calls w' = (calls w ++ Closed old :: later)%list) /\
     boundTo (UserProfile.id profile) (users w') = [(ws, entryOf profile publicKey ws)]).
Proof.
  intros Hwf w'. split.
  - intros id. apply boundTo_at_most_one.
    pose proof (preserves_handleRegister readKey ws message w Hwf) as Hwf'.
    apply wellFormed_iff in Hwf'. destruct Hwf' as [_ [_ [_ Hids]]]. exact Hids.
  - intros fields publicKey profile w1 old existing -> Hkey Hvalid Hextract Hget Hid Hne.
    destruct (extractUserProfile_room _ _ _ _ _ Hextract) as [Hu [Hs [Hc [Hd [Hck Hwf1]]]]].
    pose proof (proj1 (wellFormed_iff w) Hwf) as [Hnd HOK].
    assert (Hev : evictee ws (UserProfile.id profile) (users w1) = Some old).
    { rewrite Hu. now apply (evictee_found ws _ old existing). }
    destruct (evicted_closes _ _ _ _ Hev) as [Hu2 [Hs2 [Hc2 Hd2]]].
    set (w3 := bound ws profile publicKey w1).
    assert (Hu3 : users w3 = map_set ws (entryOf profile publicKey ws)
                                     (map_delete old (users w))).
    { unfold w3. rewrite users_bound. unfold afterEviction. now rewrite Hev, Hu. }
    assert (Hc3 : calls w3 = (calls w ++ [Closed old])%list).
    { unfold w3, bound. simpl. now rewrite Hc2, Hc. }
    destruct (handleRegister_binds readKey ws fields publicKey w profile w1
                Hwf Hkey Hvalid Hextract) as [Husers Hbound].
    fold w3 in Husers. fold w' in Husers, Hbound.
    assert (Hold3 : map_get old (users w3) = None).
    { rewrite Hu3, map_get_map_set_other by assumption. apply map_get_map_delete. }
    assert (Hone3 : boundTo (UserProfile.id profile) (users w3) =
                    [(ws, entryOf profile publicKey ws)]).
    { unfold w3. rewrite users_bound.
      apply (map_set_boundTo ws (entryOf profile publicKey ws)).
      - intros k v Hin Hidv. rewrite Hu in Hin.
        exact (afterEviction_only_requester ws _ _ HOK k v Hin Hidv).
      - rewrite Hu. now destruct (afterEviction_OK ws (UserProfile.id profile) _ HOK). }
    split; [|split; [exact Hc3|split]].
    + rewrite Husers. destruct (mem ws (dead w3)); [exact Hold3|].
      rewrite map_get_withoutKeys, Hold3. now destruct (mem old _).
    + unfold w'. rewrite (handleRegister_valid _ _ _ _ _ _ _ Hkey Hvalid Hextract).
      fold w3. destruct (mem ws (dead w3)).
      * cbn [snd]. rewrite !calls_replied, Hc3, <- !app_assoc. simpl.
        eexists. reflexivity.
      * destruct (broadcastUserList_calls (replied w3 ws (registered profile)))
          as [later Hl].
        rewrite Hl, calls_replied, Hc3, <- !app_assoc. simpl.
        eexists. reflexivity.
    + rewrite Husers. destruct (mem ws (dead w3)) eqn:Hdead; [exact Hone3|].
      rewrite boundTo_withoutKeys, Hone3. unfold withoutKeys. cbn [filter fst].
      destruct (mem ws (failing (dead w3) (live (sessions w)))) eqn:Hf; [|reflexivity].
      apply mem_In in Hf. unfold failing in Hf. apply filter_In in Hf.
      destruct Hf as [_ Hf]. congruence.
Qed.

Lemma registration_one_channel_per_id_witness :
  wellFormed Sample.room = true /\
  let w' := snd (handleRegister (Sample.keyOf "Alice <alice@x.com>") 3
                   (VObj Sample.registerFrame) Sample.room) in
  (forall id, List.length (boundTo id (users w')) <= 1) /\
  map_get 1 (users w') = None /\
  calls (bound 3 (UserProfile.make "A1B2" "Alice" "alice@x.com") Sample.armored Sample.room) =
    (calls Sample.room ++ [Closed 1])%list /\
  (exists later, calls w' = (calls Sample.room ++ Closed 1 :: later)%list) /\
  boundTo "A1B2" (users w') =
    [(3, entryOf (UserProfile.make "A1B2" "Alice" "alice@x.com") Sample.armored 3)].
Proof.
  split; [reflexivity|].
  destruct (registration_one_channel_per_id (Sample.keyOf "Alice <alice@x.com>") 3
              (VObj Sample.registerFrame) Sample.room eq_refl) as [Hone Hevict].
  split; [exact Hone|].
  apply (Hevict Sample.registerFrame Sample.armored
                (UserProfile.make "A1B2" "Alice" "alice@x.com") Sample.room 1 Sample.alice);
    try reflexivity.
  discriminate.
Defined.

(** The members of the set after the [close] or [error] event of [ws]. *)
Lemma handleDisconnect_sessions ws w :
  wellFormed w = true ->
  live (sessions (snd (handleDisconnect ws w))) =
  filter (fun s => negb (mem s (dead w)))
         (filter (fun s => negb (Nat.eqb s ws)) (live (sessions w))).
Proof.
  intros Hwf. pose proof (wellFormed_sessions w Hwf) as Hnd.
  unfold handleDisconnect, bind, sessions_delete, users_delete.
  rewrite broadcastUserList_broadcast.
  rewrite broadcast_broadcasted.
  - cbn [snd broadcasted sessions]. rewrite live_heal. simpl.
    now rewrite live_set_delete.
  - simpl. rewrite live_set_delete. now apply NoDup_filter.
Qed.

(** C10.  When [handleRegister] evicts the entry of another socket [old]:
    at eviction time the entry is gone from the directory and [close] was
    called on [old], and the session set is what it was, [old] included.
    When the reply to the requester is sent, the roster that follows is
    sent at every member of that set, [old] among them, and [old] is a
    member afterwards exactly when that [send] did not throw; when the
    reply throws no roster is sent and the set is what it was.  The [close]
    or [error] event of [old] removes it. *)
Theorem eviction_leaves_session_set readKey ws fields publicKey profile w1 old existing w :
  wellFormed w = true ->
  lookup "publicKey" fields = VStr publicKey ->
  isValidPGPPublicKey publicKey = true ->
  extractUserProfile readKey publicKey w = (Normal profile, w1) ->
  map_get old (users w) = Some existing ->
  UserInfo.id existing = UserProfile.id profile ->
  old <> ws ->
  let w2 := evicted ws (UserProfile.id profile) w1 in
  let w3 := bound ws profile publicKey w1 in
  let w' := snd (handleRegister readKey ws (VObj fields) w) in
  evictExisting ws (entryOf profile publicKey ws) w1 = (Normal tt, w2) /\
  users w2 = map_delete old (users w) /\
  sessions w2 = sessions w /\
  calls w2 = (calls w ++ [Closed old])%list /\
  (mem ws (dead w2) = false ->
     calls w' = (calls w ++ Closed old :: Sent ws (registered profile) ::
                 List.map (attempt w2 (userList (roster w3))) (live (sessions w)))%list /\
     (forall s, In s (live (sessions w')) <->
                In s (live (sessions w)) /\ mem s (dead w2) = false)) /\
  (mem ws (dead w2) = true -> sessions w' = sessions w) /\
  ~ In old (live (sessions (snd (handleDisconnect old w')))).
Proof.
  intros Hwf Hkey Hvalid Hextract Hget Hid Hne w2 w3 w'.
  destruct (extractUserProfile_room _ _ _ _ _ Hextract) as [Hu [Hs [Hc [Hd [Hck Hwf1]]]]].
  pose proof (proj1 (wellFormed_iff w) Hwf) as [Hnd HOK].
  assert (Hev : evictee ws (UserProfile.id profile) (users w1) = Some old).
  { rewrite Hu. now apply (evictee_found ws _ old existing). }
  destruct (evicted_closes _ _ _ _ Hev) as [Hu2 [Hs2 [Hc2 Hd2]]]. fold w2 in Hu2, Hs2, Hc2, Hd2.
  assert (Hs3 : sessions w3 = sessions w).
  { unfold w3. rewrite sessions_bound. exact Hs. }
  assert (Hrun : handleRegister readKey ws (VObj fields) w =
                 if mem ws (dead w2)
                 then (Normal tt, replied (replied w3 ws (registered profile)) ws
                                          (error "Registration failed"))
                 else broadcastUserList (replied w3 ws (registered profile))).
  { exact (handleRegister_valid _ _ _ _ _ _ _ Hkey Hvalid Hextract). }
  split; [apply (evictExisting_evicted ws (entryOf profile publicKey ws) w1)|].
  split; [now rewrite Hu2, Hu|]. split; [now rewrite Hs2, Hs|].
  split; [now rewrite Hc2, Hc|]. split; [|split].
  - intros Halive. unfold w'. rewrite Hrun, Halive.
    rewrite broadcastUserList_broadcast, broadcast_broadcasted
      by (change (NoDup (live (sessions w3))); now rewrite Hs3).
    split.
    + change (calls (snd (Normal tt, broadcasted (userList (roster (replied w3 ws (registered profile))))
                (with_stringified (S (stringified (replied w3 ws (registered profile))))
                   (replied w3 ws (registered profile))))))
        with ((calls w2 ++ [attempt w2 (registered profile) ws]) ++
              List.map (attempt w2 (userList (roster w3))) (live (sessions w3)))%list.
      unfold attempt at 1. rewrite Halive, Hc2, Hc, Hs3, <- !app_assoc. reflexivity.
    + intros s.
      change (live (sessions (snd (Normal tt, broadcasted (userList (roster (replied w3 ws (registered profile))))
                (with_stringified (S (stringified (replied w3 ws (registered profile))))
                   (replied w3 ws (registered profile)))))))
        with (live (heal (dead w2) (sessions w3))).
      rewrite live_heal, Hs3, filter_In, negb_true_iff. reflexivity.
  - intros Hdead. unfold w'. rewrite Hrun, Hdead. exact Hs3.
  - pose proof (preserves_handleRegister readKey ws (VObj fields) w Hwf) as Hwf'.
    fold w' in Hwf'. rewrite (handleDisconnect_sessions old w' Hwf').
    intros Hin. apply filter_In in Hin. destruct Hin as [Hin _].
    apply filter_In in Hin. destruct Hin as [_ Hin].
    now rewrite Nat.eqb_refl in Hin.
Qed.

Lemma eviction_leaves_session_set_witness :
  wellFormed Sample.room = true /\
  let readKey := Sample.keyOf "Alice <alice@x.com>" in
  let profile := UserProfile.make "A1B2" "Alice" "alice@x.com" in
  let w2 := evicted 3 "A1B2" Sample.room in
  let w' := snd (handleRegister readKey 3 (VObj Sample.registerFrame) Sample.room) in
  sessions w2 = sessions Sample.room /\
  calls w2 = [Closed 1] /\
  calls w' = (Closed 1 :: Sent 3 (registered profile) ::
              List.map (attempt w2 (userList (roster (bound 3 profile Sample.armored Sample.room))))
                       [1; 2; 3]) /\
  ~ In 1 (live (sessions (snd (handleDisconnect 1 w')))).
Proof.
  split; [reflexivity|].
  destruct (eviction_leaves_session_set (Sample.keyOf "Alice <alice@x.com>") 3
              Sample.registerFrame Sample.armored
              (UserProfile.make "A1B2" "Alice" "alice@x.com") Sample.room 1 Sample.alice
              Sample.room eq_refl eq_refl eq_refl eq_refl eq_refl eq_refl
              ltac:(discriminate))
    as [_ [_ [Hs [Hc [Hsent [_ Hgone]]]]]].
  destruct (Hsent eq_refl) as [Hcalls _].
  repeat split; assumption.
Defined.

(** C3, as the specification states it, fails: a [register] frame from
    socket 2 of the sample room, at which [send] throws, makes the [try]
    block throw after the requester is bound, and the binding stays. *)
Lemma registration_failure_is_not_rolled_back :
  ~ (forall readKey ws fields w,
       fst (registerBody readKey ws (VObj fields) w) = Throw ->
       let w' := snd (handleRegister readKey ws (VObj fields) w) in
       users w' = users w /\ sessions w' = sessions w).
Proof.
  intros H.
  destruct (H Sample.rejectKey 2 Sample.registerFrame Sample.room eq_refl) as [Hu _].
  apply (f_equal (@List.length _)) in Hu. vm_compute in Hu. discriminate.
Qed.

(** C3, amended.  The [try] block of [handleRegister] throws on an object
    only when the key passed both checks and [send] threw on the reply to
    the requester.  Then the handler returns after one more call, the
    [send] of the error "Registration failed" at the requester, which
    throws as well; no roster is broadcast, the session set is what it
    was, and the directory keeps the eviction and the new entry of the
    requester. *)
Theorem registration_failure_keeps_binding readKey ws fields w :
  fst (registerBody readKey ws (VObj fields) w) = Throw ->
  exists publicKey profile w1,
    lookup "publicKey" fields = VStr publicKey /\
    isValidPGPPublicKey publicKey = true /\
    extractUserProfile readKey publicKey w = (Normal profile, w1) /\
    let w3 := bound ws profile publicKey w1 in
    let w' := snd (handleRegister readKey ws (VObj fields) w) in
    mem ws (dead w3) = true /\
    fst (handleRegister readKey ws (VObj fields) w) = Normal tt /\
    calls w' = (calls w3 ++ [SendThrew ws (registered profile);
                             SendThrew ws (error "Registration failed")])%list /\
    sessions w' = sessions w /\
    users w' = map_set ws (entryOf profile publicKey ws)
                 (afterEviction ws (UserProfile.id profile) (users w)).
Proof.
  intros Hthrow.
  destruct (lookup "publicKey" fields) as [| |b|n|publicKey|l|o] eqn:Hkey;
    try (destruct (registerBody_invalid readKey ws fields w) as [reason Hr];
         [intros pk Hpk; rewrite Hkey in Hpk; discriminate
         | rewrite Hr in Hthrow; discriminate]).
  destruct (isValidPGPPublicKey publicKey) eqn:Hvalid.
  2:{ destruct (registerBody_invalid readKey ws fields w) as [reason Hr];
        [intros pk Hpk; rewrite Hkey in Hpk; now inversion Hpk; subst
        | rewrite Hr in Hthrow; discriminate]. }
  destruct (extractUserProfile_returns readKey publicKey w)
    as [profile [w1 Hextract]].
  exists publicKey, profile, w1. repeat (split; [reflexivity || assumption|]).
  intros w3 w'.
  destruct (extractUserProfile_room _ _ _ _ _ Hextract) as [Hu [Hs _]].
  rewrite (registerBody_valid _ _ _ _ _ _ _ Hkey Hvalid Hextract) in Hthrow.
  fold w3 in Hthrow.
  destruct (mem ws (dead w3)) eqn:Hdead.
  2:{ rewrite broadcastUserList_broadcast, broadcast_returns in Hthrow. discriminate. }
  split; [reflexivity|]. split; [apply handleRegister_returns|].
  unfold w'. rewrite (handleRegister_valid _ _ _ _ _ _ _ Hkey Hvalid Hextract).
  fold w3. rewrite Hdead. cbn [snd]. split; [|split].
  - rewrite !calls_replied, <- app_assoc. unfold attempt.
    change (dead (replied w3 ws (registered profile))) with (dead w3).
    now rewrite Hdead.
  - change (sessions w3 = sessions w). unfold w3. now rewrite sessions_bound.
  - change (users w3 = map_set ws (entryOf profile publicKey ws)
                         (afterEviction ws (UserProfile.id profile) (users w))).
    unfold w3. now rewrite users_bound, Hu.
Qed.

Lemma registration_failure_keeps_binding_witness :
  fst (registerBody Sample.rejectKey 2 (VObj Sample.registerFrame) Sample.room) = Throw /\
  exists publicKey profile w1,
    lookup "publicKey" Sample.registerFrame = VStr publicKey /\
    isValidPGPPublicKey publicKey = true /\
    extractUserProfile Sample.rejectKey publicKey Sample.room = (Normal profile, w1) /\
    let w3 := bound 2 profile publicKey w1 in
    let w' := snd (handleRegister Sample.rejectKey 2 (VObj Sample.registerFrame) Sample.room) in
    mem 2 (dead w3) = true /\
    fst (handleRegister Sample.rejectKey 2 (VObj Sample.registerFrame) Sample.room) = Normal tt /\
    calls w' = (calls w3 ++ [SendThrew 2 (registered profile);
                             SendThrew 2 (error "Registration failed")])%list /\
    sessions w' = sessions Sample.room /\
    users w' = map_set 2 (entryOf profile publicKey 2)
                 (afterEviction 2 (UserProfile.id profile) (users Sample.room)).
Proof.
  split; [reflexivity|].
  apply (registration_failure_keeps_binding Sample.rejectKey 2 Sample.registerFrame
           Sample.room).
  reflexivity.
Defined.

(* ================================================================== *)
(** ** The profile of a parsed key *)
(* ================================================================== *)

(** C8, as the specification states it, fails: the user id [" <a@b>"]
    matches the pattern with a blank name group, and the profile carries a
    default name instead of the trimmed group. *)
Lemma blank_name_group_is_defaulted :
  ~ (forall readKey armored key userId g1 g2 w,
       readKey armored = Some key ->
       Key.getPrimaryUser key = Some (Some userId) ->
       Regex.matchUserId userId = Some (g1, g2) ->
       exists profile w',
         extractUserProfile readKey armored w = (Normal profile, w') /\
         UserProfile.name profile = JS.trim g1 /\
         UserProfile.email profile = JS.trim g2).
Proof.
  intros H.
  destruct (H (Sample.keyOf " <a@b>") Sample.armored
              (Key.make (Some (Some " <a@b>")) "a1b2") " <a@b>" " " "a@b" Sample.room
              eq_refl eq_refl eq_refl) as [profile [w' [Hrun [Hname _]]]].
  vm_compute in Hrun. inversion Hrun; subst. vm_compute in Hname. discriminate.
Qed.

(** C8, amended.  When the key and its primary user id parse, name and
    email are derived from the user id in this order: the two groups of a
    [Name <email>] match, trimmed; else, with an [@] in the user id, the
    trimmed user id as email and what precedes its first [@] as name; else
    the trimmed user id as name and no email.  A derived name that is empty
    is replaced by ["User_"] and a random suffix, a derived email that is
    empty by one made from the name.  The [registered] frame sent at the
    requester carries that name and email, with the fingerprint in upper
    case as id. *)
Theorem profile_from_primary_user_id readKey ws fields publicKey key userId w :
  lookup "publicKey" fields = VStr publicKey ->
  isValidPGPPublicKey publicKey = true ->
  readKey publicKey = Some key ->
  Key.getPrimaryUser key = Some (Some userId) ->
  let derived :=
    match Regex.matchUserId userId with
    | Some (g1, g2) => (JS.trim g1, JS.trim g2)
    | None =>
        if JS.includes userId "@"
        then (hd EmptyString (JS.split "@" (JS.trim userId)), JS.trim userId)
        else (JS.trim userId, EmptyString)
    end in
  let name :=
    if fst derived =? "" then "User_" ++ random w (draws w) else fst derived in
  let email :=
    if snd derived =? ""
    then JS.removeSpaces (JS.toLowerCase name) ++ "@example.com"
    else snd derived in
  let profile := UserProfile.make (JS.toUpperCase (Key.getFingerprint key)) name email in
  exists w1,
    extractUserProfile readKey publicKey w = (Normal profile, w1) /\
    let w3 := bound ws profile publicKey w1 in
    exists later,
      calls (snd (handleRegister readKey ws (VObj fields) w)) =
      (calls w3 ++ attempt w3 (registered profile) ws :: later)%list.
Proof.
  intros Hkey Hvalid Hread Huser derived name email profile.
  assert (Hextract : exists w1,
             extractUserProfile readKey publicKey w = (Normal profile, w1)).
  { rewrite extractUserProfile_cases, Hread, Huser. eexists. reflexivity. }
  destruct Hextract as [w1 Hextract]. exists w1. split; [exact Hextract|].
  intros w3. rewrite (handleRegister_valid _ _ _ _ _ _ _ Hkey Hvalid Hextract).
  fold w3. destruct (mem ws (dead w3)).
  - cbn [snd]. rewrite !calls_replied, <- app_assoc. eexists. reflexivity.
  - destruct (broadcastUserList_calls (replied w3 ws (registered profile)))
      as [later Hl].
    rewrite Hl, calls_replied, <- app_assoc. eexists. reflexivity.
Qed.

Lemma profile_from_primary_user_id_witness :
  let readKey := Sample.keyOf "Alice <alice@x.com>" in
  let profile := UserProfile.make "A1B2" "Alice" "alice@x.com" in
  exists w1,
    extractUserProfile readKey Sample.armored Sample.room = (Normal profile, w1) /\
    let w3 := bound 3 profile Sample.armored w1 in
    exists later,
      calls (snd (handleRegister readKey 3 (VObj Sample.registerFrame) Sample.room)) =
      (calls w3 ++ attempt w3 (registered profile) 3 :: later)%list.
Proof.
  exact (profile_from_primary_user_id (Sample.keyOf "Alice <alice@x.com>") 3
           Sample.registerFrame Sample.armored
           (Key.make (Some (Some "Alice <alice@x.com>")) "a1b2") "Alice <alice@x.com>"
           Sample.room eq_refl eq_refl eq_refl eq_refl).
Defined.

(* ================================================================== *)
(** ** Decoding and dispatch *)
(* ================================================================== *)

Lemma handleGetUsers_replied ws w :
  handleGetUsers ws w =
  (if mem ws (dead w) then Throw else Normal tt, replied w ws (userList (roster w))).
Proof.
  unfold handleGetUsers, bind, users_values, JSON_stringify, ws_send. simpl.
  now destruct (mem ws (dead w)).
Qed.

Lemma handleChatMessage_returns ws fields w :
  fst (handleChatMessage ws (VObj fields) w) = Normal tt.
Proof.
  rewrite handleChatMessage_cases.
  destruct (map_get ws (users w)) as [sender|]; [|now rewrite sendError_replied].
  simpl. destruct (negb (truthy _) || negb (isString _)); [now rewrite sendError_replied|].
  destruct (lookup "encryptedData" fields); try reflexivity.
  destruct (negb (isValidPGPMessage s)); [now rewrite sendError_replied|].
  apply broadcast_returns.
Qed.

(** C6, as the specification states it, fails: the payload [null] decodes,
    its type is none of the three, and the answer is "Invalid JSON format",
    not "Unknown message type: ...". *)
Lemma decoded_null_is_answered_as_invalid_json :
  ~ (forall JSON_parse readKey ws data message w,
       JSON_parse data = Some message ->
       knownType message = false ->
       exists text,
         onMessage JSON_parse readKey ws data w =
         (Normal tt, replied w ws (error ("Unknown message type: " ++ text)))).
Proof.
  intros H.
  destruct (H Sample.decode Sample.rejectKey 3 "null" VNull Sample.room
              eq_refl eq_refl) as [text Hrun].
  vm_compute in Hrun. discriminate.
Qed.

(** [handleMessage] as one case analysis on the type read from the
    frame. *)
Lemma handleMessage_cases readKey ws message w :
  handleMessage readKey ws message w =
  match getProp message "type" with
  | None => (Throw, w)
  | Some type =>
      if isType "register" type then handleRegister readKey ws message w
      else if isType "getUsers" type then handleGetUsers ws w
      else if isType "message" type then handleChatMessage ws message w
      else match toStringJS type with
           | Some text => sendError ws ("Unknown message type: " ++ text) w
           | None => (Throw, w)
           end
  end.
Proof.
  unfold handleMessage, bind at 1.
  destruct (getProp message "type") as [type|]; [|reflexivity].
  unfold orThrow at 1, ret at 1.
  assert (Hother : forall v,
    (text <- orThrow (toStringJS v) ;;
     sendError ws ("Unknown message type: " ++ text)) w =
    match toStringJS v with
    | Some text => sendError ws ("Unknown message type: " ++ text) w
    | None => (Throw, w)
    end).
  { intros v. unfold bind. now destruct (toStringJS v). }
  destruct type as [| |b|n|s|l|o]; try apply Hother.
  unfold isType. destruct (s =? "register").
  { unfold detached, try_catch.
    pose proof (handleRegister_returns readKey ws message w) as Hret.
    destruct (handleRegister readKey ws message w) as [[[]|] w']; simpl in Hret;
      [reflexivity | discriminate]. }
  destruct (s =? "getUsers"); [reflexivity|].
  destruct (s =? "message"); [reflexivity|].
  apply Hother.
Qed.

Lemma onMessage_cases JSON_parse readKey ws data w :
  onMessage JSON_parse readKey ws data w =
  match JSON_parse data with
  | None => sendError ws "Invalid JSON format" w
  | Some message =>
      try_catch (handleMessage readKey ws message)
                (sendError ws "Invalid JSON format") w
  end.
Proof.
  unfold onMessage, try_catch, bind, orThrow, ret, throw.
  now destruct (JSON_parse data).
Qed.

(** C6, amended.  A payload that does not decode is answered by one error,
    "Invalid JSON format", sent at the originating socket, and nothing else
    changes.  A payload that decodes to a value a [type] can be read from is
    dispatched on that type: to [handleRegister], to [handleGetUsers] (whose
    reply, when its [send] throws, is followed by an "Invalid JSON format"
    error at the same socket) or to [handleChatMessage]; any other type is
    answered by "Unknown message type: " and its text at the originating
    socket only.  A payload that decodes to [null], and a type whose text
    cannot be made, are answered like one that does not decode. *)
Theorem inbound_payload_routed JSON_parse readKey ws data w :
  let answer := onMessage JSON_parse readKey ws data w in
  let invalid := (Normal tt, replied w ws (error "Invalid JSON format")) in
  match JSON_parse data with
  | None => answer = invalid
  | Some message =>
      match getProp message "type" with
      | None => answer = invalid
      | Some type =>
          if isType "register" type
          then answer = handleRegister readKey ws message w
          else if isType "getUsers" type
          then answer =
               (Normal tt,
                if mem ws (dead w)
                then replied (replied w ws (userList (roster w))) ws
                             (error "Invalid JSON format")
                else replied w ws (userList (roster w)))
          else if isType "message" type
          then answer = handleChatMessage ws message w
          else match toStringJS type with
               | Some text =>
                   answer = (Normal tt,
                             replied w ws (error ("Unknown message type: " ++ text)))
               | None => answer = invalid
               end
      end
  end.
Proof.
  intros answer invalid. unfold answer, invalid. rewrite onMessage_cases.
  destruct (JSON_parse data) as [message|]; [|apply sendError_replied].
  unfold try_catch. rewrite handleMessage_cases.
  destruct (getProp message "type") as [type|] eqn:Htype; [|apply sendError_replied].
  destruct (isType "register" type).
  { pose proof (handleRegister_returns readKey ws message w) as Hret.
    destruct (handleRegister readKey ws message w) as [[[]|] w']; simpl in Hret;
      [reflexivity | discriminate]. }
  destruct (isType "getUsers" type).
  { rewrite handleGetUsers_replied. destruct (mem ws (dead w)); [|reflexivity].
    apply sendError_replied. }
  destruct (isType "message" type) eqn:Hmsg.
  { destruct type; try discriminate.
    destruct message as [| |b|n|t|l|fields]; simpl in Htype; try discriminate.
    pose proof (handleChatMessage_returns ws fields w) as Hret.
    destruct (handleChatMessage ws (VObj fields) w) as [[[]|] w']; simpl in Hret;
      [reflexivity | discriminate]. }
  destruct (toStringJS type) as [text|]; [|apply sendError_replied].
  now rewrite sendError_replied.
Qed.

(* ================================================================== *)
(** ** Further properties: the fallback id *)
(* ================================================================== *)

Lemma length_append_string (a b : string) :
  String.length (a ++ b) = String.length a + String.length b.
Proof. induction a as [|c a IH]; simpl; [reflexivity | now rewrite IH]. Qed.

Lemma list_ascii_of_append (a b : string) :
  list_ascii_of_string (a ++ b) =
  (list_ascii_of_string a ++ list_ascii_of_string b)%list.
Proof. induction a as [|c a IH]; simpl; [reflexivity | now rewrite IH]. Qed.

Lemma hexChar_lower v : isLowerHex (Spec.hexChar v) = true.
Proof.
  unfold Spec.hexChar.
  assert (Hlt : (v mod 16 < 16)%N) by (apply N.mod_lt; discriminate).
  destruct (v mod 16)%N as [|p]; [reflexivity|].
  do 4 (try destruct p as [p|p|]); reflexivity.
Qed.

Lemma hexDigits_shape k :
  forall n, String.length (Spec.hexDigits k n) = k /\
            forallb isLowerHex (list_ascii_of_string (Spec.hexDigits k n)) = true.
Proof.
  induction k as [|k IH]; intros n; simpl; [now split|].
  destruct (IH (n / 16)%N) as [Hlen Hhex].
  rewrite length_append_string, list_ascii_of_append, forallb_app, Hlen, Hhex.
  simpl. rewrite hexChar_lower. split; [lia | reflexivity].
Qed.

(** X1.  Whatever the armored text, the fallback id has exactly eight
    characters, each of them a digit or a letter from [a] to [f]. *)
Theorem fallback_id_is_eight_hex_digits armored :
  String.length (generateUserIdFromKey armored) = 8 /\
  forallb isLowerHex (list_ascii_of_string (generateUserIdFromKey armored)) = true.
Proof. rewrite generateUserIdFromKey_spec. apply hexDigits_shape. Qed.

Lemma charCodes_append (a b : string) :
  JS.charCodes (a ++ b) = (JS.charCodes a ++ JS.charCodes b)%list.
Proof. unfold JS.charCodes. now rewrite list_ascii_of_append, map_app. Qed.

Lemma hashFrom_app a :
  forall b hash, hashFrom (a ++ b) hash = hashFrom b (hashFrom a hash).
Proof. induction a as [|c a IH]; intros b hash; simpl; [reflexivity | apply IH]. Qed.

Lemma truncate32_absorbs a c :
  Spec.truncate32 (Spec.truncate32 a * 31 + c) = Spec.truncate32 (a * 31 + c).
Proof.
  rewrite <- !ToInt32_truncate32.
  destruct (ToInt32_multiple a) as [k Hk]. rewrite Hk.
  replace ((a + k * 2 ^ 32) * 31 + c)%Z with (a * 31 + c + (31 * k) * 2 ^ 32)%Z by ring.
  apply ToInt32_add_multiple.
Qed.

(** X2.  The fallback id does not tell keys apart: writing [BB] for an
    [Aa] anywhere in an armored text leaves its id as it is. *)
Theorem fallback_id_collides before after :
  generateUserIdFromKey (before ++ "Aa" ++ after) =
  generateUserIdFromKey (before ++ "BB" ++ after).
Proof.
  unfold generateUserIdFromKey.
  rewrite !charCodes_append, !hashFrom_app.
  assert (Hsame : forall hash,
             hashFrom (JS.charCodes "Aa") hash = hashFrom (JS.charCodes "BB") hash).
  { intros hash. rewrite !hashFrom_rolling.
    change (JS.charCodes "Aa") with [65; 97]%Z.
    change (JS.charCodes "BB") with [66; 66]%Z.
    cbn [Spec.rolling]. rewrite !truncate32_absorbs. f_equal. ring. }
  now rewrite Hsame.
Qed.

(* ================================================================== *)
(** ** Further properties: the structural checks *)
(* ================================================================== *)

Lemma prefix_append p : forall s,
  String.prefix p s = true <-> exists rest, s = p ++ rest.
Proof.
  induction p as [|a p IH]; intros s.
  - split; [intros _; now exists s | intros _; now destruct s].
  - destruct s as [|b s]; simpl.
    + split; [discriminate | intros [rest H]; discriminate].
    + destruct (ascii_dec a b) as [-> | Hne].
      * rewrite IH. split; intros [rest H]; exists rest; [now rewrite H | now inversion H].
      * split; [discriminate | intros [rest H]; inversion H; congruence].
Qed.

Lemma includes_substring sub : forall s,
  JS.includes s sub = true <-> exists before after, s = before ++ sub ++ after.
Proof.
  induction s as [|c s IH].
  - cbn [JS.includes]. rewrite orb_false_r, prefix_append. split.
    + intros [rest H]. exists EmptyString, rest. exact H.
    + intros [before [after H]]. destruct before; [now exists after | discriminate].
  - cbn [JS.includes]. rewrite orb_true_iff, prefix_append, IH. split.
    + intros [[rest H] | [before [after H]]].
      * exists EmptyString, rest. exact H.
      * exists (String c before), after. simpl. now rewrite H.
    + intros [before [after H]]. destruct before as [|b before].
      * left. now exists after.
      * right. simpl in H. inversion H. now exists before, after.
Qed.

(** X3.  The two structural checks accept exactly the texts in which the
    begin marker occurs somewhere and the end marker occurs somewhere:
    neither their order nor what surrounds them is looked at. *)
Theorem structural_checks_find_both_markers text :
  (isValidPGPPublicKey text = true <->
     (exists a b, text = a ++ "-----BEGIN PGP PUBLIC KEY BLOCK-----" ++ b) /\
     (exists a b, text = a ++ "-----END PGP PUBLIC KEY BLOCK-----" ++ b)) /\
  (isValidPGPMessage text = true <->
     (exists a b, text = a ++ "-----BEGIN PGP MESSAGE-----" ++ b) /\
     (exists a b, text = a ++ "-----END PGP MESSAGE-----" ++ b)).
Proof.
  unfold isValidPGPPublicKey, isValidPGPMessage.
  rewrite !andb_true_iff, !includes_substring. split; reflexivity.
Qed.

(* ================================================================== *)
(** ** Further properties: a [register] frame that is turned down *)
(* ================================================================== *)

(** X4.  A [register] frame whose key fails a precondition is answered by
    one [error] frame sent at the requester and nothing else: no random
    suffix is drawn, no socket is closed, the directory and the session set
    are as they were.  The key is first required to be a non-empty string,
    then to hold both public-key markers. *)
Theorem register_rejected_with_one_error readKey ws fields w :
  lookup "type" fields = VStr "register" ->
  let key := lookup "publicKey" fields in
  let answer := handleMessage readKey ws (VObj fields) w in
  (key = VUndefined \/ key = VStr "" \/ isString key = false ->
     answer = (Normal tt, replied w ws (error "Invalid public key format"))) /\
  (forall text, key = VStr text -> text <> "" ->
     JS.includes text "-----BEGIN PGP PUBLIC KEY BLOCK-----" = false \/
     JS.includes text "-----END PGP PUBLIC KEY BLOCK-----" = false ->
     answer = (Normal tt, replied w ws (error "Invalid PGP public key format"))).
Proof.
  intros Htype key answer.
  assert (Hstep : answer = handleRegister readKey ws (VObj fields) w).
  { unfold answer. rewrite handleMessage_cases. simpl. now rewrite Htype. }
  rewrite Hstep. unfold handleRegister, try_catch, registerBody, bind at 1. simpl.
  fold key. split.
  - intros Hkey.
    assert (Hbad : negb (truthy key) || negb (isString key) = true).
    { destruct Hkey as [-> | [-> | Hs]]; [reflexivity | reflexivity |].
      rewrite Hs. apply orb_true_r. }
    rewrite Hbad. now rewrite sendError_replied.
  - intros text Hkey Htext Hmarker. rewrite Hkey.
    unfold bind at 1, ret at 1. cbn beta iota. cbn [truthy isString].
    apply String.eqb_neq in Htext. rewrite Htext. cbn [negb orb].
    assert (Hinvalid : isValidPGPPublicKey text = false).
    { unfold isValidPGPPublicKey. destruct Hmarker as [-> | ->];
        [reflexivity | apply andb_false_r]. }
    rewrite Hinvalid. cbn [negb]. now rewrite sendError_replied.
Qed.

Lemma register_rejected_with_one_error_witness :
  handleMessage Sample.rejectKey 3 (VObj [("type", VStr "register")]) Sample.room =
    (Normal tt, replied Sample.room 3 (error "Invalid public key format")) /\
  handleMessage Sample.rejectKey 3
      (VObj [("type", VStr "register"); ("publicKey", VStr "ssh-rsa AAAA")]) Sample.room =
    (Normal tt, replied Sample.room 3 (error "Invalid PGP public key format")).
Proof.
  split.
  - apply (register_rejected_with_one_error Sample.rejectKey 3
             [("type", VStr "register")] Sample.room eq_refl).
    left. reflexivity.
  - apply (register_rejected_with_one_error Sample.rejectKey 3
             [("type", VStr "register"); ("publicKey", VStr "ssh-rsa AAAA")]
             Sample.room eq_refl) with (text := "ssh-rsa AAAA").
    + reflexivity.
    + discriminate.
    + left. reflexivity.
Defined.

(* ================================================================== *)
(** ** Further properties: the extracted profile *)
(* ================================================================== *)

Lemma append_not_empty (a b : string) : b <> "" -> a ++ b <> "".
Proof. destruct a; simpl; [trivial | discriminate]. Qed.

(** X5.  When the key and its primary user parse, the profile never has an
    empty name or an empty email, whatever the user id says, and its id is
    the fingerprint in upper case. *)
Theorem parsed_profile_is_never_blank readKey armored key userID w :
  readKey armored = Some key ->
  Key.getPrimaryUser key = Some userID ->
  exists profile w',
    extractUserProfile readKey armored w = (Normal profile, w') /\
    UserProfile.id profile = JS.toUpperCase (Key.getFingerprint key) /\
    UserProfile.name profile <> "" /\
    UserProfile.email profile <> "".
Proof.
  intros Hread Huser. rewrite extractUserProfile_cases, Hread, Huser.
  eexists. eexists. split; [reflexivity|]. split; [reflexivity|].
  cbn [UserProfile.name UserProfile.email]. unfold withDefaults, JS.falsy.
  set (found := match userID with
                | Some userIdString => parseUserId userIdString
                | None => (EmptyString, EmptyString)
                end).
  cbn [fst snd]. split.
  - destruct (fst found =? "") eqn:E; [discriminate|].
    now apply String.eqb_neq in E.
  - destruct (snd found =? "") eqn:E.
    + apply append_not_empty. discriminate.
    + now apply String.eqb_neq in E.
Qed.

Lemma parsed_profile_is_never_blank_witness :
  exists profile w',
    extractUserProfile (Sample.keyOf "   ") Sample.armored Sample.room =
      (Normal profile, w') /\
    UserProfile.id profile = "A1B2" /\
    UserProfile.name profile <> "" /\
    UserProfile.email profile <> "".
Proof.
  exact (parsed_profile_is_never_blank (Sample.keyOf "   ") Sample.armored
           (Key.make (Some (Some "   ")) "a1b2") (Some "   ") Sample.room
           eq_refl eq_refl).
Defined.

Lemma scanLines_unnamed lines :
  (forall line, In line lines -> namesUser line = false) ->
  forall name email, scanLines lines name email = (name, email).
Proof.
  induction lines as [|line rest IH]; intros Hnone name email; [reflexivity|].
  cbn [scanLines].
  assert (Hline : namesUser line = false) by (apply Hnone; now left).
  assert (Hrest : scanLines rest name email = (name, email)).
  { apply IH. intros l Hl. apply Hnone. now right. }
  unfold namesUser, mentionsUser in Hline.
  destruct (JS.includes line "Comment:" || JS.includes line "Name:"); [|exact Hrest].
  destruct (Regex.matchLine line) as [[g1 g2]|]; [discriminate | exact Hrest].
Qed.

Lemma scanLines_app before :
  forall after name email,
    scanLines (before ++ after) name email =
    scanLines after (fst (scanLines before name email)) (snd (scanLines before name email)).
Proof.
  induction before as [|line rest IH]; intros after name email; [reflexivity|].
  cbn [scanLines app].
  destruct (JS.includes line "Comment:" || JS.includes line "Name:"); [|apply IH].
  destruct (Regex.matchLine line) as [[g1 g2]|]; apply IH.
Qed.

(** X6.  When no line of the armored text both mentions [Comment:] or
    [Name:] and holds a [name <email>], the fallback profile is the default
    one: the name is ["User_"] and the random suffix, the email that name in
    lower case at [example.com], the id the hash of the whole text. *)
Theorem fallback_profile_defaults armored w :
  (forall line, In line (JS.split "010" armored) -> namesUser line = false) ->
  let name := "User_" ++ random w (draws w) in
  fallbackExtractUserProfile armored w =
  (Normal (UserProfile.make (generateUserIdFromKey armored) name
                            (JS.toLowerCase name ++ "@example.com")),
   with_draws (S (draws w)) w).
Proof.
  intros Hnone name. rewrite fallbackExtractUserProfile_cases. cbn zeta.
  now rewrite (scanLines_unnamed _ Hnone).
Qed.

Lemma fallback_profile_defaults_witness :
  fallbackExtractUserProfile
    ("-----BEGIN PGP PUBLIC KEY BLOCK-----" ++ String "010" "-----END PGP PUBLIC KEY BLOCK-----")
    Sample.room =
  (Normal (UserProfile.make "172fd724" "User_k3j9x0ab" "user_k3j9x0ab@example.com"),
   with_draws 1 Sample.room).
Proof.
  apply (fallback_profile_defaults
           ("-----BEGIN PGP PUBLIC KEY BLOCK-----" ++ String "010"
            "-----END PGP PUBLIC KEY BLOCK-----") Sample.room).
  intros line [<- | [<- | []]]; reflexivity.
Defined.

(** X7.  When several lines of the armored text name a user, the fallback
    profile takes name and email from the last of them, trimmed. *)
Theorem fallback_profile_takes_last_named_line armored before line after g1 g2 w :
  JS.split "010" armored = (before ++ line :: after)%list ->
  mentionsUser line = true ->
  Regex.matchLine line = Some (g1, g2) ->
  (forall later, In later after -> namesUser later = false) ->
  fst (fallbackExtractUserProfile armored w) =
  Normal (UserProfile.make (generateUserIdFromKey armored) (JS.trim g1) (JS.trim g2)).
Proof.
  intros Hsplit Hmentions Hmatch Hafter.
  rewrite fallbackExtractUserProfile_cases. cbn zeta. cbn [fst].
  rewrite Hsplit, scanLines_app. cbn [scanLines].
  unfold mentionsUser in Hmentions. rewrite Hmentions, Hmatch.
  now rewrite (scanLines_unnamed _ Hafter).
Qed.

Lemma fallback_profile_takes_last_named_line_witness :
  fst (fallbackExtractUserProfile
         ("Name: Al <al@x.org>" ++ String "010" ("Comment: Bob Stone <bob@y.org>"
          ++ String "010" "mQENBF")) Sample.room) =
  Normal (UserProfile.make "2e6fafcd" "Bob Stone" "bob@y.org").
Proof.
  apply (fallback_profile_takes_last_named_line
           ("Name: Al <al@x.org>" ++ String "010" ("Comment: Bob Stone <bob@y.org>"
            ++ String "010" "mQENBF"))
           ["Name: Al <al@x.org>"] "Comment: Bob Stone <bob@y.org>" ["mQENBF"]
           " Bob Stone " "bob@y.org" Sample.room eq_refl eq_refl eq_refl).
  intros later [<- | []]. reflexivity.
Defined.

(* ================================================================== *)
(** ** Further properties: what can add an entry or a member *)
(* ================================================================== *)

Section AddsNone.

Context {X : Type} (part : World -> list X).

Lemma addsNone_same {A} (m : M A) :
  (forall w, part (snd (m w)) = part w) -> AddsNone part m.
Proof. intros H w x. now rewrite H. Qed.

Lemma addsNone_bind {A B} (m : M A) (k : A -> M B) :
  AddsNone part m -> (forall a, AddsNone part (k a)) -> AddsNone part (bind m k).
Proof.
  intros Hm Hk w x. unfold bind. specialize (Hm w x).
  destruct (m w) as [[a|] w']; simpl in *; [|exact Hm].
  intros Hin. apply Hm. exact (Hk a w' x Hin).
Qed.

Lemma addsNone_try_catch {A} (body handler : M A) :
  AddsNone part body -> AddsNone part handler -> AddsNone part (try_catch body handler).
Proof.
  intros Hb Hh w x. unfold try_catch. specialize (Hb w x).
  destruct (body w) as [[a|] w']; simpl in *; [exact Hb|].
  intros Hin. apply Hb. exact (Hh w' x Hin).
Qed.

Lemma addsNone_orThrow {A} (o : option A) : AddsNone part (orThrow o).
Proof. destruct o; intros w x H; exact H. Qed.

End AddsNone.

Lemma ofRoom_users : ofRoom users.
Proof. intros w w' Hu _. exact Hu. Qed.

Lemma ofRoom_members : ofRoom members.
Proof. intros w w' _ Hs. unfold members. now rewrite Hs. Qed.

Section AddsNoneRoom.

Context {X : Type} (part : World -> list X).
Hypothesis room : ofRoom part.
Hypothesis users_delete_none : forall ws, AddsNone part (users_delete ws).
Hypothesis sessions_delete_none : forall ws, AddsNone part (sessions_delete ws).

Lemma addsNone_ws_send ws text : AddsNone part (ws_send ws text).
Proof.
  apply addsNone_same. intros w. apply room; unfold ws_send;
    now destruct (mem ws (dead w)).
Qed.

Lemma addsNone_sendError ws message : AddsNone part (sendError ws message).
Proof.
  apply addsNone_same. intros w. rewrite sendError_replied. now apply room.
Qed.

Lemma addsNone_broadcastFrom fuel :
  forall i text, AddsNone part (broadcastFrom fuel i text).
Proof.
  induction fuel as [|fuel IH]; intros i text w x; simpl; [trivial|].
  destruct (nth_error (sessions w) i) as [[s|]|]; [| apply IH | trivial].
  apply (addsNone_bind part); [|intros _; apply IH].
  apply addsNone_try_catch; [apply addsNone_ws_send|].
  apply addsNone_bind; [apply sessions_delete_none | intros _; apply users_delete_none].
Qed.

Lemma addsNone_broadcast message : AddsNone part (broadcast message).
Proof.
  unfold broadcast. apply addsNone_bind.
  - apply addsNone_same. intros w. now apply room.
  - intros text w x. apply addsNone_broadcastFrom.
Qed.

Lemma addsNone_broadcastUserList : AddsNone part broadcastUserList.
Proof.
  unfold broadcastUserList. apply addsNone_bind.
  - apply addsNone_same. intros w. now apply room.
  - intros values. apply addsNone_broadcast.
Qed.

Lemma addsNone_handleGetUsers ws : AddsNone part (handleGetUsers ws).
Proof.
  unfold handleGetUsers.
  apply addsNone_bind; [apply addsNone_same; intros w; now apply room|]. intros values.
  apply addsNone_bind; [apply addsNone_same; intros w; now apply room|]. intros response.
  apply addsNone_ws_send.
Qed.

Lemma addsNone_handleChatMessage ws message : AddsNone part (handleChatMessage ws message).
Proof.
  unfold handleChatMessage.
  apply addsNone_bind; [apply addsNone_same; intros w; now apply room|].
  intros [sender|]; [|apply addsNone_sendError].
  apply addsNone_bind; [apply addsNone_orThrow|]. intros data.
  destruct (negb (truthy data) || negb (isString data)); [apply addsNone_sendError|].
  destruct data; try (intros w x H; exact H).
  destruct (negb (isValidPGPMessage s)); [apply addsNone_sendError|].
  apply addsNone_bind; [apply addsNone_same; intros w; now apply room|].
  intros timestamp. apply addsNone_broadcast.
Qed.

Lemma addsNone_handleDisconnect ws : AddsNone part (handleDisconnect ws).
Proof.
  unfold handleDisconnect.
  apply addsNone_bind; [apply sessions_delete_none|]. intros _.
  apply addsNone_bind; [apply users_delete_none|]. intros _.
  apply addsNone_broadcastUserList.
Qed.

End AddsNoneRoom.

Lemma users_delete_entries ws : AddsNone users (users_delete ws).
Proof. intros w kv Hin. simpl in Hin. unfold map_delete in Hin. now apply filter_In in Hin. Qed.

Lemma sessions_delete_entries ws : AddsNone users (sessions_delete ws).
Proof. intros w kv Hin. exact Hin. Qed.

Lemma users_delete_members ws : AddsNone members (users_delete ws).
Proof. intros w s Hin. exact Hin. Qed.

Lemma sessions_delete_members ws : AddsNone members (sessions_delete ws).
Proof.
  intros w s Hin. unfold members in *. simpl in Hin.
  rewrite live_set_delete in Hin. now apply filter_In in Hin.
Qed.

Lemma afterEviction_incl ws id m kv : In kv (afterEviction ws id m) -> In kv m.
Proof.
  unfold afterEviction. destruct (evictee ws id m); [|trivial].
  unfold map_delete. intros Hin. now apply filter_In in Hin.
Qed.

(** The entries of the directory at the end of a [handleRegister] that
    passed both checks: the requester's new one, or one that was there. *)
Lemma handleRegister_entries readKey ws fields publicKey w profile w1 kv :
  lookup "publicKey" fields = VStr publicKey ->
  isValidPGPPublicKey publicKey = true ->
  extractUserProfile readKey publicKey w = (Normal profile, w1) ->
  In kv (users (snd (handleRegister readKey ws (VObj fields) w))) ->
  kv = (ws, entryOf profile publicKey ws) \/ In kv (users w).
Proof.
  intros Hkey Hvalid Hextract Hin.
  destruct (extractUserProfile_room _ _ _ _ _ Hextract) as [Hu _].
  rewrite (handleRegister_valid _ _ _ _ _ _ _ Hkey Hvalid Hextract) in Hin.
  set (w3 := bound ws profile publicKey w1) in *.
  assert (Hin3 : In kv (users w3)).
  { destruct (mem ws (dead w3)); [exact Hin|].
    exact (addsNone_broadcastUserList users ofRoom_users users_delete_entries
             sessions_delete_entries _ kv Hin). }
  unfold w3 in Hin3. rewrite users_bound in Hin3. destruct kv as [k v].
  apply in_map_set in Hin3. destruct Hin3 as [Heq | Hold]; [now left|].
  right. rewrite <- Hu. exact (afterEviction_incl _ _ _ _ Hold).
Qed.

Lemma handleRegister_members readKey ws message :
  AddsNone members (handleRegister readKey ws message).
Proof.
  intros w s Hin.
  destruct (handleRegister_cases readKey ws message w)
    as [[reason Hr] | [fields [publicKey [-> [Hkey Hvalid]]]]].
  - rewrite Hr in Hin. exact Hin.
  - destruct (extractUserProfile_returns readKey publicKey w) as [profile [w1 Hextract]].
    destruct (extractUserProfile_room _ _ _ _ _ Hextract) as [_ [Hs _]].
    rewrite (handleRegister_valid _ _ _ _ _ _ _ Hkey Hvalid Hextract) in Hin.
    set (w3 := bound ws profile publicKey w1) in *.
    assert (Hm3 : members w3 = members w).
    { unfold members, w3. now rewrite sessions_bound, Hs. }
    rewrite <- Hm3. destruct (mem ws (dead w3)); [exact Hin|].
    exact (addsNone_broadcastUserList members ofRoom_members users_delete_members
             sessions_delete_members _ s Hin).
Qed.

(** X8.  Only a [register] frame can add an entry to the directory, and
    only the hand-over of a socket can add a member to the session set:
    after any other event every entry, respectively every member, was there
    before. *)
Theorem only_register_and_upgrade_add JSON_parse readKey e w :
  let w' := snd (deliver JSON_parse readKey e w) in
  (isRegisterEvent JSON_parse e = false ->
     forall kv, In kv (users w') -> In kv (users w)) /\
  (isUpgrade e = false ->
     forall s, In s (live (sessions w')) -> In s (live (sessions w))).
Proof.
  assert (Hmessage : forall {X} (part : World -> list X) ws message,
             ofRoom part ->
             (forall s, AddsNone part (users_delete s)) ->
             (forall s, AddsNone part (sessions_delete s)) ->
             (match getProp message "type" with
              | Some type => isType "register" type = true ->
                             AddsNone part (handleRegister readKey ws message)
              | None => True
              end) ->
             AddsNone part (handleMessage readKey ws message)).
  { intros X part ws message Hroom Hud Hsd Hreg w0 x.
    rewrite handleMessage_cases.
    destruct (getProp message "type") as [type|]; [|trivial].
    destruct (isType "register" type); [now apply Hreg|].
    destruct (isType "getUsers" type); [now apply addsNone_handleGetUsers|].
    destruct (isType "message" type); [now apply addsNone_handleChatMessage|].
    destruct (toStringJS type); [now apply addsNone_sendError | trivial]. }
  assert (Hlistener : forall {X} (part : World -> list X) ws data,
             ofRoom part ->
             (forall s, AddsNone part (users_delete s)) ->
             (forall s, AddsNone part (sessions_delete s)) ->
             (forall message, JSON_parse data = Some message ->
                AddsNone part (handleMessage readKey ws message)) ->
             AddsNone part (onMessage JSON_parse readKey ws data)).
  { intros X part ws data Hroom Hud Hsd Hm w0 x. rewrite onMessage_cases.
    destruct (JSON_parse data) as [message|]; [|now apply addsNone_sendError].
    apply addsNone_try_catch; [now apply Hm | now apply addsNone_sendError]. }
  intros w'. unfold w'. split.
  - intros Hreg kv.
    destruct e as [ws | ws data | ws | ws | ws | now]; simpl.
    + trivial.
    + apply (Hlistener _ users ws data ofRoom_users users_delete_entries
               sessions_delete_entries).
      intros message Hparse.
      apply (Hmessage _ users ws message ofRoom_users users_delete_entries
               sessions_delete_entries).
      simpl in Hreg. rewrite Hparse in Hreg.
      destruct (getProp message "type") as [type|]; [|trivial].
      intros Htype. congruence.
    + now apply addsNone_handleDisconnect;
        [apply ofRoom_users | apply users_delete_entries | apply sessions_delete_entries].
    + now apply addsNone_handleDisconnect;
        [apply ofRoom_users | apply users_delete_entries | apply sessions_delete_entries].
    + trivial.
    + trivial.
  - intros Hup s. change (In s (members (snd (deliver JSON_parse readKey e w))) ->
                          In s (members w)).
    destruct e as [ws | ws data | ws | ws | ws | now]; simpl.
    + discriminate.
    + apply (Hlistener _ members ws data ofRoom_members users_delete_members
               sessions_delete_members).
      intros message Hparse.
      apply (Hmessage _ members ws message ofRoom_members users_delete_members
               sessions_delete_members).
      destruct (getProp message "type") as [type|]; [|trivial].
      intros _. apply handleRegister_members.
    + now apply addsNone_handleDisconnect;
        [apply ofRoom_members | apply users_delete_members | apply sessions_delete_members].
    + now apply addsNone_handleDisconnect;
        [apply ofRoom_members | apply users_delete_members | apply sessions_delete_members].
    + trivial.
    + trivial.
Qed.

Lemma only_register_and_upgrade_add_witness :
  let w' := snd (deliver Sample.decode Sample.rejectKey (MessageEvent 1 "chat") Sample.room) in
  (forall kv, In kv (users w') -> In kv (users Sample.room)) /\
  (forall s, In s (live (sessions w')) -> In s (live (sessions Sample.room))).
Proof.
  destruct (only_register_and_upgrade_add Sample.decode Sample.rejectKey
              (MessageEvent 1 "chat") Sample.room) as [Hentries Hmembers].
  split; [exact (Hentries eq_refl) | exact (Hmembers eq_refl)].
Defined.

(* ================================================================== *)
(** ** Further properties: what every reachable room satisfies *)
(* ================================================================== *)

Lemma extractUserProfile_id readKey armored w profile w1 :
  extractUserProfile readKey armored w = (Normal profile, w1) ->
  UserProfile.id profile = credentialId readKey armored.
Proof.
  rewrite extractUserProfile_cases. unfold credentialId.
  destruct (readKey armored) as [key|];
    [destruct (Key.getPrimaryUser key) as [userID|]|];
    try rewrite fallbackExtractUserProfile_cases;
    intros H; inversion H; reflexivity.
Qed.

Lemma handleRegister_sound readKey ws message w :
  Forall (entryOK readKey) (users w) ->
  Forall (entryOK readKey) (users (snd (handleRegister readKey ws message w))).
Proof.
  intros Hall.
  destruct (handleRegister_cases readKey ws message w)
    as [[reason Hr] | [fields [publicKey [-> [Hkey Hvalid]]]]].
  - now rewrite Hr.
  - destruct (extractUserProfile_returns readKey publicKey w) as [profile [w1 Hextract]].
    apply Forall_forall. intros kv Hin.
    destruct (handleRegister_entries _ _ _ _ _ _ _ _ Hkey Hvalid Hextract Hin)
      as [-> | Hold].
    + repeat split; try reflexivity; [exact Hvalid|].
      exact (extractUserProfile_id _ _ _ _ _ Hextract).
    + exact (proj1 (Forall_forall _ _) Hall kv Hold).
Qed.

Lemma deliver_sound JSON_parse readKey e w :
  Forall (entryOK readKey) (users w) ->
  Forall (entryOK readKey) (users (snd (deliver JSON_parse readKey e w))).
Proof.
  intros Hall.
  assert (Hkept : forall w0 w1,
             Forall (entryOK readKey) (users w0) ->
             (forall kv, In kv (users w1) -> In kv (users w0)) ->
             Forall (entryOK readKey) (users w1)).
  { intros w0 w1 H0 Hincl. apply Forall_forall. intros kv Hin.
    exact (proj1 (Forall_forall _ _) H0 kv (Hincl kv Hin)). }
  assert (Hfail : forall ws w0,
             Forall (entryOK readKey) (users w0) ->
             Forall (entryOK readKey)
                    (users (snd (sendError ws "Invalid JSON format" w0)))).
  { intros ws w0 H0. now rewrite sendError_replied. }
  destruct e as [ws | ws data | ws | ws | ws | now];
    try (apply (Hkept w _ Hall); intros kv;
         apply (addsNone_handleDisconnect users ofRoom_users users_delete_entries
                  sessions_delete_entries));
    try exact Hall.
  simpl. rewrite onMessage_cases.
  destruct (JSON_parse data) as [message|]; [|now apply Hfail].
  unfold try_catch. rewrite handleMessage_cases.
  destruct (getProp message "type") as [type|]; [|now apply Hfail].
  destruct (isType "register" type).
  { pose proof (handleRegister_sound readKey ws message w Hall) as Hreg.
    destruct (handleRegister readKey ws message w) as [[[]|] w']; simpl in *;
      [exact Hreg | now apply Hfail]. }
  assert (Hother : forall (m : M unit),
             AddsNone users m ->
             Forall (entryOK readKey)
               (users (snd (let (c, w') := m w in
                            match c with
                            | Normal a => (Normal a, w')
                            | Throw => sendError ws "Invalid JSON format" w'
                            end)))).
  { intros m Hm. pose proof (Hkept w (snd (m w)) Hall (Hm w)) as Hw.
    destruct (m w) as [[[]|] w']; simpl in *; [exact Hw | now apply Hfail]. }
  destruct (isType "getUsers" type).
  { apply Hother. apply addsNone_handleGetUsers. apply ofRoom_users. }
  destruct (isType "message" type).
  { apply Hother.
    apply addsNone_handleChatMessage;
      [apply ofRoom_users | apply users_delete_entries | apply sessions_delete_entries]. }
  destruct (toStringJS type) as [text|]; [|now apply Hfail].
  apply (Hother (sendError ws ("Unknown message type: " ++ text))).
  apply addsNone_sendError. apply ofRoom_users.
Qed.

Lemma run_sound JSON_parse readKey events :
  forall w, Forall (entryOK readKey) (users w) ->
            Forall (entryOK readKey) (users (run JSON_parse readKey events w)).
Proof.
  induction events as [|e rest IH]; intros w H; simpl; [exact H|].
  apply IH. now apply deliver_sound.
Qed.

(** X9.  In every room reached from a new one by any sequence of events,
    each socket is a member of the session set at most once and has at most
    one entry in the directory, no two entries carry the same id, and every
    entry is filed under its own socket, has the role [GUEST], keeps a key
    that passes the structural check, and carries the id of that key. *)
Theorem reachable_rooms_are_sound JSON_parse readKey events dead closeKills clock random :
  let w := run JSON_parse readKey events (newRoom dead closeKills clock random) in
  NoDup (live (sessions w)) /\
  NoDup (List.map fst (users w)) /\
  NoDup (userIds (users w)) /\
  Forall (entryOK readKey) (users w).
Proof.
  intros w.
  assert (Hwf : wellFormed w = true) by (unfold w; now apply run_wellFormed).
  apply wellFormed_iff in Hwf. destruct Hwf as [Hs [Hk [_ Hi]]].
  repeat split; try assumption.
  unfold w. apply run_sound. constructor.
Qed.

Lemma find_by_id_found id m user :
  find (fun user => UserInfo.id user =? id) (map_values m) = Some user ->
  exists k, In (k, user) m /\ UserInfo.id user = id.
Proof.
  intros Hfind. apply find_some in Hfind. destruct Hfind as [Hin Heq].
  apply String.eqb_eq in Heq. unfold map_values in Hin. apply in_map_iff in Hin.
  destruct Hin as [[k v] [Hv Hin]]. simpl in Hv. subst v. now exists k.
Qed.

(** X10.  In a well-formed room [findUserById] returns a user exactly when
    that user is the entry that carries the id, and returns nothing exactly
    when no entry carries it; it leaves the room as it is. *)
Theorem findUserById_finds_the_entry id user w :
  wellFormed w = true ->
  (findUserById id w = (Normal (Some user), w) <->
     In (UserInfo.webSocket user, user) (users w) /\ UserInfo.id user = id) /\
  (findUserById id w = (Normal None, w) <-> ~ In id (userIds (users w))).
Proof.
  intros Hwf. apply wellFormed_iff in Hwf. destruct Hwf as [_ [Hk [Hf Hi]]].
  assert (Hrun : findUserById id w =
                 (Normal (find (fun user => UserInfo.id user =? id) (map_values (users w))), w))
    by reflexivity.
  rewrite Hrun. split; split.
  - intros H. inversion H as [Hfind].
    destruct (find_by_id_found _ _ _ Hfind) as [k [Hin Hid]].
    rewrite (Hf k user Hin). now split.
  - intros [Hin Hid].
    destruct (find _ (map_values (users w))) as [found|] eqn:Hfind.
    + destruct (find_by_id_found _ _ _ Hfind) as [k [Hin' Hid']].
      assert ((k, found) = (UserInfo.webSocket user, user)) as E.
      { apply (NoDup_map_same (fun kv => UserInfo.id (snd kv)) (users w));
          try assumption. simpl. congruence. }
      now inversion E.
    + exfalso. assert (In user (map_values (users w))) as Hv.
      { unfold map_values. apply in_map_iff.
        now exists (UserInfo.webSocket user, user). }
      pose proof (find_none _ _ Hfind user Hv) as Hno. simpl in Hno.
      apply String.eqb_neq in Hno. contradiction.
  - intros H. inversion H as [Hfind]. intros Hin.
    unfold userIds in Hin. apply in_map_iff in Hin. destruct Hin as [[k v] [Hid Hin]].
    assert (In v (map_values (users w))) as Hv.
    { unfold map_values. apply in_map_iff. now exists (k, v). }
    pose proof (find_none _ _ Hfind v Hv) as Hno. simpl in Hno, Hid.
    apply String.eqb_neq in Hno. contradiction.
  - intros Hnone.
    destruct (find _ (map_values (users w))) as [found|] eqn:Hfind; [|reflexivity].
    exfalso. destruct (find_by_id_found _ _ _ Hfind) as [k [Hin Hid]].
    apply Hnone. unfold userIds. apply in_map_iff. now exists (k, found).
Qed.

Lemma findUserById_finds_the_entry_witness :
  wellFormed Sample2.room = true /\
  findUserById "C3D4" Sample2.room = (Normal (Some Sample2.bob), Sample2.room) /\
  findUserById "FFFF" Sample2.room = (Normal None, Sample2.room).
Proof.
  split; [reflexivity|].
  destruct (findUserById_finds_the_entry "C3D4" Sample2.bob Sample2.room eq_refl)
    as [[_ Hfound] _].
  destruct (findUserById_finds_the_entry "FFFF" Sample2.bob Sample2.room eq_refl)
    as [_ [_ Hnone]].
  split.
  - apply Hfound. split; [right; left; reflexivity | reflexivity].
  - apply Hnone. simpl. intros [H | [H | []]]; discriminate.
Defined.

(* ================================================================== *)
(** ** Further properties: disconnecting *)
(* ================================================================== *)

Lemma handleDisconnect_broadcast ws w :
  wellFormed w = true ->
  let left := with_users (map_delete ws (users w))
                (with_sessions (set_delete ws (sessions w)) w) in
  handleDisconnect ws w =
  (Normal tt,
   broadcasted (userList (roster left)) (with_stringified (S (stringified w)) left)).
Proof.
  intros Hwf left. pose proof (wellFormed_sessions w Hwf) as Hnd.
  unfold handleDisconnect, bind, sessions_delete, users_delete.
  rewrite broadcastUserList_broadcast. fold left.
  change (S (stringified w)) with (S (stringified left)).
  apply broadcast_broadcasted.
  unfold left. simpl. rewrite live_set_delete. now apply NoDup_filter.
Qed.

Lemma map_get_map_delete_other ws s m :
  s <> ws -> map_get s (map_delete ws m) = map_get s m.
Proof.
  intros Hne. unfold map_delete. induction m as [|[k v] m IH]; simpl; [reflexivity|].
  destruct (Nat.eqb k ws) eqn:E; simpl.
  - apply Nat.eqb_eq in E. subst k.
    now rewrite (proj2 (Nat.eqb_neq ws s)) by congruence.
  - destruct (Nat.eqb k s); [reflexivity | exact IH].
Qed.

Lemma mem_failing s dead targets :
  mem s (failing dead targets) = mem s dead && mem s targets.
Proof.
  destruct (mem s (failing dead targets)) eqn:E.
  - apply mem_In in E. unfold failing in E. apply filter_In in E.
    destruct E as [Ht Hd]. rewrite Hd. symmetry. now apply mem_In.
  - destruct (mem s dead) eqn:Hd; [|reflexivity].
    destruct (mem s targets) eqn:Ht; [|reflexivity].
    apply mem_In in Ht. assert (In s (failing dead targets)) as Hin.
    { unfold failing. apply filter_In. now split. }
    apply mem_In in Hin. congruence.
Qed.

(** X11.  The [close] or [error] event of a socket removes it from the
    session set and from the directory, registered or not, and then sends
    the roster without it at every remaining member, once each.  A socket
    at which [send] does not throw keeps its membership and its entry. *)
Theorem disconnect_removes_and_announces ws w :
  wellFormed w = true ->
  let remaining := filter (fun s => negb (Nat.eqb s ws)) (live (sessions w)) in
  let frame := userList (List.map rosterEntry (map_values (map_delete ws (users w)))) in
  exists w',
    handleDisconnect ws w = (Normal tt, w') /\
    calls w' = (calls w ++ List.map (attempt w frame) remaining)%list /\
    ~ In ws (live (sessions w')) /\
    map_get ws (users w') = None /\
    (forall s, s <> ws -> mem s (dead w) = false ->
       (In s (live (sessions w')) <-> In s (live (sessions w))) /\
       map_get s (users w') = map_get s (users w)).
Proof.
  intros Hwf remaining frame.
  pose proof (handleDisconnect_broadcast ws w Hwf) as Hrun. cbn zeta in Hrun.
  eexists. split; [exact Hrun|].
  cbn [broadcasted calls sessions users with_stringified with_users with_sessions dead].
  split; [|split; [|split]].
  - unfold remaining. now rewrite <- live_set_delete.
  - rewrite live_heal, live_set_delete. intros Hin.
    apply filter_In in Hin. destruct Hin as [Hin _].
    apply filter_In in Hin. destruct Hin as [_ Hin].
    now rewrite Nat.eqb_refl in Hin.
  - rewrite map_get_withoutKeys, map_get_map_delete. now destruct (mem ws _).
  - intros s Hne Halive. split.
    + rewrite live_heal, live_set_delete, !filter_In, Halive.
      apply Nat.eqb_neq in Hne. rewrite Hne. simpl. tauto.
    + rewrite map_get_withoutKeys, mem_failing, Halive. simpl.
      now apply map_get_map_delete_other.
Qed.

Lemma disconnect_removes_and_announces_witness :
  wellFormed Sample2.room = true /\
  exists w',
    handleDisconnect 1 Sample2.room = (Normal tt, w') /\
    calls w' = [SendThrew 2 (userList [rosterEntry Sample2.bob]);
                Sent 3 (userList [rosterEntry Sample2.bob])] /\
    ~ In 1 (live (sessions w')) /\
    map_get 1 (users w') = None /\
    map_get 3 (users w') = Some Sample2.bob.
Proof.
  split; [reflexivity|].
  destruct (disconnect_removes_and_announces 1 Sample2.room eq_refl)
    as [w' [Hrun [Hcalls [Hgone [Hnone Hkept]]]]].
  exists w'. repeat split; try assumption.
  now destruct (Hkept 3 ltac:(discriminate) eq_refl) as [_ ->].
Defined.

Lemma set_delete_heal ws dead l :
  set_delete ws (heal dead (set_delete ws l)) = heal dead (set_delete ws l).
Proof.
  apply set_delete_absent. rewrite live_heal, live_set_delete.
  intros Hin. apply filter_In in Hin. destruct Hin as [Hin _].
  apply filter_In in Hin. destruct Hin as [_ Hin]. now rewrite Nat.eqb_refl in Hin.
Qed.

Lemma heal_heal dead l : heal dead (heal dead l) = heal dead l.
Proof.
  unfold heal. rewrite map_map. apply map_ext. intros [s|]; [|reflexivity].
  destruct (mem s dead) eqn:E; [reflexivity | now rewrite E].
Qed.

Lemma failing_healed dead l : failing dead (live (heal dead l)) = [].
Proof.
  rewrite live_heal. unfold failing. induction (live l) as [|s rest IH]; [reflexivity|].
  simpl. destruct (mem s dead) eqn:E; simpl; [exact IH | now rewrite E].
Qed.

Lemma map_delete_absent ws m : map_get ws m = None -> map_delete ws m = m.
Proof.
  unfold map_delete. induction m as [|[k v] m IH]; simpl; [reflexivity|].
  destruct (Nat.eqb k ws); [discriminate|]. intros H. simpl. f_equal. now apply IH.
Qed.

(** X12.  Removal is idempotent: a second [close] or [error] event of the
    same socket, with the same sockets accepting sends, leaves the session
    set and the directory exactly as the first one left them. *)
Theorem disconnect_twice_is_disconnect_once ws w :
  wellFormed w = true ->
  let w1 := snd (handleDisconnect ws w) in
  let w2 := snd (handleDisconnect ws w1) in
  users w2 = users w1 /\ sessions w2 = sessions w1.
Proof.
  intros Hwf w1 w2.
  assert (Hwf1 : wellFormed w1 = true) by now apply preserves_handleDisconnect.
  pose proof (handleDisconnect_broadcast ws w Hwf) as H1. cbn zeta in H1.
  pose proof (handleDisconnect_broadcast ws w1 Hwf1) as H2. cbn zeta in H2.
  assert (Hs1 : sessions w1 = heal (dead w) (set_delete ws (sessions w))).
  { unfold w1. now rewrite H1. }
  assert (Hu1 : users w1 =
                withoutKeys (failing (dead w) (live (set_delete ws (sessions w))))
                            (map_delete ws (users w))).
  { unfold w1. now rewrite H1. }
  assert (Hd1 : dead w1 = dead w).
  { unfold w1. now rewrite H1. }
  assert (Hs2 : sessions w2 = heal (dead w1) (set_delete ws (sessions w1))).
  { unfold w2. now rewrite H2. }
  assert (Hu2 : users w2 =
                withoutKeys (failing (dead w1) (live (set_delete ws (sessions w1))))
                            (map_delete ws (users w1))).
  { unfold w2. now rewrite H2. }
  split.
  - rewrite Hu2, Hd1, Hs1, set_delete_heal, failing_healed, withoutKeys_nil.
    apply map_delete_absent. rewrite Hu1, map_get_withoutKeys, map_get_map_delete.
    now destruct (mem ws _).
  - now rewrite Hs2, Hd1, Hs1, set_delete_heal, heal_heal.
Qed.

Lemma disconnect_twice_is_disconnect_once_witness :
  wellFormed Sample2.room = true /\
  let w1 := snd (handleDisconnect 1 Sample2.room) in
  let w2 := snd (handleDisconnect 1 w1) in
  users w2 = users w1 /\ sessions w2 = sessions w1.
Proof.
  split; [reflexivity|].
  exact (disconnect_twice_is_disconnect_once 1 Sample2.room eq_refl).
Defined.

(* ================================================================== *)
(** ** Further properties: after a registration *)
(* ================================================================== *)

Lemma map_get_unique k v m :
  NoDup (List.map fst m) -> In (k, v) m -> map_get k m = Some v.
Proof.
  induction m as [|[k0 v0] m IH]; simpl; intros Hnd Hin; [contradiction|].
  inversion Hnd as [|? ? Hx Hl]; subst.
  destruct Hin as [Heq | Hin].
  - inversion Heq; subst. now rewrite Nat.eqb_refl.
  - destruct (Nat.eqb k0 k) eqn:E; [|now apply IH].
    apply Nat.eqb_eq in E. subst k0. exfalso. apply Hx.
    apply in_map_iff. now exists (k, v).
Qed.

(** X13.  Once a socket has registered, [getUsers] from any socket is
    answered at that socket alone with a roster that has one line per entry
    of the directory, the registrant's among them with the id, name and
    email of its profile and the key it submitted; the room is not
    changed. *)
Theorem registrant_is_listed readKey ws fields publicKey profile w1 asker w :
  wellFormed w = true ->
  lookup "publicKey" fields = VStr publicKey ->
  isValidPGPPublicKey publicKey = true ->
  extractUserProfile readKey publicKey w = (Normal profile, w1) ->
  let w' := snd (handleRegister readKey ws (VObj fields) w) in
  let listed := RosterEntry.make (UserProfile.id profile) (UserProfile.name profile)
                                 (UserProfile.email profile) publicKey in
  snd (handleGetUsers asker w') = replied w' asker (userList (roster w')) /\
  In listed (roster w') /\
  List.length (roster w') = List.length (users w').
Proof.
  intros Hwf Hkey Hvalid Hextract w' listed.
  destruct (handleRegister_binds readKey ws fields publicKey w profile w1
              Hwf Hkey Hvalid Hextract) as [_ Hbound].
  fold w' in Hbound. split; [now rewrite handleGetUsers_replied|]. split.
  - apply map_get_In in Hbound. unfold roster, map_values.
    apply in_map_iff. exists (entryOf profile publicKey ws). split; [reflexivity|].
    apply in_map_iff. now exists (ws, entryOf profile publicKey ws).
  - unfold roster, map_values. now rewrite !length_map.
Qed.

Lemma registrant_is_listed_witness :
  wellFormed Sample.room = true /\
  let w' := snd (handleRegister Sample.rejectKey 3 (VObj Sample.registerFrame) Sample.room) in
  snd (handleGetUsers 1 w') = replied w' 1 (userList (roster w')) /\
  In (RosterEntry.make "1a2540f6" "Bob Stone" "bob@y.org" Sample.armored) (roster w') /\
  List.length (roster w') = List.length (users w').
Proof.
  split; [reflexivity|].
  exact (registrant_is_listed Sample.rejectKey 3 Sample.registerFrame Sample.armored
           (UserProfile.make "1a2540f6" "Bob Stone" "bob@y.org")
           (with_draws 1 Sample.room) 1 Sample.room
           eq_refl eq_refl eq_refl eq_refl).
Defined.

(** X14.  Once a socket has registered with a key, a chat frame from it is
    relayed, and the [senderId] of the relayed frame is the id of that key:
    the fingerprint when the key parses, the fallback hash when not. *)
Theorem registrant_relays_under_key_id readKey ws fields publicKey profile w1 chat data w :
  wellFormed w = true ->
  lookup "publicKey" fields = VStr publicKey ->
  isValidPGPPublicKey publicKey = true ->
  extractUserProfile readKey publicKey w = (Normal profile, w1) ->
  lookup "type" chat = VStr "message" ->
  lookup "encryptedData" chat = VStr data ->
  isValidPGPMessage data = true ->
  let w' := snd (handleRegister readKey ws (VObj fields) w) in
  let frame := encryptedMessage (credentialId readKey publicKey) data (clock w') in
  exists w'',
    handleMessage readKey ws (VObj chat) w' = (Normal tt, w'') /\
    calls w'' = (calls w' ++ List.map (attempt w' frame) (live (sessions w')))%list.
Proof.
  intros Hwf Hkey Hvalid Hextract Htype Hdata Hmsg w' frame.
  destruct (handleRegister_binds readKey ws fields publicKey w profile w1
              Hwf Hkey Hvalid Hextract) as [_ Hbound].
  fold w' in Hbound.
  assert (Hwf' : wellFormed w' = true) by now apply preserves_handleRegister.
  pose proof (wellFormed_sessions w' Hwf') as Hnd.
  exists (broadcasted frame (with_stringified (S (stringified w')) w')).
  split; [|reflexivity].
  rewrite handleMessage_message, handleChatMessage_cases by assumption.
  rewrite Hbound, Hdata. cbn zeta. cbn [truthy isString].
  rewrite (valid_message_not_empty data Hmsg), Hmsg. cbn [negb orb].
  cbn [UserInfo.id entryOf].
  rewrite (extractUserProfile_id _ _ _ _ _ Hextract).
  now apply broadcast_broadcasted.
Qed.

Lemma registrant_relays_under_key_id_witness :
  wellFormed Sample.room = true /\
  let w' := snd (handleRegister Sample.rejectKey 3 (VObj Sample.registerFrame) Sample.room) in
  let frame := encryptedMessage "1a2540f6" Sample.ciphertext (clock w') in
  exists w'',
    handleMessage Sample.rejectKey 3 (VObj Sample.chatFrame) w' = (Normal tt, w'') /\
    calls w'' = (calls w' ++ List.map (attempt w' frame) (live (sessions w')))%list.
Proof.
  split; [reflexivity|].
  exact (registrant_relays_under_key_id Sample.rejectKey 3 Sample.registerFrame
           Sample.armored (UserProfile.make "1a2540f6" "Bob Stone" "bob@y.org")
           (with_draws 1 Sample.room) Sample.chatFrame Sample.ciphertext Sample.room
           eq_refl eq_refl eq_refl eq_refl eq_refl eq_refl eq_refl).
Defined.

Lemma length_map_set_present ws u m :
  map_get ws m <> None -> List.length (map_set ws u m) = List.length m.
Proof.
  induction m as [|[k v] m IH]; simpl; [congruence|].
  destruct (Nat.eqb k ws); simpl; [reflexivity|]. intros H. f_equal. now apply IH.
Qed.

Lemma length_filter_le {A} (f : A -> bool) (l : list A) :
  List.length (filter f l) <= List.length l.
Proof. induction l as [|x l IH]; simpl; [lia|]. destruct (f x); simpl; lia. Qed.

(** X15.  A socket that registers again with a key of another id takes the
    new identity in place of the old one: its entry is the new one, no
    entry carries the old id any more, and the directory does not grow. *)
Theorem reregistration_replaces_identity readKey ws fields publicKey profile w1 previous w :
  wellFormed w = true ->
  lookup "publicKey" fields = VStr publicKey ->
  isValidPGPPublicKey publicKey = true ->
  extractUserProfile readKey publicKey w = (Normal profile, w1) ->
  map_get ws (users w) = Some previous ->
  UserInfo.id previous <> UserProfile.id profile ->
  let w' := snd (handleRegister readKey ws (VObj fields) w) in
  map_get ws (users w') = Some (entryOf profile publicKey ws) /\
  ~ In (UserInfo.id previous) (userIds (users w')) /\
  List.length (users w') <= List.length (users w).
Proof.
  intros Hwf Hkey Hvalid Hextract Hprev Hdiff w'.
  destruct (handleRegister_binds readKey ws fields publicKey w profile w1
              Hwf Hkey Hvalid Hextract) as [Husers Hbound].
  fold w' in Husers, Hbound.
  destruct (extractUserProfile_room _ _ _ _ _ Hextract) as [Hu _].
  assert (Hwf' : wellFormed w' = true) by now apply preserves_handleRegister.
  apply wellFormed_iff in Hwf'. destruct Hwf' as [_ [Hk' _]].
  pose proof (proj1 (wellFormed_iff w) Hwf) as [_ [Hk [Hf Hi]]].
  split; [exact Hbound|]. split.
  - intros Hin. unfold userIds in Hin. apply in_map_iff in Hin.
    destruct Hin as [[k v] [Hid Hin]]. simpl in Hid.
    destruct (handleRegister_entries _ _ _ _ _ _ _ _ Hkey Hvalid Hextract Hin)
      as [Heq | Hold].
    + inversion Heq; subst. simpl in Hid. congruence.
    + assert ((k, v) = (ws, previous)) as E.
      { apply (NoDup_map_same (fun kv => UserInfo.id (snd kv)) (users w));
          [exact Hi | exact Hold | now apply map_get_In | exact Hid]. }
      inversion E; subst.
      rewrite (map_get_unique _ _ _ Hk' Hin) in Hbound.
      inversion Hbound as [Hsame]. apply Hdiff. now rewrite Hsame.
  - assert (Hlen3 : List.length (users (bound ws profile publicKey w1)) <=
                    List.length (users w)).
    { rewrite users_bound, Hu. unfold afterEviction.
      destruct (evictee ws (UserProfile.id profile) (users w)) as [old|] eqn:Hev.
      - assert (Hne : old <> ws).
        { unfold evictee in Hev.
          destruct (find _ (map_values (users w))) as [existing|]; [|discriminate].
          destruct (Nat.eqb (UserInfo.webSocket existing) ws) eqn:E; [discriminate|].
          inversion Hev; subst. now apply Nat.eqb_neq. }
        rewrite length_map_set_present.
        + apply length_filter_le.
        + rewrite map_get_map_delete_other by congruence. congruence.
      - rewrite length_map_set_present; [lia | congruence]. }
    rewrite Husers. destruct (mem ws _); [exact Hlen3|].
    unfold withoutKeys. etransitivity; [apply length_filter_le | exact Hlen3].
Qed.

Lemma reregistration_replaces_identity_witness :
  wellFormed Sample.room = true /\
  let w' := snd (handleRegister Sample.rejectKey 1 (VObj Sample.registerFrame) Sample.room) in
  map_get 1 (users w') =
    Some (entryOf (UserProfile.make "1a2540f6" "Bob Stone" "bob@y.org") Sample.armored 1) /\
  ~ In "A1B2" (userIds (users w')) /\
  List.length (users w') <= 1.
Proof.
  split; [reflexivity|].
  apply (reregistration_replaces_identity Sample.rejectKey 1 Sample.registerFrame
           Sample.armored (UserProfile.make "1a2540f6" "Bob Stone" "bob@y.org")
           (with_draws 1 Sample.room) Sample.alice Sample.room);
    try reflexivity.
  discriminate.
Defined.

(** X16.  The roster a rebroadcast sends is the directory as it was before
    the pass: when [send] throws at a registered member, the pass deletes
    its entry, yet the frame the other members were sent in that pass lists
    it, and the pass sends no second roster. *)
Theorem roster_lists_members_the_pass_removes s entry w :
  wellFormed w = true ->
  map_get s (users w) = Some entry ->
  In s (live (sessions w)) ->
  mem s (dead w) = true ->
  let w' := snd (broadcastUserList w) in
  calls w' = (calls w ++ List.map (attempt w (userList (roster w))) (live (sessions w)))%list /\
  In (rosterEntry entry) (roster w) /\
  map_get s (users w') = None /\
  ~ In s (live (sessions w')).
Proof.
  intros Hwf Hentry Hmember Hdead w'.
  pose proof (wellFormed_sessions w Hwf) as Hnd.
  unfold w'. rewrite broadcastUserList_broadcast, (broadcast_broadcasted _ _ Hnd).
  cbn [snd broadcasted calls users sessions with_stringified dead].
  split; [reflexivity|]. split; [|split].
  - apply map_get_In in Hentry. unfold roster, map_values.
    apply in_map_iff. exists entry. split; [reflexivity|].
    apply in_map_iff. now exists (s, entry).
  - rewrite map_get_withoutKeys, mem_failing, Hdead.
    now rewrite (proj2 (mem_In s (live (sessions w))) Hmember).
  - rewrite live_heal. intros Hin. apply filter_In in Hin.
    destruct Hin as [_ Hin]. now rewrite Hdead in Hin.
Qed.

Lemma roster_lists_members_the_pass_removes_witness :
  let w := with_dead [1] Sample.room in
  let w' := snd (broadcastUserList w) in
  calls w' = [SendThrew 1 (userList [rosterEntry Sample.alice]);
              Sent 2 (userList [rosterEntry Sample.alice]);
              Sent 3 (userList [rosterEntry Sample.alice])] /\
  In (rosterEntry Sample.alice) (roster w) /\
  map_get 1 (users w') = None /\
  ~ In 1 (live (sessions w')).
Proof.
  exact (roster_lists_members_the_pass_removes 1 Sample.alice (with_dead [1] Sample.room)
           eq_refl eq_refl ltac:(left; reflexivity) eq_refl).
Defined.

(* ================================================================== *)
(** ** Further properties: the worker's routes and the upgrade *)
(* ================================================================== *)

Lemma stripPrefix_append p s : Index.stripPrefix p (p ++ s) = Some s.
Proof.
  induction p as [|a p IH]; simpl; [now destruct s|].
  now rewrite Ascii.eqb_refl.
Qed.

Lemma stripPrefix_Some p s rest : Index.stripPrefix p s = Some rest -> s = p ++ rest.
Proof.
  revert s. induction p as [|a p IH]; intros s H.
  - destruct s; simpl in H; now inversion H.
  - destruct s as [|b s]; simpl in H; [discriminate|].
    destruct (Ascii.eqb a b) eqn:E; [|discriminate].
    apply Ascii.eqb_eq in E. subst b. simpl. f_equal. now apply IH.
Qed.

Lemma takeClass_Some n cls s taken rest :
  Index.takeClass n cls s = Some (taken, rest) ->
  s = taken ++ rest /\ String.length taken = n /\
  forallb cls (list_ascii_of_string taken) = true.
Proof.
  revert s taken. induction n as [|n IH]; intros s taken H; simpl in H.
  - inversion H; subst. now repeat split.
  - destruct s as [|c s]; [discriminate|].
    destruct (cls c) eqn:Hc; [|discriminate].
    destruct (Index.takeClass n cls s) as [[t r]|] eqn:Ht; [|discriminate].
    inversion H; subst. destruct (IH _ _ Ht) as [Hs [Hl Hall]].
    simpl. rewrite Hc, Hall, Hl, Hs. now repeat split.
Qed.

Lemma takeClass_append cls taken rest :
  forallb cls (list_ascii_of_string taken) = true ->
  Index.takeClass (String.length taken) cls (taken ++ rest) = Some (taken, rest).
Proof.
  induction taken as [|c t IH]; simpl; intros H; [reflexivity|].
  apply andb_true_iff in H. destruct H as [Hc Ht].
  now rewrite Hc, (IH Ht).
Qed.

Lemma matchRoomPath_iff pathname roomId :
  Index.matchRoomPath pathname = Some roomId <->
  pathname = "/api/room/" ++ roomId ++ "/websocket" /\
  String.length roomId = 64 /\
  forallb Index.isAlnum (list_ascii_of_string roomId) = true.
Proof.
  unfold Index.matchRoomPath. split.
  - destruct (Index.stripPrefix "/api/room/" pathname) as [rest|] eqn:Hp; [|discriminate].
    destruct (Index.takeClass 64 Index.isAlnum rest) as [[taken tail]|] eqn:Ht;
      [|discriminate].
    destruct (tail =? "/websocket") eqn:Hw; [|discriminate].
    intros H. inversion H; subst taken.
    apply String.eqb_eq in Hw. subst tail.
    apply stripPrefix_Some in Hp. apply takeClass_Some in Ht.
    destruct Ht as [Hr [Hl Hall]]. subst rest. now repeat split.
  - intros [Hp [Hl Hall]]. subst pathname.
    rewrite stripPrefix_append, <- Hl, takeClass_append by assumption.
    now rewrite String.eqb_refl.
Qed.

Lemma charAt_chars k :
  k < 62 ->
  exists c, Index.charAt Index.chars k = String c EmptyString /\ Index.isAlnum c = true.
Proof.
  intros Hk.
  assert (Hall : forallb (fun k => match Index.charAt Index.chars k with
                                   | String c EmptyString => Index.isAlnum c
                                   | _ => false
                                   end) (seq 0 62) = true) by reflexivity.
  rewrite forallb_forall in Hall.
  specialize (Hall k ltac:(apply in_seq; lia)).
  destruct (Index.charAt Index.chars k) as [|c [|? ?]]; try discriminate.
  now exists c.
Qed.

Lemma generateRoomIdFrom_shape steps i indices result :
  (forall j, i <= j < i + steps -> indices j < 62) ->
  forallb Index.isAlnum (list_ascii_of_string result) = true ->
  String.length (Index.generateRoomIdFrom steps i indices result) =
    String.length result + steps /\
  forallb Index.isAlnum
    (list_ascii_of_string (Index.generateRoomIdFrom steps i indices result)) = true.
Proof.
  revert i result. induction steps as [|steps IH]; intros i result Hidx Hres; simpl.
  - split; [lia | assumption].
  - destruct (charAt_chars (indices i) (Hidx i ltac:(lia))) as [c [Hc Hal]].
    rewrite Hc.
    destruct (IH (S i) (result ++ String c EmptyString)) as [Hl Hall].
    + intros j Hj. apply Hidx. lia.
    + rewrite list_ascii_of_append, forallb_app, Hres. simpl. now rewrite Hal.
    + split; [|exact Hall]. rewrite Hl, length_append_string. simpl. lia.
Qed.

Lemma generateRoomId_shape indices :
  (forall i, i < 64 -> indices i < 62) ->
  String.length (Index.generateRoomId indices) = 64 /\
  forallb Index.isAlnum (list_ascii_of_string (Index.generateRoomId indices)) = true.
Proof.
  intros Hidx. unfold Index.generateRoomId.
  destruct (generateRoomIdFrom_shape 64 0 indices EmptyString) as [Hl Hall].
  - intros j Hj. apply Hidx. lia.
  - reflexivity.
  - split; [exact Hl | exact Hall].
Qed.

Lemma wantsWebSocket_iff request :
  wantsWebSocket request = true <-> Request.upgrade request = Some "websocket".
Proof.
  unfold wantsWebSocket. destruct (Request.upgrade request) as [value|].
  - rewrite String.eqb_eq. split; congruence.
  - split; discriminate.
Qed.

Lemma fetch_forwards_iff indices request roomId :
  Index.fetch indices request = Index.Forward roomId <->
  Request.method request <> "OPTIONS" /\
  Request.pathname request = "/api/room/" ++ roomId ++ "/websocket" /\
  String.length roomId = 64 /\
  forallb Index.isAlnum (list_ascii_of_string roomId) = true /\
  Request.upgrade request = Some "websocket".
Proof.
  unfold Index.fetch. split.
  - destruct (Request.method request =? "OPTIONS") eqn:Ho; [discriminate|].
    destruct ((Request.pathname request =? "/api/room") &&
              (Request.method request =? "POST")); [discriminate|].
    destruct (Index.matchRoomPath (Request.pathname request)) as [id|] eqn:Hm;
      [|discriminate].
    destruct (wantsWebSocket request) eqn:Hw; [|discriminate].
    intros H. inversion H; subst id.
    apply matchRoomPath_iff in Hm. destruct Hm as [Hp [Hl Hall]].
    apply String.eqb_neq in Ho. apply wantsWebSocket_iff in Hw.
    now repeat split.
  - intros [Ho [Hp [Hl [Hall Hu]]]].
    apply String.eqb_neq in Ho. rewrite Ho.
    assert (Hm : Index.matchRoomPath (Request.pathname request) = Some roomId)
      by now apply matchRoomPath_iff.
    rewrite Hm, (proj2 (wantsWebSocket_iff request) Hu).
    rewrite Hp. reflexivity.
Qed.

(** X17.  The worker hands a request to a room exactly when the request is
    no preflight, asks for the websocket upgrade and its path is
    [/api/room/<id>/websocket] with an id of 64 letters and digits; the
    room it is handed to is the one of that id. *)
Theorem worker_forwards_exactly_room_upgrades indices request roomId :
  Index.fetch indices request = Index.Forward roomId <->
  Request.method request <> "OPTIONS" /\
  Request.pathname request = "/api/room/" ++ roomId ++ "/websocket" /\
  String.length roomId = 64 /\
  forallb Index.isAlnum (list_ascii_of_string roomId) = true /\
  Request.upgrade request = Some "websocket".
Proof. apply fetch_forwards_iff. Qed.

(** X18.  An id the worker creates is one it routes: when every draw is an
    index of the alphabet, [POST /api/room] answers 200 with an id of 64
    letters and digits, and an upgrade request for the websocket path of
    that id is handed to the room of that id. *)
Theorem created_room_is_routable indices create join :
  (forall i, i < 64 -> indices i < 62) ->
  Request.method create = "POST" ->
  Request.pathname create = "/api/room" ->
  Request.method join <> "OPTIONS" ->
  Request.upgrade join = Some "websocket" ->
  exists roomId,
    Index.fetch indices create =
      Index.Respond (Response.make 200 (Some roomId)
                       [("Content-Type", "text/plain");
                        ("Access-Control-Allow-Origin", "*")] None) /\
    String.length roomId = 64 /\
    forallb Index.isAlnum (list_ascii_of_string roomId) = true /\
    (Request.pathname join = "/api/room/" ++ roomId ++ "/websocket" ->
     forall others, Index.fetch others join = Index.Forward roomId).
Proof.
  intros Hidx Hpost Hpath Hno Hup.
  destruct (generateRoomId_shape indices Hidx) as [Hl Hall].
  exists (Index.generateRoomId indices). split; [|split; [exact Hl | split; [exact Hall|]]].
  - unfold Index.fetch. now rewrite Hpost, Hpath.
  - intros Hjoin others. apply fetch_forwards_iff. now repeat split.
Qed.

Lemma created_room_is_routable_witness :
  exists roomId,
    Index.fetch Sample2.indices (Request.make "POST" "/api/room" None) =
      Index.Respond (Response.make 200 (Some roomId)
                       [("Content-Type", "text/plain");
                        ("Access-Control-Allow-Origin", "*")] None) /\
    String.length roomId = 64 /\
    forallb Index.isAlnum (list_ascii_of_string roomId) = true /\
    (Request.pathname Sample2.join = "/api/room/" ++ roomId ++ "/websocket" ->
     forall others, Index.fetch others Sample2.join = Index.Forward roomId).
Proof.
  apply (created_room_is_routable Sample2.indices
           (Request.make "POST" "/api/room" None) Sample2.join).
  - intros i _. unfold Sample2.indices. apply Nat.mod_upper_bound. discriminate.
  - reflexivity.
  - reflexivity.
  - discriminate.
  - reflexivity.
Defined.

Lemma callsAt_app ws l1 l2 :
  callsAt ws (l1 ++ l2) = (callsAt ws l1 ++ callsAt ws l2)%list.
Proof. apply filter_app. Qed.

Lemma live_set_add ws entries :
  forall s, In s (live (set_add ws entries)) <-> s = ws \/ In s (live entries).
Proof.
  intros s. unfold set_add. destruct (existsb (holds ws) entries) eqn:E.
  - split; [now right|]. intros [-> | H]; [|exact H].
    apply existsb_exists in E. destruct E as [[x|] [Hin Hx]]; simpl in Hx;
      [|discriminate].
    apply Nat.eqb_eq in Hx. subst x.
    clear -Hin. induction entries as [|[y|] l IH]; simpl in *; [contradiction| |].
    + destruct Hin as [H | H]; [inversion H; now left | right; now apply IH].
    + destruct Hin as [H | H]; [discriminate | now apply IH].
  - rewrite live_app. simpl. rewrite in_app_iff. simpl. intuition.
Qed.

(** X19.  The room never refuses what the worker hands it: a request the
    worker forwards is answered 101 with the client end of the pair, and
    the server end is a member of the session set afterwards; the answer
    400 is not given. *)
Theorem forwarded_request_is_accepted indices request roomId client server w :
  Index.fetch indices request = Index.Forward roomId ->
  let result := fetch request (client, server) w in
  fst result = Normal (Response.make 101 None [] (Some client)) /\
  In server (members (snd result)) /\
  users (snd result) = users w /\
  calls (snd result) = calls w.
Proof.
  intros Hforward result.
  apply fetch_forwards_iff in Hforward.
  destruct Hforward as [_ [_ [_ [_ Hup]]]].
  apply wantsWebSocket_iff in Hup.
  unfold result, fetch. rewrite Hup. cbn [negb].
  unfold handleSession, sessions_add, bind, ret. cbn [fst snd].
  split; [reflexivity|]. split; [|split; reflexivity].
  unfold members. cbn [sessions with_sessions]. apply live_set_add. now left.
Qed.

Lemma forwarded_request_is_accepted_witness :
  let result := fetch Sample2.join (9, 4) Sample2.room in
  fst result = Normal (Response.make 101 None [] (Some 9)) /\
  In 4 (members (snd result)) /\
  users (snd result) = users Sample2.room /\
  calls (snd result) = calls Sample2.room.
Proof.
  exact (forwarded_request_is_accepted Sample2.indices Sample2.join Sample2.roomId
           9 4 Sample2.room eq_refl).
Defined.

(** X20.  A socket the room accepts is served from then on: after the
    upgrade of a well-formed room, the next frame the room broadcasts is
    sent to the server end of the pair exactly once, and to every socket
    that was a member before. *)
Theorem accepted_socket_is_served request client server message w :
  wellFormed w = true ->
  wantsWebSocket request = true ->
  let joined := snd (fetch request (client, server) w) in
  let after := snd (broadcast message joined) in
  callsAt server (calls after) =
    (callsAt server (calls w) ++ [attempt w message server])%list /\
  (forall s, In s (members w) ->
     callsAt s (calls after) = (callsAt s (calls w) ++ [attempt w message s])%list).
Proof.
  intros Hwf Hup joined after.
  assert (Hjoined : joined = with_sessions (set_add server (sessions w)) w).
  { unfold joined, fetch. rewrite Hup. reflexivity. }
  assert (Hwf' : wellFormed joined = true).
  { rewrite Hjoined. exact (preserves_sessions_add server w Hwf). }
  pose proof (wellFormed_sessions joined Hwf') as Hnd.
  assert (Hcalls : calls after =
            (calls w ++ List.map (attempt w message) (live (sessions joined)))%list).
  { unfold after. rewrite (broadcast_broadcasted _ _ Hnd). rewrite Hjoined. reflexivity. }
  assert (Hserved : forall s, In s (live (sessions joined)) ->
            callsAt s (calls after) = (callsAt s (calls w) ++ [attempt w message s])%list).
  { intros s Hs. rewrite Hcalls, callsAt_app. f_equal. now apply callsAt_attempts. }
  split.
  - apply Hserved. rewrite Hjoined. apply live_set_add. now left.
  - intros s Hs. apply Hserved. rewrite Hjoined. apply live_set_add. now right.
Qed.

Lemma accepted_socket_is_served_witness :
  let joined := snd (fetch Sample2.join (9, 4) Sample2.room) in
  let after := snd (broadcast (userList []) joined) in
  callsAt 4 (calls after) = [Sent 4 (userList [])] /\
  (forall s, In s (members Sample2.room) ->
     callsAt s (calls after) =
       (callsAt s (calls Sample2.room) ++ [attempt Sample2.room (userList []) s])%list).
Proof.
  exact (accepted_socket_is_served Sample2.join 9 4 (userList []) Sample2.room
           eq_refl eq_refl).
Defined.

(* ================================================================== *)
(** ** Further properties: the patterns of the user id *)
(* ================================================================== *)

Lemma match_here_Rep q min cls capture r s caps :
  Regex.match_here (Regex.Rep q min cls capture :: r) s caps =
  repeatFrom q min cls capture (Regex.match_here r) caps s EmptyString.
Proof. reflexivity. Qed.

Lemma append_empty_r s : s ++ "" = s.
Proof. induction s as [|c s IH]; simpl; [reflexivity | now rewrite IH]. Qed.

Lemma append_assoc_run (a b c : string) : (a ++ b) ++ c = a ++ b ++ c.
Proof. induction a as [|x a IH]; simpl; [reflexivity | now rewrite IH]. Qed.

Section Repetition.

Variables (q : Regex.quant) (min : nat) (cls : ascii -> bool) (capture : bool).
Variable k : string -> list string -> option (list string).
Variable caps : list string.

Local Notation "'capsOf' taken" :=
  (if capture then List.app caps (cons taken nil) else caps) (at level 10, taken at level 9).

(** A match of a repetition takes characters of the class, at least [min]
    of them, and the rest of the pattern matches what follows. *)
Lemma repeatFrom_sound s taken res :
  repeatFrom q min cls capture k caps s taken = Some res ->
  exists t rest,
    s = t ++ rest /\ allOf cls t = true /\
    min <= String.length (taken ++ t) /\
    k rest (capsOf (taken ++ t)) = Some res.
Proof.
  revert taken.
  assert (Hstop : forall s taken,
            (if Nat.leb min (String.length taken) then k s (capsOf taken) else None)
              = Some res ->
            exists t rest,
              s = t ++ rest /\ allOf cls t = true /\
              min <= String.length (taken ++ t) /\
              k rest (capsOf (taken ++ t)) = Some res).
  { intros s0 taken H. destruct (Nat.leb min (String.length taken)) eqn:E; [|discriminate].
    apply Nat.leb_le in E. exists EmptyString, s0.
    rewrite append_empty_r. now repeat split. }
  induction s as [|c s IH]; intros taken H.
  - apply Hstop. simpl in H. idtac. destruct q; [exact H|].
    destruct (if Nat.leb min (String.length taken) then _ else None);
      [exact H | discriminate].
  - assert (Hmore : repeatFrom q min cls capture k caps s (taken ++ String c "") = Some res ->
                    cls c = true ->
                    exists t rest,
                      String c s = t ++ rest /\ allOf cls t = true /\
                      min <= String.length (taken ++ t) /\
                      k rest (capsOf (taken ++ t)) = Some res).
    { intros Hrec Hc. destruct (IH _ Hrec) as [t [rest [Hs [Hall [Hmin Hk]]]]].
      exists (String c t), rest. rewrite append_assoc_run in Hmin, Hk.
      unfold allOf in *. simpl. rewrite Hc, Hall, Hs. now repeat split. }
    simpl in H. destruct q.
    + destruct (cls c) eqn:Hc.
      * destruct (repeatFrom _ _ _ _ _ _ s _) as [res'|] eqn:Hrec.
        -- inversion H; subst. now apply Hmore.
        -- now apply Hstop.
      * now apply Hstop.
    + destruct (if Nat.leb min (String.length taken) then _ else None) as [res'|] eqn:Hs.
      * inversion H; subst. now apply Hstop.
      * destruct (cls c) eqn:Hc; [|discriminate]. now apply Hmore.
Qed.

(** A repetition fails only when the rest of the pattern fails after every
    run of the class it could take. *)
Lemma repeatFrom_None s taken :
  repeatFrom q min cls capture k caps s taken = None ->
  forall t rest,
    s = t ++ rest -> allOf cls t = true ->
    min <= String.length (taken ++ t) ->
    k rest (capsOf (taken ++ t)) = None.
Proof.
  revert taken. induction s as [|c s IH]; intros taken H t rest Hs Hall Hmin.
  - destruct t; [|discriminate]. simpl in Hs. subst rest.
    rewrite append_empty_r in *. apply Nat.leb_le in Hmin.
    simpl in H. rewrite Hmin in H. idtac. destruct q; [exact H|]. now destruct (k _ _).
  - destruct t as [|d t].
    + simpl in Hs. subst rest. rewrite append_empty_r in *.
      apply Nat.leb_le in Hmin. simpl in H. rewrite Hmin in H. idtac.
      destruct q.
      * destruct (cls c); [|exact H].
        now destruct (repeatFrom _ _ _ _ _ _ s _).
      * now destruct (k (String c s) _).
    + simpl in Hs. inversion Hs; subst d s.
      unfold allOf in Hall. simpl in Hall. apply andb_true_iff in Hall.
      destruct Hall as [Hc Hall].
      assert (Hrec : repeatFrom q min cls capture k caps (t ++ rest)
                       (taken ++ String c "") = None).
      { simpl in H. rewrite Hc in H. destruct q.
        - now destruct (repeatFrom _ _ _ _ _ _ (t ++ rest) _).
        - now destruct (if Nat.leb min (String.length taken) then _ else None). }
      specialize (IH _ Hrec t rest eq_refl Hall).
      rewrite append_assoc_run in IH. now apply IH.
Qed.


(** A lazy repetition takes the first run after which the rest of the
    pattern matches. *)
Lemma repeatFrom_Lazy_first t rest res : forall taken,
  q = Regex.Lazy ->
  allOf cls t = true ->
  (forall t1 t2, t = t1 ++ t2 -> t2 <> "" ->
     k (t2 ++ rest) (capsOf (taken ++ t1)) = None) ->
  min <= String.length (taken ++ t) ->
  k rest (capsOf (taken ++ t)) = Some res ->
  repeatFrom q min cls capture k caps (t ++ rest) taken = Some res.
Proof.
  induction t as [|c t IH]; intros taken Hq Hall Hshort Hmin Hk; subst q.
  - rewrite append_empty_r in *. apply Nat.leb_le in Hmin.
    destruct rest; simpl; now rewrite Hmin, Hk.
  - unfold allOf in Hall. simpl in Hall. apply andb_true_iff in Hall.
    destruct Hall as [Hc Hall].
    pose proof (Hshort EmptyString (String c t) eq_refl ltac:(discriminate)) as Hfirst.
    rewrite append_empty_r in Hfirst. cbn [append] in Hfirst.
    cbn [append repeatFrom]. rewrite Hfirst, Hc.
    assert (E : taken ++ String c t = (taken ++ String c "") ++ t)
      by now rewrite append_assoc_run.
    rewrite E in Hmin, Hk.
    replace (if Nat.leb min (String.length taken) then None else None)
      with (@None (list string)) by now destruct (Nat.leb _ _).
    apply IH; try assumption; [reflexivity | ].
    intros t1 t2 Ht Hne. rewrite append_assoc_run.
    apply (Hshort (String c t1) t2); [simpl; now rewrite Ht | assumption].
Qed.

(** A greedy repetition that can take a whole run, and no more, takes it
    when the rest of the pattern matches after it. *)
Lemma repeatFrom_Greedy_all t rest res : forall taken,
  q = Regex.Greedy ->
  allOf cls t = true ->
  match rest with String c _ => cls c = false | EmptyString => True end ->
  min <= String.length (taken ++ t) ->
  k rest (capsOf (taken ++ t)) = Some res ->
  repeatFrom q min cls capture k caps (t ++ rest) taken = Some res.
Proof.
  induction t as [|c t IH]; intros taken Hq Hall Hrest Hmin Hk; subst q.
  - rewrite append_empty_r in *. apply Nat.leb_le in Hmin.
    destruct rest; simpl; [now rewrite Hmin, Hk|]. now rewrite Hrest, Hmin, Hk.
  - unfold allOf in Hall. simpl in Hall. apply andb_true_iff in Hall.
    destruct Hall as [Hc Hall].
    cbn [append repeatFrom]. rewrite Hc.
    assert (E : taken ++ String c t = (taken ++ String c "") ++ t)
      by now rewrite append_assoc_run.
    rewrite E in Hmin, Hk.
    now rewrite (IH _ eq_refl Hall Hrest Hmin Hk).
Qed.

End Repetition.

(** A greedy repetition followed by a character outside its class fails on
    a run of the class that ends before another character outside it. *)
Lemma repeatFrom_then_Lit_fails min cls capture l r caps t c rest : forall taken,
  allOf cls t = true -> cls c = false -> cls l = false -> c <> l ->
  repeatFrom Regex.Greedy min cls capture (Regex.match_here (Regex.Lit l :: r)) caps
             (t ++ String c rest) taken = None.
Proof.
  intros taken Hall Hc Hl Hne. revert taken.
  induction t as [|d t IH]; intros taken.
  - cbn [append repeatFrom]. rewrite Hc.
    destruct (Nat.leb min (String.length taken)); [|reflexivity].
    cbn [Regex.match_here].
    destruct (Ascii.eqb l c) eqn:E; [|reflexivity].
    apply Ascii.eqb_eq in E. congruence.
  - unfold allOf in Hall. simpl in Hall. apply andb_true_iff in Hall.
    destruct Hall as [Hd Hall].
    cbn [append repeatFrom]. rewrite Hd, (IH Hall).
    destruct (Nat.leb min (String.length taken)); [|reflexivity].
    cbn [Regex.match_here].
    destruct (Ascii.eqb l d) eqn:E; [|reflexivity].
    apply Ascii.eqb_eq in E. congruence.
Qed.

Lemma match_here_Lit c r s caps res :
  Regex.match_here (Regex.Lit c :: r) s caps = Some res ->
  exists s', s = String c s' /\ Regex.match_here r s' caps = Some res.
Proof.
  destruct s as [|d s]; simpl; [discriminate|].
  destruct (Ascii.eqb c d) eqn:E; [|discriminate].
  apply Ascii.eqb_eq in E. subst d. intros H. now exists s.
Qed.

Lemma match_here_Lit_same c r s caps :
  Regex.match_here (Regex.Lit c :: r) (String c s) caps = Regex.match_here r s caps.
Proof. simpl. now rewrite Ascii.eqb_refl. Qed.

Lemma allOf_append cls a b : allOf cls (a ++ b) = allOf cls a && allOf cls b.
Proof. unfold allOf. now rewrite list_ascii_of_append, forallb_app. Qed.

Lemma length_one_not_empty s : 1 <= String.length s <-> s <> "".
Proof. destruct s; simpl; split; try congruence; try lia. Qed.

Lemma nameEmailAnchored_sound s res :
  Regex.match_here Regex.nameEmailAnchored s [] = Some res ->
  exists g1 spaces g2,
    res = [g1; g2] /\
    s = g1 ++ spaces ++ "<" ++ g2 ++ ">" /\
    g1 <> "" /\ allOf JS.isDot g1 = true /\ allOf JS.isSpace spaces = true /\
    g2 <> "" /\ allOf Regex.notGt g2 = true.
Proof.
  unfold Regex.nameEmailAnchored. rewrite match_here_Rep. intros H.
  apply repeatFrom_sound in H. destruct H as [g1 [r1 [Hs [Hd [Hmin1 H]]]]].
  rewrite match_here_Rep in H.
  apply repeatFrom_sound in H. destruct H as [spaces [r2 [Hr1 [Hsp [_ H]]]]].
  apply match_here_Lit in H. destruct H as [r3 [Hr2 H]].
  rewrite match_here_Rep in H.
  apply repeatFrom_sound in H. destruct H as [g2 [r4 [Hr3 [Hg [Hmin2 H]]]]].
  apply match_here_Lit in H. destruct H as [r5 [Hr4 H]].
  destruct r5; simpl in H; [|discriminate]. inversion H; subst res.
  simpl in Hmin1, Hmin2. apply length_one_not_empty in Hmin1, Hmin2.
  exists g1, spaces, g2. subst s r1 r2 r3 r4. simpl. now repeat split.
Qed.

Lemma nameEmailAnchored_complete g1 spaces g2 :
  g1 <> "" -> allOf JS.isDot g1 = true -> allOf JS.isSpace spaces = true ->
  g2 <> "" -> allOf Regex.notGt g2 = true ->
  Regex.match_here Regex.nameEmailAnchored (g1 ++ spaces ++ "<" ++ g2 ++ ">") [] <> None.
Proof.
  intros Hn1 Hd Hsp Hn2 Hg H.
  unfold Regex.nameEmailAnchored in H. rewrite match_here_Rep in H.
  pose proof (repeatFrom_None _ _ _ _ _ _ _ _ H g1 _ eq_refl Hd
                ltac:(now apply length_one_not_empty)) as H1.
  rewrite match_here_Rep in H1.
  pose proof (repeatFrom_None _ _ _ _ _ _ _ _ H1 spaces _ eq_refl Hsp
                ltac:(simpl; lia)) as H2.
  cbn [append] in H2. rewrite match_here_Lit_same, match_here_Rep in H2.
  pose proof (repeatFrom_None _ _ _ _ _ _ _ _ H2 g2 _ eq_refl Hg
                ltac:(now apply length_one_not_empty)) as H3.
  simpl in H3. discriminate.
Qed.

Lemma search_sound r s res :
  Regex.search r s = Some res ->
  exists before rest, s = before ++ rest /\ Regex.match_here r rest [] = Some res.
Proof.
  induction s as [|c s IH]; simpl; intros H.
  - exists EmptyString, EmptyString. split; [reflexivity|].
    now destruct (Regex.match_here r "" []).
  - destruct (Regex.match_here r (String c s) []) as [res'|] eqn:E.
    + inversion H; subst. now exists EmptyString, (String c s).
    + destruct (IH H) as [before [rest [Hs Hm]]].
      exists (String c before), rest. simpl. now rewrite Hs.
Qed.

Lemma search_None r s :
  Regex.search r s = None ->
  forall before rest, s = before ++ rest -> Regex.match_here r rest [] = None.
Proof.
  induction s as [|c s IH]; simpl; intros H before rest Hs.
  - destruct before; [|discriminate]. simpl in Hs. subst rest.
    now destruct (Regex.match_here r "" []).
  - destruct (Regex.match_here r (String c s) []) as [res'|] eqn:E; [discriminate|].
    destruct before as [|d before].
    + simpl in Hs. now subst rest.
    + simpl in Hs. inversion Hs; subst. now apply (IH H before).
Qed.

Lemma nameEmailInLine_sound s res :
  Regex.match_here Regex.nameEmailInLine s [] = Some res ->
  exists g1 spaces g2 after,
    res = [g1; g2] /\
    s = g1 ++ spaces ++ "<" ++ g2 ++ ">" ++ after /\
    g1 <> "" /\ allOf (fun c => JS.isWord c || JS.isSpace c) g1 = true /\
    allOf JS.isSpace spaces = true /\
    g2 <> "" /\ allOf Regex.notGt g2 = true.
Proof.
  unfold Regex.nameEmailInLine. rewrite match_here_Rep. intros H.
  apply repeatFrom_sound in H. destruct H as [g1 [r1 [Hs [Hd [Hmin1 H]]]]].
  rewrite match_here_Rep in H.
  apply repeatFrom_sound in H. destruct H as [spaces [r2 [Hr1 [Hsp [_ H]]]]].
  apply match_here_Lit in H. destruct H as [r3 [Hr2 H]].
  rewrite match_here_Rep in H.
  apply repeatFrom_sound in H. destruct H as [g2 [r4 [Hr3 [Hg [Hmin2 H]]]]].
  apply match_here_Lit in H. destruct H as [r5 [Hr4 H]].
  simpl in H. inversion H; subst res.
  simpl in Hmin1, Hmin2. apply length_one_not_empty in Hmin1, Hmin2.
  exists g1, spaces, g2, r5. subst s r1 r2 r3 r4. simpl. now repeat split.
Qed.

Lemma nameEmailInLine_complete g1 spaces g2 after :
  g1 <> "" -> allOf (fun c => JS.isWord c || JS.isSpace c) g1 = true ->
  allOf JS.isSpace spaces = true ->
  g2 <> "" -> allOf Regex.notGt g2 = true ->
  Regex.match_here Regex.nameEmailInLine (g1 ++ spaces ++ "<" ++ g2 ++ ">" ++ after) []
    <> None.
Proof.
  intros Hn1 Hd Hsp Hn2 Hg H.
  unfold Regex.nameEmailInLine in H. rewrite match_here_Rep in H.
  pose proof (repeatFrom_None _ _ _ _ _ _ _ _ H g1 _ eq_refl Hd
                ltac:(now apply length_one_not_empty)) as H1.
  rewrite match_here_Rep in H1.
  pose proof (repeatFrom_None _ _ _ _ _ _ _ _ H1 spaces _ eq_refl Hsp
                ltac:(simpl; lia)) as H2.
  cbn [append] in H2. rewrite match_here_Lit_same, match_here_Rep in H2.
  pose proof (repeatFrom_None _ _ _ _ _ _ _ _ H2 g2 _ eq_refl Hg
                ltac:(now apply length_one_not_empty)) as H3.
  cbn [append] in H3. rewrite match_here_Lit_same in H3. simpl in H3. discriminate.
Qed.

(** X21.  The pattern of line 355 matches a user id exactly when the user
    id is a run of one or more characters that are no line terminators, a
    run of white space, [<], a run of one or more characters that are not
    [>], and [>] at the end; the two groups a match returns are such a first
    and such a last run. *)
Theorem user_id_pattern_shape userId :
  let shape g1 spaces g2 :=
    userId = g1 ++ spaces ++ "<" ++ g2 ++ ">" /\
    g1 <> "" /\ allOf JS.isDot g1 = true /\ allOf JS.isSpace spaces = true /\
    g2 <> "" /\ allOf Regex.notGt g2 = true in
  (forall g1 g2, Regex.matchUserId userId = Some (g1, g2) ->
     exists spaces, shape g1 spaces g2) /\
  (Regex.matchUserId userId <> None <-> exists g1 spaces g2, shape g1 spaces g2).
Proof.
  intros shape. unfold Regex.matchUserId.
  assert (Hsound : forall g1 g2,
            Regex.groups2 (Regex.match_here Regex.nameEmailAnchored userId []) = Some (g1, g2) ->
            exists spaces, shape g1 spaces g2).
  { intros g1 g2 H.
    destruct (Regex.match_here Regex.nameEmailAnchored userId []) as [res|] eqn:E;
      [|discriminate].
    apply nameEmailAnchored_sound in E.
    destruct E as [a [spaces [b [Hres Hshape]]]]. subst res.
    simpl in H. inversion H; subst. now exists spaces. }
  split; [exact Hsound|]. split.
  - intros H.
    destruct (Regex.groups2 (Regex.match_here Regex.nameEmailAnchored userId []))
      as [[g1 g2]|] eqn:E; [|congruence].
    destruct (Hsound g1 g2 eq_refl) as [spaces Hshape]. now exists g1, spaces, g2.
  - intros [g1 [spaces [g2 [Hs [Hn1 [Hd [Hsp [Hn2 Hg]]]]]]]].
    pose proof (nameEmailAnchored_complete g1 spaces g2 Hn1 Hd Hsp Hn2 Hg) as Hc.
    rewrite <- Hs in Hc.
    destruct (Regex.match_here Regex.nameEmailAnchored userId []) as [res|] eqn:E;
      [|congruence].
    apply nameEmailAnchored_sound in E.
    destruct E as [a [sp [b [Hres _]]]]. subst res. discriminate.
Qed.

(** X22.  The pattern of line 405 matches a line exactly when, somewhere in
    the line, a run of one or more word or white-space characters is
    followed by a run of white space, [<], a run of one or more characters
    that are not [>], and [>]; the two groups a match returns are such a
    first and such a last run. *)
Theorem line_pattern_shape line :
  let shape before g1 spaces g2 after :=
    line = before ++ g1 ++ spaces ++ "<" ++ g2 ++ ">" ++ after /\
    g1 <> "" /\ allOf (fun c => JS.isWord c || JS.isSpace c) g1 = true /\
    allOf JS.isSpace spaces = true /\
    g2 <> "" /\ allOf Regex.notGt g2 = true in
  (forall g1 g2, Regex.matchLine line = Some (g1, g2) ->
     exists before spaces after, shape before g1 spaces g2 after) /\
  (Regex.matchLine line <> None <->
   exists before g1 spaces g2 after, shape before g1 spaces g2 after).
Proof.
  intros shape. unfold Regex.matchLine.
  assert (Hsound : forall res,
            Regex.search Regex.nameEmailInLine line = Some res ->
            exists before g1 spaces g2 after,
              res = [g1; g2] /\ shape before g1 spaces g2 after).
  { intros res H. apply search_sound in H. destruct H as [before [rest [Hl H]]].
    apply nameEmailInLine_sound in H.
    destruct H as [g1 [spaces [g2 [after [Hres [Hrest Hshape]]]]]].
    exists before, g1, spaces, g2, after. split; [exact Hres|].
    split; [now rewrite Hl, Hrest | exact Hshape]. }
  split; [|split].
  - intros g1 g2 H.
    destruct (Regex.search Regex.nameEmailInLine line) as [res|] eqn:E; [|discriminate].
    destruct (Hsound res eq_refl) as [before [a [spaces [b [after [Hres Hshape]]]]]].
    subst res. simpl in H. inversion H; subst. now exists before, spaces, after.
  - intros H.
    destruct (Regex.search Regex.nameEmailInLine line) as [res|] eqn:E;
      [|simpl in H; congruence].
    destruct (Hsound res eq_refl) as [before [a [spaces [b [after [_ Hshape]]]]]].
    now exists before, a, spaces, b, after.
  - intros [before [g1 [spaces [g2 [after [Hs [Hn1 [Hd [Hsp [Hn2 Hg]]]]]]]]]].
    destruct (Regex.search Regex.nameEmailInLine line) as [res|] eqn:E.
    + destruct (Hsound res eq_refl) as [? [a [? [b [? [Hres _]]]]]]. subst res.
      discriminate.
    + exfalso.
      apply (nameEmailInLine_complete g1 spaces g2 after Hn1 Hd Hsp Hn2 Hg).
      exact (search_None _ _ E before _ Hs).
Qed.

Lemma trimEnd_length s : String.length (JS.trimEnd s) <= String.length s.
Proof.
  induction s as [|c s IH]; simpl; [lia|].
  destruct (JS.isSpace c && (JS.trimEnd s =? "")); simpl; lia.
Qed.

Lemma trimStart_length s : String.length (JS.trimStart s) <= String.length s.
Proof.
  induction s as [|c s IH]; simpl; [lia|]. destruct (JS.isSpace c); simpl; lia.
Qed.

Lemma trimStart_fixed s :
  String.length (JS.trimStart s) = String.length s -> JS.trimStart s = s.
Proof.
  destruct s as [|c s]; simpl; [reflexivity|].
  destruct (JS.isSpace c); [|reflexivity].
  pose proof (trimStart_length s). simpl. lia.
Qed.

Lemma trim_fixed s : JS.trim s = s -> JS.trimEnd s = s.
Proof.
  unfold JS.trim. intros H.
  assert (Hs : JS.trimStart s = s).
  { apply trimStart_fixed.
    pose proof (trimEnd_length (JS.trimStart s)). pose proof (trimStart_length s).
    rewrite H in *. lia. }
  now rewrite Hs in H.
Qed.

Lemma trimEnd_spaces s : allOf JS.isSpace s = true -> JS.trimEnd s = "".
Proof.
  unfold allOf. induction s as [|c s IH]; simpl; [reflexivity|].
  intros H. apply andb_true_iff in H. destruct H as [Hc Hs].
  now rewrite (IH Hs), Hc.
Qed.

Lemma trimEnd_append_spaces a b :
  allOf JS.isSpace b = true -> JS.trimEnd (a ++ b) = JS.trimEnd a.
Proof.
  intros Hb. induction a as [|c a IH]; simpl; [now apply trimEnd_spaces|].
  now rewrite IH.
Qed.

(** A string [trimEnd] leaves as it is ends in no run of white space. *)
Lemma trimEnd_fixed_suffix a b :
  JS.trimEnd (a ++ b) = a ++ b -> b <> "" -> allOf JS.isSpace b = false.
Proof.
  intros H Hne. destruct (allOf JS.isSpace b) eqn:E; [|reflexivity].
  rewrite trimEnd_append_spaces in H by assumption.
  pose proof (trimEnd_length a) as Hl. rewrite H, length_append_string in Hl.
  destruct b; [congruence | simpl in Hl; lia].
Qed.

Lemma first_outside cls s :
  allOf cls s = false ->
  exists a c rest, s = a ++ String c rest /\ allOf cls a = true /\ cls c = false.
Proof.
  unfold allOf. induction s as [|c s IH]; simpl; [discriminate|].
  destruct (cls c) eqn:Hc; simpl.
  - intros H. destruct (IH H) as [a [d [rest [Hs [Ha Hd]]]]].
    exists (String c a), d, rest. simpl. now rewrite Hs, Hc, Ha.
  - intros _. now exists EmptyString, c, s.
Qed.

Lemma allOf_In cls s c :
  allOf cls s = true -> In c (list_ascii_of_string s) -> cls c = true.
Proof. unfold allOf. rewrite forallb_forall. auto. Qed.

(** The user id [name <email>] is split at its name: the name is what the
    lazy first group takes when it has no [<] and ends in no white
    space. *)
Lemma matchUserId_standard name spaces email :
  name <> "" -> JS.trimEnd name = name ->
  allOf JS.isDot name = true -> allOf notLt name = true ->
  allOf JS.isSpace spaces = true ->
  email <> "" -> allOf Regex.notGt email = true ->
  Regex.matchUserId (name ++ spaces ++ "<" ++ email ++ ">") = Some (name, email).
Proof.
  intros Hn Htrim Hdot Hlt Hsp He Hgt.
  unfold Regex.matchUserId, Regex.nameEmailAnchored. rewrite match_here_Rep.
  rewrite (repeatFrom_Lazy_first Regex.Lazy 1 JS.isDot true _ [] name _ [name; email]);
    try reflexivity; try assumption.
  - intros t1 t2 Hname Hne. rewrite match_here_Rep.
    assert (Hout : allOf JS.isSpace t2 = false).
    { apply (trimEnd_fixed_suffix t1); [now rewrite <- Hname | assumption]. }
    destruct (first_outside _ _ Hout) as [a [c [rest [Ht2 [Ha Hc]]]]].
    rewrite Ht2, append_assoc_run. cbn [append].
    apply repeatFrom_then_Lit_fails; try assumption; [reflexivity|].
    assert (Hin : notLt c = true).
    { apply (allOf_In _ _ _ Hlt). rewrite Hname, Ht2, !list_ascii_of_append.
      apply in_or_app. right. apply in_or_app. right. now left. }
    unfold notLt in Hin. apply negb_true_iff, Ascii.eqb_neq in Hin. congruence.
  - now apply length_one_not_empty.
  - rewrite match_here_Rep. cbn [append List.app].
    apply repeatFrom_Greedy_all; try reflexivity; try assumption; [simpl; lia|].
    cbn [append]. rewrite match_here_Lit_same, match_here_Rep.
    apply repeatFrom_Greedy_all; try reflexivity; try assumption.
    now apply length_one_not_empty.
Qed.

(** X23.  A key whose primary user id is [name <email>] registers under
    that name and that email: when the name has no [<], no line terminator
    and no white space around it, and the email no [>] and no white space
    around it, the profile is the fingerprint in upper case, the name and
    the email, and no random suffix is drawn. *)
Theorem standard_user_id_is_kept readKey armored key name spaces email w :
  readKey armored = Some key ->
  Key.getPrimaryUser key = Some (Some (name ++ spaces ++ "<" ++ email ++ ">")) ->
  name <> "" -> JS.trim name = name ->
  allOf JS.isDot name = true -> allOf notLt name = true ->
  allOf JS.isSpace spaces = true ->
  email <> "" -> JS.trim email = email -> allOf Regex.notGt email = true ->
  extractUserProfile readKey armored w =
  (Normal (UserProfile.make (JS.toUpperCase (Key.getFingerprint key)) name email), w).
Proof.
  intros Hkey Huser Hn Htn Hdot Hlt Hsp He Hte Hgt.
  rewrite extractUserProfile_cases, Hkey, Huser. unfold parseUserId.
  rewrite matchUserId_standard; try assumption; [|now apply trim_fixed].
  rewrite Htn, Hte. unfold withDefaults, JS.falsy. cbn [fst snd].
  apply String.eqb_neq in Hn, He. now rewrite Hn, He.
Qed.

Lemma standard_user_id_is_kept_witness :
  extractUserProfile (Sample.keyOf "Alice B.  <alice@x.com>") Sample.armored Sample.room =
  (Normal (UserProfile.make "A1B2" "Alice B." "alice@x.com"), Sample.room).
Proof.
  apply (standard_user_id_is_kept (Sample.keyOf "Alice B.  <alice@x.com>") Sample.armored
           (Key.make (Some (Some "Alice B.  <alice@x.com>")) "a1b2")
           "Alice B." "  " "alice@x.com" Sample.room);
    try reflexivity; discriminate.
Defined.

(** X24.  No listener of a socket lets an exception escape: whatever the
    payload, the decoder, the key reader and the state of the sockets, the
    message, close and error listeners return normally. *)
Theorem listeners_never_throw JSON_parse readKey e w :
  fst (deliver JSON_parse readKey e w) = Normal tt.
Proof.
  destruct e as [ws | ws data | ws | ws | ws | time]; try reflexivity.
  - cbn [deliver]. rewrite onMessage_cases.
    destruct (JSON_parse data) as [message|]; [|now rewrite sendError_replied].
    unfold try_catch.
    destruct (handleMessage readKey ws message w) as [[[]|] w'];
      [reflexivity | now rewrite sendError_replied].
  - cbn [deliver]. unfold handleDisconnect, bind, sessions_delete, users_delete.
    rewrite broadcastUserList_broadcast. apply broadcast_returns.
  - cbn [deliver]. unfold handleDisconnect, bind, sessions_delete, users_delete.
    rewrite broadcastUserList_broadcast. apply broadcast_returns.
Qed.
